(** * Incus: migration arguments, operation locks, volume backups, certificates

    A shallow embedding of the parts of the daemon that the specification
    talks about:

    - [cmd/incusd/storage_volumes_backup.go]: the handlers of custom
      volume backups, the naming of new backups and the validation of
      backup names;
    - [cmd/incusd/certificates.go]: [certificateValidate], the trust
      tokens, the handlers that add, update, delete and list certificates,
      and the cache of trusted certificates;
    - [internal/server/instance/instance_interface.go]: the declarations
      of the instance contract and of the migration argument records;
    - the operation lock registry and the cluster-move coordinator, which
      are not among the sources at hand and are modelled from the
      specification. *)

From Stdlib Require Import ZArith Lia Bool List Ascii String Permutation.
From stdpp Require Import base option gmap strings.
Import ListNotations.

Open Scope Z_scope.

(** ** Go strings and machine integers *)

Module Go.

(** A Go string is a sequence of bytes; [string] is a list of 8-bit
    characters, so the two agree. *)

Definition byte_of (c : ascii) : Z := Z.of_N (N_of_ascii c).

(** [int] on the 64-bit platforms the daemon is built for. *)
Definition MinInt64 : Z := - 2 ^ 63.
Definition MaxUint64 : Z := 2 ^ 64 - 1.

(** Two's complement wrap-around of a 64-bit signed result. *)
Definition wrap64 (z : Z) : Z := (z + 2 ^ 63) mod 2 ^ 64 - 2 ^ 63.


(** [strings.HasPrefix(s, prefix)] *)
Definition HasPrefix (s prefix : string) : bool := String.prefix prefix s.

(** [s[n:]] for [n <= len(s)] (the only way the handler uses it). *)
Fixpoint slice_from (n : nat) (s : string) : string :=
  match n, s with
  | O, _ => s
  | S n', String _ t => slice_from n' t
  | S _, EmptyString => EmptyString
  end.

(** [strings.Contains(s, "/")]: the needle is one byte long. *)
Fixpoint ContainsSlash (s : string) : bool :=
  match s with
  | EmptyString => false
  | String c t => if Ascii.eqb c "/" then true else ContainsSlash t
  end.

(** *** [fmt.Sscanf(s, "%d", &num)]

    The scanner of the standard library, specialised to the format
    ["%d"] and an [*int] operand.  [None] stands for a non-nil error (in
    which case the operand is left alone); [Some n] for [count = 1] and a
    nil error.  Input left over after the number is not an error. *)

Definition is_digit (c : ascii) : bool :=
  (48 <=? byte_of c) && (byte_of c <=? 57).

(** [decimalDigits = "0123456789_"] *)
Definition is_decimalDigits (c : ascii) : bool :=
  is_digit c || Ascii.eqb c "_".

(** [sign = "+-"] *)
Definition is_sign (c : ascii) : bool :=
  Ascii.eqb c "+" || Ascii.eqb c "-".

(** One-byte members of the scanner's [space] table other than newline:
    U+0009, U+000B..U+000D and U+0020. *)
Definition is_space1 (b : Z) : bool :=
  ((9 <=? b) && (b <=? 13) && negb (b =? 10)) || (b =? 32).

(** Two-byte members, as UTF-8: U+0085 and U+00A0. *)
Definition is_space2 (b1 b2 : Z) : bool :=
  (b1 =? 194) && ((b2 =? 133) || (b2 =? 160)).

(** Three-byte members, as UTF-8: U+1680, U+2000..U+200A, U+2028,
    U+2029, U+202F, U+205F and U+3000. *)
Definition is_space3 (b1 b2 b3 : Z) : bool :=
  ((b1 =? 225) && (b2 =? 154) && (b3 =? 128))
  || ((b1 =? 226) && (b2 =? 128)
        && (((128 <=? b3) && (b3 <=? 138)) || (b3 =? 168) || (b3 =? 169) || (b3 =? 175)))
  || ((b1 =? 226) && (b2 =? 129) && (b3 =? 159))
  || ((b1 =? 227) && (b2 =? 128) && (b3 =? 128)).

(** [ss.SkipSpace] with [nlIsSpace = false]: [None] is the error
    "unexpected newline", [Some rest] the input from the first rune that
    is not a space. *)
Fixpoint SkipSpace (s : string) : option string :=
  match s with
  | EmptyString => Some EmptyString
  | String c1 t1 =>
      let b1 := byte_of c1 in
      if b1 =? 10 then None
      else if is_space1 b1 then SkipSpace t1
      else
        match t1 with
        | EmptyString => Some s
        | String c2 t2 =>
            let b2 := byte_of c2 in
            if is_space2 b1 b2 then SkipSpace t2
            else
              match t2 with
              | EmptyString => Some s
              | String c3 t3 =>
                  if is_space3 b1 b2 (byte_of c3) then SkipSpace t3 else Some s
              end
        end
  end.

(** The run of bytes taken by [for s.accept(digits) {}]. *)
Fixpoint accept_digits (s : string) : string :=
  match s with
  | EmptyString => EmptyString
  | String c t => if is_decimalDigits c then String c (accept_digits t) else EmptyString
  end.

(** [strconv.ParseUint(s, 10, 64)], the loop over the bytes of [s] with
    accumulator [n]: a byte that is not a digit is a syntax error, a value
    above [MaxUint64] a range error. *)
Fixpoint ParseUint_loop (s : string) (n : Z) : option Z :=
  match s with
  | EmptyString => Some n
  | String c t =>
      if negb (is_digit c) then None
      else if MaxUint64 / 10 + 1 <=? n then None
      else
        let n1 := n * 10 + (byte_of c - 48) in
        if MaxUint64 <? n1 then None else ParseUint_loop t n1
  end.

Definition ParseUint (s : string) : option Z :=
  match s with
  | EmptyString => None
  | _ => ParseUint_loop s 0
  end.

(** [strconv.ParseInt(s, 10, 64)] *)
Definition ParseInt (s : string) : option Z :=
  match s with
  | EmptyString => None
  | String c t =>
      let neg := Ascii.eqb c "-" in
      let body := if Ascii.eqb c "+" || neg then t else s in
      match ParseUint body with
      | None => None
      | Some un =>
          let cutoff := 2 ^ 63 in
          if negb neg && (cutoff <=? un) then None
          else if neg && (cutoff <? un) then None
          else Some (if neg then - un else un)
      end
  end.

(** [ss.scanInt('d', 64)]: skip spaces, take an optional sign and at
    least one byte of [decimalDigits], then convert the token. *)
Definition scanInt (s : string) : option Z :=
  match SkipSpace s with
  | None => None
  | Some EmptyString => None
  | Some (String c t as s1) =>
      let '(sgn, s2) :=
        if is_sign c then (String c EmptyString, t) else (EmptyString, s1) in
      match accept_digits s2 with
      | EmptyString => None
      | tok => ParseInt (sgn +:+ tok)
      end
  end.

(** [fmt.Sscanf(s, "%d", &num)]: [doScanf] skips spaces before the verb
    and [scanInt] does so again. *)
Definition Sscanf_d (s : string) : option Z :=
  match SkipSpace s with
  | None => None
  | Some s1 => scanInt s1
  end.

(** *** [fmt.Sprintf("%d", n)] *)

Definition digit_char (d : Z) : ascii := ascii_of_N (Z.to_N (48 + d)).

(** Digits are produced from the least significant one into a buffer of
    twenty bytes, enough for any 64-bit value. *)
Fixpoint fmt_digits (fuel : nat) (n : Z) (acc : string) : string :=
  match fuel with
  | O => acc
  | S fuel' =>
      if n <? 10 then String (digit_char n) acc
      else fmt_digits fuel' (n / 10) (String (digit_char (n mod 10)) acc)
  end.

Definition Sprintf_d (n : Z) : string :=
  if n <? 0 then String "-" (fmt_digits 20 (- n) EmptyString)
  else fmt_digits 20 n EmptyString.

(** *** Errors

    [errors.New], [fmt.Errorf] with one operand, and errors handed back
    by collaborators. *)

Inductive error : Type :=
| errors_New (msg : string)
| fmt_Errorf (format arg : string)
| external_error (msg : string).

End Go.

(** ** Custom volume backups ([cmd/incusd/storage_volumes_backup.go]) *)

Module Backups.
Import Go.

(** Modelled from the spec: the constant [internalInstance.SnapshotDelimiter]
    is declared outside the sources at hand; backup names are
    [volumeName + "/" + name]. *)
Definition SnapshotDelimiter : string := "/".

(** *** Coming up with a name

    [base := volumeName + SnapshotDelimiter + "backup"] *)
Definition base_of (volumeName : string) : string :=
  volumeName +:+ SnapshotDelimiter +:+ "backup".

(** One iteration of [for _, backup := range backups], as a function from
    the value of [max] before it to the value after it. *)
Definition scan_step (base : string) (max : Z) (backup : string) : Z :=
  if negb (HasPrefix backup base) then max
  else
    let substr := slice_from (String.length base) backup in
    match Sscanf_d substr with
    | None => max
    | Some num => if max <=? num then wrap64 (num + 1) else max
    end.

(** The value of [max] after the loop. *)
Definition next_number (volumeName : string) (backups : list string) : Z :=
  fold_left (scan_step (base_of volumeName)) backups 0.

(** [req.Name = fmt.Sprintf("backup%d", max)] *)
Definition generated_name (volumeName : string) (backups : list string) : string :=
  "backup" +:+ Sprintf_d (next_number volumeName backups).


(** *** The naming rule as the specification words it

    A backup name "names" [k] when it is the prefix followed by a
    non-empty run of decimal digits whose value is [k] (whatever comes
    after the digits). *)






(** *** The request handlers

    A handler is a sequence of calls to collaborators, each of which may
    end the request early.  A call record holds what each collaborator
    returns when the handler calls it for the request at hand; the
    handler is a function of that record. *)

Inductive result (A : Type) : Type :=
| Ok (a : A)
| Err (e : error).
Arguments Ok {A} a.
Arguments Err {A} e.

(** Volume type codes of package [db], declared outside the sources at
    hand; the handlers only compare against the code for custom volumes. *)
Definition StoragePoolVolumeTypeCustom : Z := 2.

Inductive OperationType : Type :=
| CustomVolumeBackupCreate
| CustomVolumeBackupRename.

(** [api.StorageVolumeBackupsPost], the fields the handler reads. *)
Record StorageVolumeBackupsPost : Type := {
  Name : string;
  ExpiresAt : Z;
  VolumeOnly : bool;
  OptimizedStorage : bool;
  CompressionAlgorithm : string;
  Target : option string
}.

(** What the background function of an operation will do when it runs. *)
Inductive Task : Type :=
| backup_task (fullName : string) (volumeID : Z) (req : StorageVolumeBackupsPost)
| rename_task (oldName newName : string).

(** An operation registered by [operations.OperationCreate]. *)
Record Operation : Type := {
  op_type : OperationType;
  op_backup_resource : string;
  op_run : Task
}.

Inductive Response : Type :=
| SmartError (e : error)
| BadRequest (e : error)
| InternalError (e : error)
| ForwardedResponse (member : string)
| OperationResponse (op : Operation).

(** The operations a response stands for: the handlers create an
    operation only on the path that answers with it. *)
Definition created (r : Response) : list Operation :=
  match r with
  | OperationResponse op => [op]
  | _ => []
  end.

(** Early return: [inl r] is [return r], [inr a] goes on with [a]. *)
Definition step (A : Type) : Type := Response + A.

Definition bind {A B : Type} (m : step A) (k : A -> step B) : step B :=
  match m with
  | inl r => inl r
  | inr a => k a
  end.

Notation "x <-- m ;> k" := (bind m (fun x => k))
  (at level 200, m at level 100, k at level 200, right associativity).
Notation "'exec' m ;> k" := (bind m (fun _ => k))
  (at level 10, m at level 100, k at level 200).

(** [v, err := f(); if err != nil { return wrap(err) }] *)
Definition or_return {A : Type} (wrap : error -> Response) (r : result A) : step A :=
  match r with
  | Ok a => inr a
  | Err e => inl (wrap e)
  end.

(** [err = f(); if err != nil { return wrap(err) }] *)
Definition check (wrap : error -> Response) (e : option error) : step unit :=
  match e with
  | None => inr tt
  | Some e => inl (wrap e)
  end.

(** [resp := forwardedResponseIf...(); if resp != nil { return resp }] *)
Definition forward (member : option string) : step unit :=
  match member with
  | None => inr tt
  | Some m => inl (ForwardedResponse m)
  end.

(** [if cond { return r }] *)
Definition return_if (cond : bool) (r : Response) : step unit :=
  if cond then inl r else inr tt.

Definition run (m : step Response) : Response :=
  match m with
  | inl r => r
  | inr r => r
  end.

Definition slash_error : error := errors_New "Backup names may not contain slashes".

(** Calls made by [storagePoolVolumeTypeCustomBackupsPost], in order. *)
Record BackupsPostCall : Type := {
  bp_volumeName : result string;
  bp_poolName : result string;
  bp_volumeTypeName : result string;
  bp_VolumeTypeNameToDBType : result Z;
  bp_StorageVolumeProject : result string;
  bp_AllowBackupCreation : option error;
  bp_forwardedIfTargetIsRemote : option string;
  bp_GetStoragePool : result Z;
  bp_forwardedIfVolumeIsRemote : option string;
  bp_GetStoragePoolVolume : result Z;
  bp_Decode : option error;
  bp_Marshal : option error;
  bp_Unmarshal : result StorageVolumeBackupsPost;
  bp_GetStoragePoolVolumeBackupsNames : result (list string);
  bp_OperationCreate : option error
}.

Definition with_name (req : StorageVolumeBackupsPost) (name : string)
  : StorageVolumeBackupsPost :=
  {| Name := name; ExpiresAt := ExpiresAt req; VolumeOnly := VolumeOnly req;
     OptimizedStorage := OptimizedStorage req;
     CompressionAlgorithm := CompressionAlgorithm req; Target := Target req |}.

Definition is_empty (s : string) : bool :=
  match s with EmptyString => true | _ => false end.

Definition storagePoolVolumeTypeCustomBackupsPost (c : BackupsPostCall) : Response :=
  run (
    volumeName <-- or_return SmartError (bp_volumeName c) ;>
    poolName <-- or_return SmartError (bp_poolName c) ;>
    volumeTypeName <-- or_return SmartError (bp_volumeTypeName c) ;>
    volumeType <-- or_return BadRequest (bp_VolumeTypeNameToDBType c) ;>
    exec return_if (negb (volumeType =? StoragePoolVolumeTypeCustom))
      (BadRequest (fmt_Errorf "Invalid storage volume type %q" volumeTypeName)) ;>
    projectName <-- or_return SmartError (bp_StorageVolumeProject c) ;>
    exec check SmartError (bp_AllowBackupCreation c) ;>
    exec forward (bp_forwardedIfTargetIsRemote c) ;>
    poolID <-- or_return SmartError (bp_GetStoragePool c) ;>
    exec forward (bp_forwardedIfVolumeIsRemote c) ;>
    volumeID <-- or_return SmartError (bp_GetStoragePoolVolume c) ;>
    exec check InternalError (bp_Decode c) ;>
    exec check InternalError (bp_Marshal c) ;>
    req <-- or_return BadRequest (bp_Unmarshal c) ;>
    req <-- (if is_empty (Name req) then
               (backups <-- or_return BadRequest (bp_GetStoragePoolVolumeBackupsNames c) ;>
                inr (with_name req (generated_name volumeName backups)))
             else inr req) ;>
    exec return_if (ContainsSlash (Name req)) (BadRequest slash_error) ;>
    let fullName := volumeName +:+ SnapshotDelimiter +:+ Name req in
    exec check InternalError (bp_OperationCreate c) ;>
    inr (OperationResponse
           {| op_type := CustomVolumeBackupCreate;
              op_backup_resource := Name req;
              op_run := backup_task fullName volumeID req |})).

(** Calls made by [storagePoolVolumeTypeCustomBackupPost], in order. *)
Record BackupPostCall : Type := {
  rp_volumeName : result string;
  rp_poolName : result string;
  rp_volumeTypeName : result string;
  rp_backupName : result string;
  rp_VolumeTypeNameToDBType : result Z;
  rp_StorageVolumeProject : result string;
  rp_forwardedIfTargetIsRemote : option string;
  rp_forwardedIfVolumeIsRemote : option string;
  rp_Decode : result string;
  rp_LoadByName : option error;
  rp_OperationCreate : option error
}.

Definition storagePoolVolumeTypeCustomBackupPost (c : BackupPostCall) : Response :=
  run (
    volumeName <-- or_return SmartError (rp_volumeName c) ;>
    poolName <-- or_return SmartError (rp_poolName c) ;>
    volumeTypeName <-- or_return SmartError (rp_volumeTypeName c) ;>
    backupName <-- or_return SmartError (rp_backupName c) ;>
    volumeType <-- or_return BadRequest (rp_VolumeTypeNameToDBType c) ;>
    exec return_if (negb (volumeType =? StoragePoolVolumeTypeCustom))
      (BadRequest (fmt_Errorf "Invalid storage volume type %q" volumeTypeName)) ;>
    projectName <-- or_return SmartError (rp_StorageVolumeProject c) ;>
    exec forward (rp_forwardedIfTargetIsRemote c) ;>
    exec forward (rp_forwardedIfVolumeIsRemote c) ;>
    reqName <-- or_return BadRequest (rp_Decode c) ;>
    exec return_if (ContainsSlash reqName) (BadRequest slash_error) ;>
    let oldName := volumeName +:+ SnapshotDelimiter +:+ backupName in
    exec check SmartError (rp_LoadByName c) ;>
    let newName := volumeName +:+ SnapshotDelimiter +:+ reqName in
    exec check InternalError (rp_OperationCreate c) ;>
    inr (OperationResponse
           {| op_type := CustomVolumeBackupRename;
              op_backup_resource := oldName;
              op_run := rename_task oldName newName |})).

(** The name a create request would give the backup: the requested one,
    or the generated one when none is requested. *)
Definition bp_effective_name (c : BackupsPostCall) : option string :=
  match bp_Unmarshal c with
  | Err _ => None
  | Ok req =>
      if is_empty (Name req) then
        match bp_volumeName c, bp_GetStoragePoolVolumeBackupsNames c with
        | Ok volumeName, Ok backups => Some (generated_name volumeName backups)
        | _, _ => None
        end
      else Some (Name req)
  end.

(** The name a rename request asks for. *)
Definition rp_effective_name (c : BackupPostCall) : option string :=
  match rp_Decode c with
  | Ok reqName => Some reqName
  | Err _ => None
  end.

Definition is_ok {A : Type} (r : result A) : bool :=
  match r with Ok _ => true | Err _ => false end.

Definition is_nil {A : Type} (o : option A) : bool :=
  match o with None => true | Some _ => false end.

Definition is_custom (r : result Z) : bool :=
  match r with Ok t => t =? StoragePoolVolumeTypeCustom | Err _ => false end.

(** Every step of the create handler before the name is validated lets
    the request through. *)
Definition bp_reaches_validation (c : BackupsPostCall) : bool :=
  is_ok (bp_volumeName c) && is_ok (bp_poolName c) && is_ok (bp_volumeTypeName c)
  && is_custom (bp_VolumeTypeNameToDBType c)
  && is_ok (bp_StorageVolumeProject c)
  && is_nil (bp_AllowBackupCreation c)
  && is_nil (bp_forwardedIfTargetIsRemote c)
  && is_ok (bp_GetStoragePool c)
  && is_nil (bp_forwardedIfVolumeIsRemote c)
  && is_ok (bp_GetStoragePoolVolume c)
  && is_nil (bp_Decode c)
  && is_nil (bp_Marshal c)
  && is_ok (bp_Unmarshal c).

(** The same for the rename handler. *)
Definition rp_reaches_validation (c : BackupPostCall) : bool :=
  is_ok (rp_volumeName c) && is_ok (rp_poolName c) && is_ok (rp_volumeTypeName c)
  && is_ok (rp_backupName c)
  && is_custom (rp_VolumeTypeNameToDBType c)
  && is_ok (rp_StorageVolumeProject c)
  && is_nil (rp_forwardedIfTargetIsRemote c)
  && is_nil (rp_forwardedIfVolumeIsRemote c)
  && is_ok (rp_Decode c).


(** Two create requests and a rename request that ask for the name
    [a/b]: one for a volume whose type is not custom, the others passing
    every earlier step. *)
Definition create_ok (volumeType : Z) : BackupsPostCall :=
  {| bp_volumeName := Ok "vol"; bp_poolName := Ok "default";
     bp_volumeTypeName := Ok (if volumeType =? StoragePoolVolumeTypeCustom
                              then "custom" else "image");
     bp_VolumeTypeNameToDBType := Ok volumeType;
     bp_StorageVolumeProject := Ok "default";
     bp_AllowBackupCreation := None;
     bp_forwardedIfTargetIsRemote := None;
     bp_GetStoragePool := Ok 1;
     bp_forwardedIfVolumeIsRemote := None;
     bp_GetStoragePoolVolume := Ok 7;
     bp_Decode := None; bp_Marshal := None;
     bp_Unmarshal := Ok {| Name := "a/b"; ExpiresAt := 0; VolumeOnly := false;
                           OptimizedStorage := false; CompressionAlgorithm := "";
                           Target := None |};
     bp_GetStoragePoolVolumeBackupsNames := Ok [];
     bp_OperationCreate := None |}.

Definition rename_ok : BackupPostCall :=
  {| rp_volumeName := Ok "vol"; rp_poolName := Ok "default";
     rp_volumeTypeName := Ok "custom"; rp_backupName := Ok "backup0";
     rp_VolumeTypeNameToDBType := Ok StoragePoolVolumeTypeCustom;
     rp_StorageVolumeProject := Ok "default";
     rp_forwardedIfTargetIsRemote := None;
     rp_forwardedIfVolumeIsRemote := None;
     rp_Decode := Ok "a/b";
     rp_LoadByName := None;
     rp_OperationCreate := None |}.


End Backups.

(** ** Certificates ([cmd/incusd/certificates.go]) *)

Module Certificates.
Import Go.

(** [x509.PublicKeyAlgorithm] *)
Inductive PublicKeyAlgorithm : Type :=
| UnknownPublicKeyAlgorithm
| RSA
| DSA
| ECDSA
| Ed25519.

(** The dynamic type of [cert.PublicKey]: an RSA key with its modulus and
    exponent, or something else. *)
Inductive PublicKey : Type :=
| rsa_PublicKey (N : Z) (E : Z)
| ecdsa_PublicKey
| ed25519_PublicKey
| no_PublicKey.

(** [x509.Certificate], the fields [certificateValidate] reads; instants
    are nanoseconds on the wall clock. *)
Record Certificate : Type := {
  NotBefore : Z;
  NotAfter : Z;
  PublicKeyAlgorithm_of : PublicKeyAlgorithm;
  PublicKey_of : PublicKey
}.

(** [big.Int.BitLen]: the length of the absolute value in bits, 0 for 0. *)
Definition BitLen (n : Z) : Z :=
  if n =? 0 then 0 else Z.log2 (Z.abs n) + 1.

(** [rsa.PublicKey.Size]: the modulus size in bytes,
    [(pub.N.BitLen() + 7) / 8]. *)
Definition Size (N : Z) : Z := (BitLen N + 7) / 8.

Definition is_RSA (a : PublicKeyAlgorithm) : bool :=
  match a with RSA => true | _ => false end.

(** [certificateValidate], with the two readings of [time.Now()] it
    takes: [now1] for the [Before] test and [now2] for the [After] test.
    [None] is a nil error. *)
Definition certificateValidate (now1 now2 : Z) (cert : Certificate) : option error :=
  if now1 <? NotBefore cert then
    Some (errors_New "The provided certificate isn't valid yet")
  else if NotAfter cert <? now2 then
    Some (errors_New "The provided certificate is expired")
  else if is_RSA (PublicKeyAlgorithm_of cert) then
    match PublicKey_of cert with
    | rsa_PublicKey N _ =>
        if Size N * 8 <? 2048 then
          Some (errors_New "RSA key is too weak (minimum of 2048bit)")
        else None
    | _ => Some (errors_New "Unable to validate the RSA certificate")
    end
  else None.

(** The number of bits of a key, as the specification speaks of it: the
    bit length of the RSA modulus. *)
Definition rsa_key_bits (k : PublicKey) : option Z :=
  match k with
  | rsa_PublicKey N _ => Some (BitLen N)
  | _ => None
  end.

(** "The current time is before NotBefore, or after NotAfter, or the
    certificate uses RSA and its key cannot be read as an RSA key or has
    fewer than 2048 bits." *)
Definition claimed_invalid (now : Z) (cert : Certificate) : Prop :=
  now < NotBefore cert \/ NotAfter cert < now
  \/ (PublicKeyAlgorithm_of cert = RSA
      /\ match rsa_key_bits (PublicKey_of cert) with
         | None => True
         | Some bits => bits < 2048
         end).

(** A certificate valid from instant 0 to instant 1000 whose RSA modulus
    is [2 ^ 2046], a number of 2047 bits. *)
Definition cert_2047 : Certificate :=
  {| NotBefore := 0; NotAfter := 1000;
     PublicKeyAlgorithm_of := RSA;
     PublicKey_of := rsa_PublicKey (2 ^ 2046) 65537 |}.

End Certificates.

(** ** The instance contract
       ([internal/server/instance/instance_interface.go])

    The file only declares types.  The declarations are kept as data: a
    type expression for each field and each method signature, so that
    what a record carries and what a method takes can be computed. *)

Module InstanceInterface.

#[local] Unset Elimination Schemes.
Inductive GoType : Type :=
| TBool
| TString
| TInt
| TUint
| TError
| TAny
| TNamed (pkg name : string)
| TPointer (t : GoType)
| TSlice (t : GoType)
| TMap (k v : GoType)
| TChan (t : GoType)
| TFunc (params results : list GoType).
#[local] Set Elimination Schemes.

Record Method : Type := {
  m_name : string;
  m_params : list GoType;
  m_results : list GoType
}.

Record Interface : Type := {
  i_embedded : list string;
  i_methods : list Method
}.

Record Field : Type := {
  f_name : string;
  f_type : GoType
}.

Record Struct : Type := {
  s_embedded : list string;
  s_fields : list Field
}.

Definition ConfigReader : Interface :=
  {| i_embedded := [];
     i_methods := [
    {| m_name := "Project"; m_params := []; m_results := [TNamed "api" "Project"] |};
    {| m_name := "Type"; m_params := []; m_results := [TNamed "instancetype" "Type"] |};
    {| m_name := "Architecture"; m_params := []; m_results := [TInt] |};
    {| m_name := "ID"; m_params := []; m_results := [TInt] |};
    {| m_name := "Name"; m_params := []; m_results := [TString] |};
    {| m_name := "ExpandedConfig"; m_params := []; m_results := [TMap TString TString] |};
    {| m_name := "ExpandedDevices"; m_params := [];
       m_results := [TNamed "deviceConfig" "Devices"] |};
    {| m_name := "LocalConfig"; m_params := []; m_results := [TMap TString TString] |};
    {| m_name := "LocalDevices"; m_params := [];
       m_results := [TNamed "deviceConfig" "Devices"] |} ] |}.

Definition Instance : Interface :=
  {| i_embedded := ["ConfigReader"];
     i_methods := [
    {| m_name := "Freeze"; m_params := []; m_results := [TError] |};
    {| m_name := "Shutdown"; m_params := [TNamed "time" "Duration"]; m_results := [TError] |};
    {| m_name := "Start"; m_params := [TBool]; m_results := [TError] |};
    {| m_name := "Stop"; m_params := [TBool]; m_results := [TError] |};
    {| m_name := "Restart"; m_params := [TNamed "time" "Duration"]; m_results := [TError] |};
    {| m_name := "Rebuild"; m_params := [TPointer (TNamed "api" "Image");
         TPointer (TNamed "operations" "Operation")];
       m_results := [TError] |};
    {| m_name := "Unfreeze"; m_params := []; m_results := [TError] |};
    {| m_name := "ReloadDevice"; m_params := [TString]; m_results := [TError] |};
    {| m_name := "RegisterDevices"; m_params := []; m_results := [] |};
    {| m_name := "Info"; m_params := []; m_results := [TNamed "" "Info"] |};
    {| m_name := "IsPrivileged"; m_params := []; m_results := [TBool] |};
    {| m_name := "Restore"; m_params := [TNamed "" "Instance"; TBool]; m_results := [TError] |};
    {| m_name := "Snapshot"; m_params := [TString; TNamed "time" "Time"; TBool];
       m_results := [TError] |};
    {| m_name := "Snapshots"; m_params := [];
       m_results := [TSlice (TNamed "" "Instance"); TError] |};
    {| m_name := "Backups"; m_params := [];
       m_results := [TSlice (TNamed "backup" "InstanceBackup"); TError] |};
    {| m_name := "UpdateBackupFile"; m_params := []; m_results := [TError] |};
    {| m_name := "Rename"; m_params := [TString; TBool]; m_results := [TError] |};
    {| m_name := "Update"; m_params := [TNamed "db" "InstanceArgs"; TBool];
       m_results := [TError] |};
    {| m_name := "Delete"; m_params := [TBool]; m_results := [TError] |};
    {| m_name := "Export";
       m_params := [TNamed "io" "Writer"; TNamed "io" "Writer"; TMap TString TString;
         TNamed "time" "Time";
         TPointer (TNamed "ioprogress" "ProgressTracker")];
       m_results := [TPointer (TNamed "api" "ImageMetadata"); TError] |};
    {| m_name := "CGroup"; m_params := [];
       m_results := [TPointer (TNamed "cgroup" "CGroup"); TError] |};
    {| m_name := "VolatileSet"; m_params := [TMap TString TString]; m_results := [TError] |};
    {| m_name := "FileSFTPConn"; m_params := []; m_results := [TNamed "net" "Conn"; TError] |};
    {| m_name := "FileSFTP"; m_params := [];
       m_results := [TPointer (TNamed "sftp" "Client"); TError] |};
    {| m_name := "Console"; m_params := [TString];
       m_results := [TPointer (TNamed "os" "File"); TChan TError; TError] |};
    {| m_name := "Exec"; m_params := [TNamed "api" "InstanceExecPost";
         TPointer (TNamed "os" "File"); TPointer (TNamed "os" "File");
         TPointer (TNamed "os" "File")];
       m_results := [TNamed "" "Cmd"; TError] |};
    {| m_name := "Render"; m_params := []; m_results := [TAny; TAny; TError] |};
    {| m_name := "RenderWithUsage"; m_params := []; m_results := [TAny; TAny; TError] |};
    {| m_name := "RenderFull"; m_params := [TSlice (TNamed "net" "Interface")];
       m_results := [TPointer (TNamed "api" "InstanceFull"); TAny; TError] |};
    {| m_name := "RenderState"; m_params := [TSlice (TNamed "net" "Interface")];
       m_results := [TPointer (TNamed "api" "InstanceState"); TError] |};
    {| m_name := "IsRunning"; m_params := []; m_results := [TBool] |};
    {| m_name := "IsFrozen"; m_params := []; m_results := [TBool] |};
    {| m_name := "IsEphemeral"; m_params := []; m_results := [TBool] |};
    {| m_name := "IsSnapshot"; m_params := []; m_results := [TBool] |};
    {| m_name := "IsStateful"; m_params := []; m_results := [TBool] |};
    {| m_name := "LockExclusive"; m_params := [];
       m_results := [TPointer (TNamed "operationlock" "InstanceOperation"); TError] |};
    {| m_name := "DeviceEventHandler"; m_params := [TPointer (TNamed "deviceConfig" "RunConfig")];
       m_results := [TError] |};
    {| m_name := "OnHook"; m_params := [TString; TMap TString TString]; m_results := [TError] |};
    {| m_name := "Location"; m_params := []; m_results := [TString] |};
    {| m_name := "CloudInitID"; m_params := []; m_results := [TString] |};
    {| m_name := "Description"; m_params := []; m_results := [TString] |};
    {| m_name := "CreationDate"; m_params := []; m_results := [TNamed "time" "Time"] |};
    {| m_name := "LastUsedDate"; m_params := []; m_results := [TNamed "time" "Time"] |};
    {| m_name := "Profiles"; m_params := []; m_results := [TSlice (TNamed "api" "Profile")] |};
    {| m_name := "InitPID"; m_params := []; m_results := [TInt] |};
    {| m_name := "State"; m_params := []; m_results := [TString] |};
    {| m_name := "ExpiryDate"; m_params := []; m_results := [TNamed "time" "Time"] |};
    {| m_name := "FillNetworkDevice"; m_params := [TString; TNamed "deviceConfig" "Device"];
       m_results := [TNamed "deviceConfig" "Device"; TError] |};
    {| m_name := "ETag"; m_params := []; m_results := [TSlice TAny] |};
    {| m_name := "Path"; m_params := []; m_results := [TString] |};
    {| m_name := "ExecOutputPath"; m_params := []; m_results := [TString] |};
    {| m_name := "RootfsPath"; m_params := []; m_results := [TString] |};
    {| m_name := "TemplatesPath"; m_params := []; m_results := [TString] |};
    {| m_name := "StatePath"; m_params := []; m_results := [TString] |};
    {| m_name := "LogFilePath"; m_params := []; m_results := [TString] |};
    {| m_name := "ConsoleBufferLogPath"; m_params := []; m_results := [TString] |};
    {| m_name := "LogPath"; m_params := []; m_results := [TString] |};
    {| m_name := "RunPath"; m_params := []; m_results := [TString] |};
    {| m_name := "DevicesPath"; m_params := []; m_results := [TString] |};
    {| m_name := "StoragePool"; m_params := []; m_results := [TString; TError] |};
    {| m_name := "CanMigrate"; m_params := []; m_results := [TString] |};
    {| m_name := "MigrateSend"; m_params := [TNamed "" "MigrateSendArgs"]; m_results := [TError] |};
    {| m_name := "MigrateReceive"; m_params := [TNamed "" "MigrateReceiveArgs"];
       m_results := [TError] |};
    {| m_name := "SetOperation"; m_params := [TPointer (TNamed "operations" "Operation")];
       m_results := [] |};
    {| m_name := "Operation"; m_params := [];
       m_results := [TPointer (TNamed "operations" "Operation")] |};
    {| m_name := "DeferTemplateApply"; m_params := [TNamed "" "TemplateTrigger"];
       m_results := [TError] |};
    {| m_name := "Metrics"; m_params := [TSlice (TNamed "net" "Interface")];
       m_results := [TPointer (TNamed "metrics" "MetricSet"); TError] |} ] |}.

Definition Container : Interface :=
  {| i_embedded := ["Instance"];
     i_methods := [
    {| m_name := "CurrentIdmap"; m_params := [];
       m_results := [TPointer (TNamed "idmap" "Set"); TError] |};
    {| m_name := "DiskIdmap"; m_params := [];
       m_results := [TPointer (TNamed "idmap" "Set"); TError] |};
    {| m_name := "NextIdmap"; m_params := [];
       m_results := [TPointer (TNamed "idmap" "Set"); TError] |};
    {| m_name := "ConsoleLog"; m_params := [TNamed "liblxc" "ConsoleLogOptions"];
       m_results := [TString; TError] |};
    {| m_name := "InsertSeccompUnixDevice";
       m_params := [TString; TNamed "deviceConfig" "Device"; TInt];
       m_results := [TError] |};
    {| m_name := "DevptsFd"; m_params := [];
       m_results := [TPointer (TNamed "os" "File"); TError] |};
    {| m_name := "IdmappedStorage"; m_params := [TString; TString];
       m_results := [TNamed "idmap" "StorageType"] |} ] |}.

Definition VM : Interface :=
  {| i_embedded := ["Instance"];
     i_methods := [
    {| m_name := "AgentCertificate"; m_params := [];
       m_results := [TPointer (TNamed "x509" "Certificate")] |};
    {| m_name := "ConsoleLog"; m_params := []; m_results := [TString; TError] |};
    {| m_name := "ConsoleScreenshot"; m_params := [TPointer (TNamed "os" "File")];
       m_results := [TError] |};
    {| m_name := "DumpGuestMemory"; m_params := [TPointer (TNamed "os" "File"); TString];
       m_results := [TError] |} ] |}.

Definition CriuMigrationArgs : Struct :=
  {| s_embedded := [];
     s_fields := [
    {| f_name := "Cmd"; f_type := TUint |};
    {| f_name := "StateDir"; f_type := TString |};
    {| f_name := "Function"; f_type := TString |};
    {| f_name := "Stop"; f_type := TBool |};
    {| f_name := "ActionScript"; f_type := TBool |};
    {| f_name := "DumpDir"; f_type := TString |};
    {| f_name := "PreDumpDir"; f_type := TString |};
    {| f_name := "Features"; f_type := TNamed "liblxc" "CriuFeatures" |};
    {| f_name := "Op"; f_type := TPointer (TNamed "operationlock" "InstanceOperation") |} ] |}.

Definition Info : Struct :=
  {| s_embedded := [];
     s_fields := [
    {| f_name := "Name"; f_type := TString |};
    {| f_name := "Version"; f_type := TString |};
    {| f_name := "Error"; f_type := TError |};
    {| f_name := "Type"; f_type := TNamed "instancetype" "Type" |};
    {| f_name := "Features"; f_type := TMap TString TAny |} ] |}.

Definition MigrateArgs : Struct :=
  {| s_embedded := [];
     s_fields := [
    {| f_name := "ControlSend"; f_type := TFunc [TNamed "proto" "Message"] [TError] |};
    {| f_name := "ControlReceive"; f_type := TFunc [TNamed "proto" "Message"] [TError] |};
    {| f_name := "StateConn";
       f_type := TFunc [TNamed "context" "Context"] [TNamed "io" "ReadWriteCloser"; TError] |};
    {| f_name := "FilesystemConn";
       f_type := TFunc [TNamed "context" "Context"] [TNamed "io" "ReadWriteCloser"; TError] |};
    {| f_name := "Snapshots"; f_type := TBool |};
    {| f_name := "Live"; f_type := TBool |};
    {| f_name := "Disconnect"; f_type := TFunc [] [] |};
    {| f_name := "ClusterMoveSourceName"; f_type := TString |};
    {| f_name := "StoragePool"; f_type := TString |} ] |}.

Definition MigrateSendArgs : Struct :=
  {| s_embedded := ["MigrateArgs"];
     s_fields := [
    {| f_name := "AllowInconsistent"; f_type := TBool |} ] |}.

Definition MigrateReceiveArgs : Struct :=
  {| s_embedded := ["MigrateArgs"];
     s_fields := [
    {| f_name := "InstanceOperation";
       f_type := TPointer (TNamed "operationlock" "InstanceOperation") |};
    {| f_name := "Refresh"; f_type := TBool |};
    {| f_name := "RefreshExcludeOlder"; f_type := TBool |} ] |}.


(** The struct and interface declarations of the file, by name. *)
Definition structs : list (string * Struct) :=
  [("CriuMigrationArgs", CriuMigrationArgs); ("Info", Info);
   ("MigrateArgs", MigrateArgs); ("MigrateSendArgs", MigrateSendArgs);
   ("MigrateReceiveArgs", MigrateReceiveArgs)].

Definition interfaces : list (string * Interface) :=
  [("ConfigReader", ConfigReader); ("Instance", Instance);
   ("Container", Container); ("VM", VM)].

Fixpoint assoc {A : Type} (k : string) (l : list (string * A)) : option A :=
  match l with
  | [] => None
  | (k', v) :: l' => if String.eqb k k' then Some v else assoc k l'
  end.

(** The fields of a struct with those promoted from the structs it
    embeds, embedded ones first. *)
Fixpoint all_fields (depth : nat) (s : Struct) : list Field :=
  match depth with
  | O => s_fields s
  | S d =>
      concat (map (fun e => match assoc e structs with
                            | Some s' => all_fields d s'
                            | None => []
                            end) (s_embedded s))
      ++ s_fields s
  end.

(** The method set of an interface, embedded interfaces first. *)
Fixpoint all_methods (depth : nat) (i : Interface) : list Method :=
  match depth with
  | O => i_methods i
  | S d =>
      concat (map (fun e => match assoc e interfaces with
                            | Some i' => all_methods d i'
                            | None => []
                            end) (i_embedded i))
      ++ i_methods i
  end.

Definition field_type (fs : list Field) (name : string) : option GoType :=
  assoc name (map (fun f => (f_name f, f_type f)) fs).

Definition method (ms : list Method) (name : string) : option Method :=
  assoc name (map (fun m => (m_name m, m)) ms).

Definition is_Context (t : GoType) : bool :=
  match t with
  | TNamed pkg name => String.eqb pkg "context" && String.eqb name "Context"
  | _ => false
  end.

(** A function type one of whose parameters is a [context.Context]. *)
Definition takes_context (t : GoType) : bool :=
  match t with
  | TFunc params _ => existsb is_Context params
  | _ => false
  end.

Definition is_TBool (t : GoType) : bool :=
  match t with TBool => true | _ => false end.

(** *** The specification's reading of these declarations *)

(** The three channels of a migration session and the fields of
    [MigrateArgs] through which the caller supplies each. *)
Inductive Channel : Type := Control | State | Filesystem.

Definition channel_fields (ch : Channel) : list string :=
  match ch with
  | Control => ["ControlSend"; "ControlReceive"]
  | State => ["StateConn"]
  | Filesystem => ["FilesystemConn"]
  end.

(** What a piece of per-session configuration is about. *)
Inductive Component : Type :=
| InstanceIdentity
| StoragePoolReference
| SnapshotsIncluded
| LiveTransfer
| InconsistentCopyAcceptable
| ClusterMoveSource
| ChannelOf (ch : Channel)
| DisconnectCallback.

(** "Instance identity, a storage pool reference, a flag for whether
    snapshots are included, a flag for whether the transfer must be live,
    a flag for whether an inconsistent copy is acceptable, an optional
    cluster-move source name, and the factory functions that establish
    the three channels." *)
Definition descriptor_components : list Component :=
  [InstanceIdentity; StoragePoolReference; SnapshotsIncluded; LiveTransfer;
   InconsistentCopyAcceptable; ClusterMoveSource;
   ChannelOf Control; ChannelOf State; ChannelOf Filesystem].

(** What each field of the send arguments is about. *)
Definition component_of (field : string) : option Component :=
  assoc field
    [("ControlSend", ChannelOf Control); ("ControlReceive", ChannelOf Control);
     ("StateConn", ChannelOf State); ("FilesystemConn", ChannelOf Filesystem);
     ("Snapshots", SnapshotsIncluded); ("Live", LiveTransfer);
     ("Disconnect", DisconnectCallback);
     ("ClusterMoveSourceName", ClusterMoveSource);
     ("StoragePool", StoragePoolReference);
     ("AllowInconsistent", InconsistentCopyAcceptable)].

Definition carried_components (fs : list Field) : list (option Component) :=
  map (fun f => component_of (f_name f)) fs.

(** "Dump takes a process handle, a state directory, a pre-dump directory
    and a boolean iterative flag": the arguments by name, with the type
    the sentence gives where it gives one. *)
Definition dump_arguments : list (string * option GoType) :=
  [("processHandle", None); ("stateDir", Some TString);
   ("preDumpDir", Some TString); ("iterative", Some TBool)].

End InstanceInterface.

(** ** The operation lock

    Modelled from the spec: package [operationlock] of this repository is
    not among the sources at hand (only [Instance.LockExclusive], which
    returns one of its locks, is declared).  The registry below follows
    sections 3 and 4.1 of the specification: a lock has an action kind, a
    state and a terminal error; the registry is keyed by instance
    identifier; callers hold handles to locks.  The fields that play no
    part in the transitions (owning task, creation time, completion
    signal) are left out. *)

Module OperationLock.
Import Go.

Inductive State : Type := Pending | Running | Succeeded | Failed.

Inductive LockError : Type :=
| LockConflict
| Aborted
| SessionError (e : error).

Record InstanceOperationLock : Type := {
  lock_instance : string;
  lock_action : string;
  lock_state : State;
  lock_error : option LockError
}.

Definition terminal (st : State) : bool :=
  match st with
  | Succeeded | Failed => true
  | Pending | Running => false
  end.

(** The locks that exist, by handle; the registry entry of each instance;
    the next handle to hand out. *)
Record Registry : Type := {
  locks : gmap nat InstanceOperationLock;
  current : gmap string nat;
  next_handle : nat
}.

Definition empty_registry : Registry :=
  {| locks := ∅; current := ∅; next_handle := 0%nat |}.

Inductive AcquireResult : Type :=
| Granted (h : nat)
| AwaitExisting (h : nat)
| Refused (e : LockError).

(** A new lock in state [Pending] becomes the entry of the instance. *)
Definition fresh_lock (reg : Registry) (instanceID action : string)
  : Registry * AcquireResult :=
  let h := next_handle reg in
  ({| locks := <[h := {| lock_instance := instanceID; lock_action := action;
                         lock_state := Pending; lock_error := None |}]> (locks reg);
      current := <[instanceID := h]> (current reg);
      next_handle := S h |},
   Granted h).

(** [Acquire(instanceID, action)]: the entry of the instance is reused
    only once terminal; otherwise the same action kind gets the existing
    handle and a different one [LockConflict]. *)
Definition Acquire (reg : Registry) (instanceID action : string)
  : Registry * AcquireResult :=
  match current reg !! instanceID with
  | None => fresh_lock reg instanceID action
  | Some h =>
      match locks reg !! h with
      | None => fresh_lock reg instanceID action
      | Some l =>
          if terminal (lock_state l) then fresh_lock reg instanceID action
          else if String.eqb (lock_action l) action then (reg, AwaitExisting h)
               else (reg, Refused LockConflict)
      end
  end.

Definition set_state (reg : Registry) (h : nat) (l : InstanceOperationLock)
    (st : State) (e : option LockError) : Registry :=
  {| locks := <[h := {| lock_instance := lock_instance l; lock_action := lock_action l;
                        lock_state := st; lock_error := e |}]> (locks reg);
     current := current reg;
     next_handle := next_handle reg |}.

(** [MarkRunning()]: Pending to Running; [None] is the fatal error of a
    lock that is not Pending. *)
Definition MarkRunning (reg : Registry) (h : nat) : option Registry :=
  match locks reg !! h with
  | Some l =>
      match lock_state l with
      | Pending => Some (set_state reg h l Running None)
      | _ => None
      end
  | None => None
  end.

(** [Done(err)]: Running to Succeeded or Failed; nothing happens on a
    lock that is already terminal.  The specification gives no transition
    from Pending, and none is taken. *)
Definition Done (reg : Registry) (h : nat) (err : option error) : Registry :=
  match locks reg !! h with
  | Some l =>
      match lock_state l with
      | Running =>
          match err with
          | None => set_state reg h l Succeeded None
          | Some e => set_state reg h l Failed (Some (SessionError e))
          end
      | _ => reg
      end
  | None => reg
  end.

(** [Reset()]: a lock that is not terminal is failed with [Aborted]. *)
Definition Reset (reg : Registry) (h : nat) : Registry :=
  match locks reg !! h with
  | Some l =>
      if terminal (lock_state l) then reg
      else set_state reg h l Failed (Some Aborted)
  | None => reg
  end.

(** Removal of a terminal lock from the registry. *)
Definition Prune (reg : Registry) (h : nat) : Registry :=
  match locks reg !! h with
  | Some l =>
      if terminal (lock_state l) then
        {| locks := delete h (locks reg);
           current := if bool_decide (current reg !! lock_instance l = Some h)
                      then delete (lock_instance l) (current reg)
                      else current reg;
           next_handle := next_handle reg |}
      else reg
  | None => reg
  end.

(** The calls made on a registry over time. *)
Inductive Call : Type :=
| CallAcquire (instanceID action : string)
| CallMarkRunning (h : nat)
| CallDone (h : nat) (err : option error)
| CallReset (h : nat)
| CallPrune (h : nat).

Definition call (reg : Registry) (c : Call) : Registry :=
  match c with
  | CallAcquire i a => fst (Acquire reg i a)
  | CallMarkRunning h => default reg (MarkRunning reg h)
  | CallDone h err => Done reg h err
  | CallReset h => Reset reg h
  | CallPrune h => Prune reg h
  end.

Definition after (calls : list Call) : Registry :=
  fold_left call calls empty_registry.

(** What every reachable registry satisfies. *)
Record consistent (reg : Registry) : Prop := {
  live_is_current :
    forall h l, locks reg !! h = Some l -> terminal (lock_state l) = false ->
                current reg !! lock_instance l = Some h;
  locks_below_next :
    forall h l, locks reg !! h = Some l -> (h < next_handle reg)%nat;
  current_instance :
    forall i h l, current reg !! i = Some h -> locks reg !! h = Some l ->
                  lock_instance l = i;
  current_below_next :
    forall i h, current reg !! i = Some h -> (h < next_handle reg)%nat
}.

End OperationLock.

(** ** Moves within a cluster

    Modelled from the spec: the coordinator of a cluster move and the two
    migration sessions it drives are not among the sources at hand (only
    the declarations of the arguments of a migration are).  The model
    follows sections 4.4, 4.5, 5, 6 and 7 of the specification.  The send
    session, the receive session and the coordinator are three programs
    that take their steps in any order; the sessions share the two
    directions of the control stream and the filesystem stream; the
    destination can crash, the link can break, and either session can fail
    or run out of time at any point.  The operation locks of the sessions
    are not modelled: a session that is complete or failed has released its
    lock as Succeeded or Failed.  Where the specification does not say
    what a session does with a frame that the protocol does not allow at
    that point, the session fails as it does on [ABORT]. *)

Module ClusterMove.

(** The frames of the control stream (section 6). *)
Inductive Frame : Type := HEADER | SYNC | COMPLETE | ACK | ABORT.

(** The phases of a session (section 3, TransferState). *)
Inductive Phase : Type := Handshake | Streaming | Finalizing | Complete | Failed.

(** The process of the instance on a host. *)
Inductive Process : Type := Stopped | Executing | Frozen.

(** What the move as a whole reports. *)
Inductive Outcome : Type := MoveSucceeded | MoveFailed.

(** The part of the descriptor the sessions branch on, and the number of
    filesystem chunks to stream. *)
Record Descriptor : Type := {
  live : bool;
  allow_inconsistent : bool;
  chunks : nat
}.

(** The source host: the phase of the send session, whether the
    authoritative identity record exists, the process of the instance, and
    the chunks still to send. *)
Record Source : Type := {
  src_phase : Phase;
  src_record : bool;
  src_process : Process;
  src_chunks_left : nat
}.

(** The destination host: whether the daemon is up, the phase of the
    receive session, the chunks written to the pool, whether the state was
    restored, and the activated instance (running, or stopped but
    present). *)
Record Destination : Type := {
  dst_alive : bool;
  dst_phase : Phase;
  dst_chunks : nat;
  dst_restored : bool;
  dst_instance : option Process
}.

(** The streams between the hosts: the control frames under way in each
    direction, the filesystem chunks under way, and whether each host still
    holds its end. *)
Record Streams : Type := {
  to_dst : list Frame;
  to_src : list Frame;
  fs_in_flight : nat;
  src_open : bool;
  dst_open : bool
}.

(** What the hosts do to the instance and say to each other about it. *)
Inductive Event : Type :=
| Activated
| AckSent
| AckReceived
| SourceFrozen
| SourceResumed
| SourceStopped
| RecordDeleted.

(** The two hosts, the streams, what the coordinator has reported, and
    the events so far, the latest first. *)
Record World : Type := {
  source : Source;
  destination : Destination;
  streams : Streams;
  outcome : option Outcome;
  history : list Event
}.

(** A session is live on a running instance and cold on a stopped one. *)
Definition start_process (d : Descriptor) : Process :=
  if live d then Executing else Stopped.

Definition initial (d : Descriptor) : World :=
  {| source := {| src_phase := Handshake; src_record := true;
                  src_process := start_process d; src_chunks_left := chunks d |};
     destination := {| dst_alive := true; dst_phase := Handshake; dst_chunks := 0%nat;
                       dst_restored := false; dst_instance := None |};
     streams := {| to_dst := [HEADER]; to_src := []; fs_in_flight := 0%nat;
                   src_open := true; dst_open := true |};
     outcome := None;
     history := [] |}.

(** Reading the control stream: the next frame, or the end of a stream
    whose other end was closed, or nothing yet. *)
Inductive Read : Type :=
| Got (f : Frame) (rest : list Frame)
| Closed
| Blocked.

Definition read (queue : list Frame) (peer_open : bool) : Read :=
  match queue with
  | f :: rest => Got f rest
  | [] => if peer_open then Blocked else Closed
  end.

Definition ended (p : Phase) : bool :=
  match p with Complete | Failed => true | _ => false end.

(** *** The send session (section 4.4, Send) *)

Definition src_in (s : Source) (p : Phase) : Source :=
  {| src_phase := p; src_record := src_record s; src_process := src_process s;
     src_chunks_left := src_chunks_left s |}.

Definition src_took (n : Streams) (rest : list Frame) : Streams :=
  {| to_dst := to_dst n; to_src := rest; fs_in_flight := fs_in_flight n;
     src_open := src_open n; dst_open := dst_open n |}.

(** Step 7 and section 7: the session fails; the destination is told, if
    it can be reached, the streams are closed, and a source that was frozen
    is resumed. *)
Definition fail_source (s : Source) (n : Streams) : Source * Streams * list Event :=
  ({| src_phase := Failed; src_record := src_record s;
      src_process := match src_process s with Frozen => Executing | p => p end;
      src_chunks_left := src_chunks_left s |},
   {| to_dst := if src_open n && dst_open n then to_dst n ++ [ABORT] else to_dst n;
      to_src := to_src n; fs_in_flight := fs_in_flight n;
      src_open := false; dst_open := dst_open n |},
   match src_process s with Frozen => [SourceResumed] | _ => [] end).

(** Step 5: the source is frozen by the final dump, unless the transfer
    is cold or an inconsistent copy is accepted; the final delta and
    [COMPLETE] are sent, and the session waits for the acknowledgement. *)
Definition finalize (d : Descriptor) (s : Source) (n : Streams)
  : Source * Streams * list Event :=
  let freeze := live d && negb (allow_inconsistent d) in
  ({| src_phase := Finalizing; src_record := src_record s;
      src_process := if freeze then Frozen else src_process s;
      src_chunks_left := 0%nat |},
   {| to_dst := to_dst n ++ [COMPLETE]; to_src := to_src n;
      fs_in_flight := S (fs_in_flight n);
      src_open := src_open n; dst_open := dst_open n |},
   if freeze then [SourceFrozen] else []).

(** One step of the send session.  After the handshake it streams the
    chunks, each followed by a [SYNC] barrier on the control stream, then
    finalizes; on the acknowledgement it is complete, and what follows is
    the coordinator's (step 6).  The iterative dumps of a live transfer
    leave the source running and change nothing here. *)
Definition source_step (d : Descriptor) (s : Source) (n : Streams)
  : Source * Streams * list Event :=
  match src_phase s with
  | Handshake =>
      match read (to_src n) (dst_open n) with
      | Got HEADER rest => (src_in s Streaming, src_took n rest, [])
      | Got _ _ | Closed => fail_source s n
      | Blocked => (s, n, [])
      end
  | Streaming =>
      match read (to_src n) (dst_open n) with
      | Got SYNC rest => (s, src_took n rest, [])
      | Got _ _ | Closed => fail_source s n
      | Blocked =>
          match src_chunks_left s with
          | S k =>
              ({| src_phase := Streaming; src_record := src_record s;
                  src_process := src_process s; src_chunks_left := k |},
               {| to_dst := to_dst n ++ [SYNC]; to_src := to_src n;
                  fs_in_flight := S (fs_in_flight n);
                  src_open := src_open n; dst_open := dst_open n |},
               [])
          | O => finalize d s n
          end
      end
  | Finalizing =>
      match read (to_src n) (dst_open n) with
      | Got ACK rest => (src_in s Complete, src_took n rest, [AckReceived])
      | Got SYNC rest => (s, src_took n rest, [])
      | Got _ _ | Closed => fail_source s n
      | Blocked => (s, n, [])
      end
  | Complete | Failed => (s, n, [])
  end.

(** *** The receive session (section 4.4, Receive) *)

Definition dst_in (t : Destination) (p : Phase) : Destination :=
  {| dst_alive := dst_alive t; dst_phase := p; dst_chunks := dst_chunks t;
     dst_restored := dst_restored t; dst_instance := dst_instance t |}.

Definition dst_took (n : Streams) (rest : list Frame) : Streams :=
  {| to_dst := rest; to_src := to_src n; fs_in_flight := fs_in_flight n;
     src_open := src_open n; dst_open := dst_open n |}.

Definition dst_sent (n : Streams) (f : Frame) : Streams :=
  {| to_dst := to_dst n; to_src := to_src n ++ [f]; fs_in_flight := fs_in_flight n;
     src_open := src_open n; dst_open := dst_open n |}.

(** Section 7: the destination discards what it has written and never
    starts, or keeps, an instance from a session that failed. *)
Definition fail_destination (t : Destination) (n : Streams)
  : Destination * Streams * list Event :=
  ({| dst_alive := dst_alive t; dst_phase := Failed; dst_chunks := 0%nat;
      dst_restored := false; dst_instance := None |},
   {| to_dst := to_dst n;
      to_src := if src_open n && dst_open n then to_src n ++ [ABORT] else to_src n;
      fs_in_flight := fs_in_flight n; src_open := src_open n; dst_open := false |},
   []).

(** The end of the receive session, one action a step: the state is
    restored when the transfer is live, then the instance is started, or
    left stopped but present, then the acknowledgement is sent. *)
Definition activate (d : Descriptor) (t : Destination) (n : Streams)
  : Destination * Streams * list Event :=
  if live d && negb (dst_restored t) then
    ({| dst_alive := dst_alive t; dst_phase := dst_phase t; dst_chunks := dst_chunks t;
        dst_restored := true; dst_instance := dst_instance t |}, n, [])
  else
    match dst_instance t with
    | None =>
        ({| dst_alive := dst_alive t; dst_phase := dst_phase t;
            dst_chunks := dst_chunks t; dst_restored := dst_restored t;
            dst_instance := Some (start_process d) |}, n, [Activated])
    | Some _ => (dst_in t Complete, dst_sent n ACK, [AckSent])
    end.

(** One step of the receive session.  [ABORT] ends it at once; the
    chunks under way are written before the control stream is read, so that
    the filesystem is whole when [COMPLETE] is read and the session
    finalizes; a [SYNC] barrier is acknowledged by a [SYNC]. *)
Definition destination_step (d : Descriptor) (t : Destination) (n : Streams)
  : Destination * Streams * list Event :=
  if negb (dst_alive t) then (t, n, [])
  else
    match dst_phase t with
    | Handshake =>
        match read (to_dst n) (src_open n) with
        | Got HEADER rest => (dst_in t Streaming, dst_sent (dst_took n rest) HEADER, [])
        | Got _ _ | Closed => fail_destination t n
        | Blocked => (t, n, [])
        end
    | Streaming =>
        match read (to_dst n) (src_open n) with
        | Got ABORT _ => fail_destination t n
        | r =>
            match fs_in_flight n with
            | S k =>
                ({| dst_alive := dst_alive t; dst_phase := Streaming;
                    dst_chunks := S (dst_chunks t); dst_restored := dst_restored t;
                    dst_instance := dst_instance t |},
                 {| to_dst := to_dst n; to_src := to_src n; fs_in_flight := k;
                    src_open := src_open n; dst_open := dst_open n |},
                 [])
            | O =>
                match r with
                | Got COMPLETE rest => (dst_in t Finalizing, dst_took n rest, [])
                | Got SYNC rest => (t, dst_sent (dst_took n rest) SYNC, [])
                | Got _ _ | Closed => fail_destination t n
                | Blocked => (t, n, [])
                end
            end
        end
    | Finalizing =>
        match read (to_dst n) (src_open n) with
        | Got _ _ | Closed => fail_destination t n
        | Blocked => activate d t n
        end
    | Complete | Failed => (t, n, [])
    end.

(** *** The coordinator (section 4.5) *)

(** Once the send session is complete, that is, has the acknowledgement,
    the coordinator stops the source and, as its last action, deletes the
    identity record; when the send session failed it reports the failure
    and touches nothing; while the sessions run it waits. *)
Definition coordinator_step (w : World) : World :=
  match outcome w with
  | Some _ => w
  | None =>
      match src_phase (source w) with
      | Complete =>
          {| source := {| src_phase := Complete; src_record := false;
                          src_process := Stopped;
                          src_chunks_left := src_chunks_left (source w) |};
             destination := destination w; streams := streams w;
             outcome := Some MoveSucceeded;
             history := RecordDeleted :: SourceStopped :: history w |}
      | Failed =>
          {| source := source w; destination := destination w; streams := streams w;
             outcome := Some MoveFailed; history := history w |}
      | _ => w
      end
  end.

(** *** The move *)

(** Who takes the next step, or what goes wrong next: a fault of a
    session is a failed dump, restore or chunk, a wait that ran out, or an
    abort asked for on that host. *)
Inductive Choice : Type :=
| SourceRuns
| DestinationRuns
| CoordinatorRuns
| SourceFault
| DestinationFault
| DestinationCrash
| Disconnect.

Definition source_did (w : World) (r : Source * Streams * list Event) : World :=
  let '(s, n, es) := r in
  {| source := s; destination := destination w; streams := n;
     outcome := outcome w; history := es ++ history w |}.

Definition destination_did (w : World) (r : Destination * Streams * list Event) : World :=
  let '(t, n, es) := r in
  {| source := source w; destination := t; streams := n;
     outcome := outcome w; history := es ++ history w |}.

Definition step (d : Descriptor) (w : World) (c : Choice) : World :=
  match c with
  | SourceRuns => source_did w (source_step d (source w) (streams w))
  | DestinationRuns => destination_did w (destination_step d (destination w) (streams w))
  | CoordinatorRuns => coordinator_step w
  | SourceFault =>
      if ended (src_phase (source w)) then w
      else source_did w (fail_source (source w) (streams w))
  | DestinationFault =>
      if negb (dst_alive (destination w)) || ended (dst_phase (destination w)) then w
      else destination_did w (fail_destination (destination w) (streams w))
  | DestinationCrash =>
      {| source := source w;
         destination := {| dst_alive := false;
                           dst_phase := dst_phase (destination w);
                           dst_chunks := dst_chunks (destination w);
                           dst_restored := dst_restored (destination w);
                           dst_instance := dst_instance (destination w) |};
         streams := {| to_dst := to_dst (streams w); to_src := to_src (streams w);
                       fs_in_flight := fs_in_flight (streams w);
                       src_open := src_open (streams w); dst_open := false |};
         outcome := outcome w; history := history w |}
  | Disconnect =>
      {| source := source w; destination := destination w;
         streams := {| to_dst := []; to_src := []; fs_in_flight := 0%nat;
                       src_open := false; dst_open := false |};
         outcome := outcome w; history := history w |}
  end.

(** The world after the choices of a schedule, from the start of the
    move. *)
Definition run (d : Descriptor) (schedule : list Choice) : World :=
  fold_left (step d) schedule (initial d).






End ClusterMove.

(** ** The other handlers of custom volume backups
       ([cmd/incusd/storage_volumes_backup.go])

    The handlers that read, delete, export and list backups.  A handler
    either returns early with one of the responses above, or goes through
    to its own answer; [step A] holds the two cases. *)

Module BackupHandlers.
Import Go Backups.

(** [version.APIVersion], as in the routes the file documents
    ([/1.0/storage-pools/...]). *)
Definition APIVersion : string := "1.0".

(** A URL built by [api.NewURL().Path(...)]: the path components handed
    to [Path], before escaping. *)
Definition URL : Type := list string.

(** Calls made by the handlers of one backup
    ([storagePoolVolumeTypeCustomBackupGet], [...Delete] and
    [...ExportGet]), in order; [E] is what
    [storagePoolVolumeBackupLoadByName] loads, as a function of the
    project, the pool and the full name it is asked for. *)
Record BackupCall (E : Type) : Type := {
  bc_volumeName : result string;
  bc_poolName : result string;
  bc_volumeTypeName : result string;
  bc_backupName : result string;
  bc_VolumeTypeNameToDBType : result Z;
  bc_StorageVolumeProject : result string;
  bc_forwardedIfTargetIsRemote : option string;
  bc_forwardedIfVolumeIsRemote : option string;
  bc_LoadByName : string -> string -> string -> result E;
  bc_OperationCreate : option error
}.
Arguments bc_volumeName {E} _.
Arguments bc_poolName {E} _.
Arguments bc_volumeTypeName {E} _.
Arguments bc_backupName {E} _.
Arguments bc_VolumeTypeNameToDBType {E} _.
Arguments bc_StorageVolumeProject {E} _.
Arguments bc_forwardedIfTargetIsRemote {E} _.
Arguments bc_forwardedIfVolumeIsRemote {E} _.
Arguments bc_LoadByName {E} _ _ _ _.
Arguments bc_OperationCreate {E} _.

(** What the three handlers have found out when they load the backup. *)
Record Loaded (E : Type) : Type := {
  ld_volumeName : string;
  ld_poolName : string;
  ld_volumeTypeName : string;
  ld_backupName : string;
  ld_projectName : string;
  ld_fullName : string;
  ld_entry : E
}.
Arguments ld_volumeName {E} _.
Arguments ld_poolName {E} _.
Arguments ld_volumeTypeName {E} _.
Arguments ld_backupName {E} _.
Arguments ld_projectName {E} _.
Arguments ld_fullName {E} _.
Arguments ld_entry {E} _.

(** The statements the three handlers share, from the path variables to
    [storagePoolVolumeBackupLoadByName]. *)
Definition load_backup {E : Type} (c : BackupCall E) : step (Loaded E) :=
  volumeName <-- or_return SmartError (bc_volumeName c) ;>
  poolName <-- or_return SmartError (bc_poolName c) ;>
  volumeTypeName <-- or_return SmartError (bc_volumeTypeName c) ;>
  backupName <-- or_return SmartError (bc_backupName c) ;>
  volumeType <-- or_return BadRequest (bc_VolumeTypeNameToDBType c) ;>
  exec return_if (negb (volumeType =? StoragePoolVolumeTypeCustom))
    (BadRequest (fmt_Errorf "Invalid storage volume type %q" volumeTypeName)) ;>
  projectName <-- or_return SmartError (bc_StorageVolumeProject c) ;>
  exec forward (bc_forwardedIfTargetIsRemote c) ;>
  exec forward (bc_forwardedIfVolumeIsRemote c) ;>
  let fullName := volumeName +:+ SnapshotDelimiter +:+ backupName in
  entry <-- or_return SmartError (bc_LoadByName c projectName poolName fullName) ;>
  inr {| ld_volumeName := volumeName; ld_poolName := poolName;
         ld_volumeTypeName := volumeTypeName; ld_backupName := backupName;
         ld_projectName := projectName; ld_fullName := fullName;
         ld_entry := entry |}.

(** [storagePoolVolumeTypeCustomBackupGet]: the answer is
    [SyncResponse(true, entry.Render())], here the entry to render. *)
Definition storagePoolVolumeTypeCustomBackupGet {E : Type} (c : BackupCall E) : step E :=
  l <-- load_backup c ;>
  inr (ld_entry l).

(** The operation registered by the delete handler: its background
    function deletes the entry and announces the deletion of the full
    name. *)
Record RemoveOperation (E : Type) : Type := {
  rm_entry : E;
  rm_event_name : string;
  rm_volume_resource : URL;
  rm_backup_resource : URL
}.
Arguments rm_entry {E} _.
Arguments rm_event_name {E} _.
Arguments rm_volume_resource {E} _.
Arguments rm_backup_resource {E} _.

(** [storagePoolVolumeTypeCustomBackupDelete] *)
Definition storagePoolVolumeTypeCustomBackupDelete {E : Type} (c : BackupCall E)
  : step (RemoveOperation E) :=
  l <-- load_backup c ;>
  exec check InternalError (bc_OperationCreate c) ;>
  inr {| rm_entry := ld_entry l;
         rm_event_name := ld_fullName l;
         rm_volume_resource :=
           [APIVersion; "storage-pools"; ld_poolName l; "volumes";
            ld_volumeTypeName l; ld_volumeName l];
         rm_backup_resource :=
           [APIVersion; "storage-pools"; ld_poolName l; "volumes";
            ld_volumeTypeName l; ld_volumeName l; "backups"; ld_backupName l] |}.

(** [storagePoolVolumeTypeCustomBackupExportGet]: the answer is the file
    at [VarPath("backups", "custom", poolName,
    project.StorageVolume(projectName, fullName))], here the arguments of
    that path, and the full name announced as retrieved. *)
Record ExportFile : Type := {
  ex_pool : string;
  ex_project : string;
  ex_fullName : string
}.

Definition storagePoolVolumeTypeCustomBackupExportGet {E : Type} (c : BackupCall E)
  : step ExportFile :=
  l <-- load_backup c ;>
  inr {| ex_pool := ld_poolName l; ex_project := ld_projectName l;
         ex_fullName := ld_fullName l |}.

(** *** Listing the backups of a volume *)

(** [strings.Split(s, "/")] *)
Fixpoint Split_slash (s : string) : list string :=
  match s with
  | EmptyString => [EmptyString]
  | String c t =>
      if Ascii.eqb c "/" then EmptyString :: Split_slash t
      else
        match Split_slash t with
        | h :: r => String c h :: r
        | [] => [String c EmptyString]
        end
  end.

(** [db.StoragePoolVolumeBackup], the fields the listing reads. *)
Record StoragePoolVolumeBackup : Type := {
  b_ID : Z;
  b_Name : string;
  b_VolumeOnly : bool;
  b_OptimizedStorage : bool
}.

(** Calls made by [storagePoolVolumeTypeCustomBackupsGet], in order. *)
Record BackupsGetCall : Type := {
  bg_StorageVolumeProject : result string;
  bg_volumeName : result string;
  bg_poolName : result string;
  bg_volumeTypeName : result string;
  bg_VolumeTypeNameToDBType : result Z;
  bg_GetStoragePool : result Z;
  bg_forwardedIfVolumeIsRemote : option string;
  bg_IsRecursionRequest : bool;
  bg_GetStoragePoolVolumeBackups : result (list StoragePoolVolumeBackup)
}.

(** The answer of the listing: URLs, or the backups to render. *)
Inductive Listing : Type :=
| Links (urls : list URL)
| Rendered (backups : list StoragePoolVolumeBackup).

(** The URL of one backup; [None] is the run-time panic of the index
    expression [strings.Split(backup.Name(), "/")[1]] when the name has
    no slash. *)
Definition backup_url (poolName volumeName : string) (b : StoragePoolVolumeBackup)
  : option URL :=
  match Split_slash (b_Name b) with
  | _ :: name :: _ =>
      Some [APIVersion; "storage-pools"; poolName; "volumes"; "custom"; volumeName;
            "backups"; name]
  | _ => None
  end.

(** The loop that fills [resultString]; it stops at the first panic. *)
Fixpoint backup_urls (poolName volumeName : string) (bs : list StoragePoolVolumeBackup)
  : option (list URL) :=
  match bs with
  | [] => Some []
  | b :: bs' =>
      match backup_url poolName volumeName b with
      | None => None
      | Some u =>
          match backup_urls poolName volumeName bs' with
          | None => None
          | Some us => Some (u :: us)
          end
      end
  end.

(** [storagePoolVolumeTypeCustomBackupsGet]; the inner [None] is a
    panic. *)
Definition storagePoolVolumeTypeCustomBackupsGet (c : BackupsGetCall)
  : step (option Listing) :=
  projectName <-- or_return SmartError (bg_StorageVolumeProject c) ;>
  volumeName <-- or_return SmartError (bg_volumeName c) ;>
  poolName <-- or_return SmartError (bg_poolName c) ;>
  volumeTypeName <-- or_return SmartError (bg_volumeTypeName c) ;>
  volumeType <-- or_return BadRequest (bg_VolumeTypeNameToDBType c) ;>
  exec return_if (negb (volumeType =? StoragePoolVolumeTypeCustom))
    (BadRequest (fmt_Errorf "Invalid storage volume type %q" volumeTypeName)) ;>
  poolID <-- or_return SmartError (bg_GetStoragePool c) ;>
  exec forward (bg_forwardedIfVolumeIsRemote c) ;>
  let recursion := bg_IsRecursionRequest c in
  volumeBackups <-- or_return SmartError (bg_GetStoragePoolVolumeBackups c) ;>
  if negb recursion then
    inr (option_map Links (backup_urls poolName volumeName volumeBackups))
  else inr (Some (Rendered volumeBackups)).

End BackupHandlers.

(** ** Trust tokens ([cmd/incusd/certificates.go]) *)

Module Tokens.
Import Go Backups.

(** [api.CertificatesPost], the fields the handlers read.  A nil slice
    of projects and an empty one are the same list. *)
Record CertificatesPost : Type := {
  cp_Name : string;
  cp_Type : string;
  cp_Restricted : bool;
  cp_Projects : list string;
  cp_Certificate : string;
  cp_Description : string;
  cp_Token : bool;
  cp_TrustToken : string
}.

(** The dynamic values found in the metadata of an operation. *)
#[local] Unset Elimination Schemes.
Inductive any : Type :=
| any_string (s : string)
| any_bool (b : bool)
| any_time (t : Z)
| any_slice (l : list any)
| any_map (m : list (string * any))
| any_CertificatesPost (req : CertificatesPost)
| any_other.
#[local] Set Elimination Schemes.

(** A [map[string]any], as its key/value pairs; a key occurs once. *)
Fixpoint lookup_key {A : Type} (k : string) (m : list (string * A)) : option A :=
  match m with
  | [] => None
  | (k', v) :: m' => if String.eqb k k' then Some v else lookup_key k m'
  end.

(** [api.Operation], the fields read here. *)
Record Operation : Type := {
  ID : string;
  StatusCode : Z;
  has_Resources : bool;
  Metadata : list (string * any);
  Location : string
}.

(** [api.Running], declared in [shared/api]. *)
Definition Running : Z := 103.

(** The zero [time.Time] (year 1), on a clock that counts nanoseconds
    from 1970. *)
Definition zeroTime : Z := - 62135596800 * 10 ^ 9.

(** [a == s] for an interface value [a] and a string [s]. *)
Definition any_is_string (a : any) (s : string) : bool :=
  match a with
  | any_string s' => String.eqb s' s
  | _ => false
  end.

(** Errors made here: an error of a collaborator wrapped by [fmt.Errorf]
    with [%w], and [api.StatusErrorf]. *)
Inductive token_error : Type :=
| wrapped (format : string) (args : list string) (cause : error)
| StatusErrorf (code : Z) (msg : string).

Definition StatusForbidden : Z := 403.

(** What a token check returns: the matching operation, nil, an error,
    or a run-time panic. *)
Inductive TokenOutcome : Type :=
| token_op (op : Operation)
| token_none
| token_err (e : token_error)
| token_panic.

(** The search loop of [certificateTokenValid]. *)
Fixpoint find_add_token (ops : list Operation) (secret : string) : option Operation :=
  match ops with
  | [] => None
  | op :: ops' =>
      if negb (StatusCode op =? Running) then find_add_token ops' secret
      else
        match lookup_key "secret" (Metadata op) with
        | None => find_add_token ops' secret
        | Some opSecret =>
            if any_is_string opSecret secret then Some op
            else find_add_token ops' secret
        end
  end.

(** [certificateTokenValid]: [ops] is what [operationsGetByType] returns,
    [cancel] what [operationCancel] returns for an operation, [now] the
    reading of the clock.  The first component lists the operations
    [operationCancel] was called on. *)
Definition certificateTokenValid (ops : result (list Operation))
    (cancel : Operation -> option error) (now : Z) (secret : string)
  : list Operation * TokenOutcome :=
  match ops with
  | Err e =>
      ([], token_err (wrapped "Failed getting certificate token operations: %w" [] e))
  | Ok ops =>
      match find_add_token ops secret with
      | Some foundOp =>
          match cancel foundOp with
          | Some e =>
              ([foundOp],
               token_err (wrapped "Failed to cancel operation %q: %w" [ID foundOp] e))
          | None =>
              match lookup_key "expiresAt" (Metadata foundOp) with
              | Some expiresAt =>
                  let expiry := match expiresAt with
                                | any_time t => t
                                | _ => zeroTime
                                end in
                  if expiry <? now then
                    ([foundOp], token_err (StatusErrorf StatusForbidden "Token has expired"))
                  else ([foundOp], token_op foundOp)
              | None => ([foundOp], token_op foundOp)
              end
          end
      | None => ([], token_none)
      end
  end.

(** The search loop of [clusterMemberJoinTokenValid]. *)
Fixpoint find_join_token (ops : list Operation) (serverName secret : string)
  : option Operation :=
  match ops with
  | [] => None
  | op :: ops' =>
      if negb (StatusCode op =? Running) then find_join_token ops' serverName secret
      else if negb (has_Resources op) then find_join_token ops' serverName secret
      else
        match lookup_key "secret" (Metadata op) with
        | None => find_join_token ops' serverName secret
        | Some opSecret =>
            match lookup_key "serverName" (Metadata op) with
            | None => find_join_token ops' serverName secret
            | Some opServerName =>
                if any_is_string opServerName serverName
                   && any_is_string opSecret secret
                then Some op
                else find_join_token ops' serverName secret
            end
        end
  end.

(** [clusterMemberJoinTokenValid]: [thisServer] is [s.ServerName] and
    [time_Parse] is [time.Parse(time.RFC3339Nano, _)], [None] for an
    error.  The expiry of an operation of another member is asserted to be
    a string, which panics when it is not. *)
Definition clusterMemberJoinTokenValid (time_Parse : string -> option Z)
    (thisServer : string) (ops : result (list Operation))
    (cancel : Operation -> option error) (now : Z) (serverName secret : string)
  : list Operation * TokenOutcome :=
  match ops with
  | Err e =>
      ([], token_err (wrapped "Failed getting cluster join token operations: %w" [] e))
  | Ok ops =>
      match find_join_token ops serverName secret with
      | Some foundOp =>
          match cancel foundOp with
          | Some e =>
              ([foundOp],
               token_err (wrapped "Failed to cancel operation %q: %w" [ID foundOp] e))
          | None =>
              match lookup_key "expiresAt" (Metadata foundOp) with
              | Some expiresAt =>
                  let expiry :=
                    if String.eqb thisServer (Location foundOp) then
                      Some (match expiresAt with any_time t => t | _ => zeroTime end)
                    else
                      match expiresAt with
                      | any_string str => Some (default zeroTime (time_Parse str))
                      | _ => None
                      end in
                  match expiry with
                  | None => ([foundOp], token_panic)
                  | Some expiry =>
                      if expiry <? now then
                        ([foundOp],
                         token_err (StatusErrorf StatusForbidden "Token has expired"))
                      else ([foundOp], token_op foundOp)
                  end
              | None => ([foundOp], token_op foundOp)
              end
          end
      | None => ([], token_none)
      end
  end.

(** An operation that the loop of [certificateTokenValid] stops at. *)
Definition add_token_matches (secret : string) (op : Operation) : Prop :=
  StatusCode op = Running
  /\ exists opSecret, lookup_key "secret" (Metadata op) = Some (any_string opSecret)
                      /\ opSecret = secret.

(** An operation that the loop of [clusterMemberJoinTokenValid] stops at. *)
Definition join_token_matches (serverName secret : string) (op : Operation) : Prop :=
  StatusCode op = Running /\ has_Resources op = true
  /\ lookup_key "secret" (Metadata op) = Some (any_string secret)
  /\ lookup_key "serverName" (Metadata op) = Some (any_string serverName).

End Tokens.

(** ** Adding a certificate to the trust store
       ([certificatesPost] in [cmd/incusd/certificates.go]) *)

Module TrustStore.
Import Go Backups Certificates Tokens.

(** [x509.Certificate] with the further fields the handlers read. *)
Record x509_Certificate : Type := {
  x_validity : Certificate;
  x_Raw : string;
  x_CommonName : string
}.

(** Errors built by the handlers. *)
Inductive herror : Type :=
| plain (e : error)
| wrap (format : string) (cause : herror)
| of_token (e : token_error)
| status (code : Z) (msg : string).

Definition StatusConflict : Z := 409.

(** [dbCluster.Certificate] *)
Record dbCertificate : Type := {
  db_Fingerprint : string;
  db_Type : Z;
  db_Name : string;
  db_Certificate : string;
  db_Restricted : bool;
  db_Description : string
}.

(** The metadata of a certificate add token operation. *)
Record TokenMeta : Type := {
  tm_secret : string;
  tm_fingerprint : string;
  tm_addresses : list string;
  tm_request : CertificatesPost;
  tm_expiresAt : option Z
}.

(** [api.CertificatePut] *)
Record CertificatePut : Type := {
  put_Name : string;
  put_Type : string;
  put_Restricted : bool;
  put_Projects : list string;
  put_Certificate : string;
  put_Description : string
}.

(** [api.Certificate]: the writable fields and the fingerprint. *)
Record apiCertificate : Type := {
  api_writable : CertificatePut;
  api_Fingerprint : string
}.

(** The lifecycle events of certificates. *)
Inductive Lifecycle : Type :=
| CertificateCreated
| CertificateUpdated
| CertificateDeleted.

(** The calls a handler makes that change something, in order. *)
Inductive Effect : Type :=
| CancelOperation (op : Tokens.Operation)
| CreateTokenOperation (meta : TokenMeta)
| CreateCertificateWithProjects (cert : dbCertificate) (projects : list string)
| UpdateCertificate (fingerprint : string) (cert : dbCertificate) (projects : list string)
| DeleteCertificate (fingerprint : string)
| NotifyCreateCertificate (certificate name type : string)
| NotifyUpdateCertificate (fingerprint : string) (req : CertificatePut)
| NotifyDeleteCertificate (fingerprint : string)
| AuthorizerAddCertificate (fingerprint : string)
| AuthorizerDeleteCertificate (fingerprint : string)
| UpdateCertificateCache
| SendLifecycle (event : Lifecycle) (fingerprint : string).

Inductive Response : Type :=
| BadRequest (e : herror)
| Forbidden (e : option herror)
| InternalError (e : herror)
| SmartError (e : herror)
| OperationResponse (meta : TokenMeta)
| SyncResponseLocation (fingerprint : string)
| EmptySyncResponse
| Panic.

(** A handler under way: the calls made so far, and either the response
    returned ([inl]) or the value to go on with ([inr]). *)
Definition M (A : Type) : Type := list Effect * (Response + A).

Definition ret {A : Type} (a : A) : M A := ([], inr a).
Definition stop {A : Type} (r : Response) : M A := ([], inl r).
Definition call (e : Effect) : M unit := ([e], inr tt).

Definition mbind {A B : Type} (m : M A) (k : A -> M B) : M B :=
  match m with
  | (es, inl r) => (es, inl r)
  | (es, inr a) => let '(es', x) := k a in (es ++ es', x)
  end.

Notation "x <~ m ;> k" := (mbind m (fun x => k))
  (at level 200, m at level 100, k at level 200, right associativity).
Notation "'do' m ;> k" := (mbind m (fun _ => k))
  (at level 10, m at level 100, k at level 200).

Definition orr {A : Type} (w : herror -> Response) (r : result A) : M A :=
  match r with
  | Ok a => ret a
  | Err e => stop (w (plain e))
  end.

Definition chk (w : herror -> Response) (e : option error) : M unit :=
  match e with
  | None => ret tt
  | Some e => stop (w (plain e))
  end.

Definition stop_if (cond : bool) (r : Response) : M unit :=
  if cond then stop r else ret tt.

Definition finish (m : M Response) : list Effect * Response :=
  match m with
  | (es, inl r) => (es, r)
  | (es, inr r) => (es, r)
  end.

Definition new (msg : string) : herror := plain (errors_New msg).

(** What [s.Authorizer.CheckPermission] returns: nil, an error with
    status Forbidden, or another error. *)
Inductive Permission : Type :=
| Granted
| Denied (e : error)
| CheckFailed (e : error).

(** The outcome of a token check inside a handler: the operations
    cancelled are calls made; an error is answered as an internal error
    that wraps it. *)
Definition token_check (format : string) (t : list Tokens.Operation * TokenOutcome)
  : M (option Tokens.Operation) :=
  (map CancelOperation (fst t),
   match snd t with
   | token_op op => inr (Some op)
   | token_none => inr None
   | token_err e => inl (InternalError (wrap format (of_token e)))
   | token_panic => inl Panic
   end).

Definition as_string (a : option any) : option string :=
  match a with Some (any_string s) => Some s | _ => None end.

Definition as_bool (a : option any) : option bool :=
  match a with Some (any_bool b) => Some b | _ => None end.

Fixpoint as_strings (l : list any) : option (list string) :=
  match l with
  | [] => Some []
  | any_string s :: l' => option_map (cons s) (as_strings l')
  | _ :: _ => None
  end.

Definition as_string_slice (a : option any) : option (list string) :=
  match a with Some (any_slice l) => as_strings l | _ => None end.

(** The request rebuilt from the data of a certificate add token:
    [Some None] is the panic of a failed type assertion, [None] the
    default case of the type switch. *)
Definition request_of_token (a : option any) : option (option CertificatesPost) :=
  match a with
  | Some (any_CertificatesPost tokenReq) =>
      Some (Some {| cp_Name := cp_Name tokenReq; cp_Type := cp_Type tokenReq;
                    cp_Restricted := cp_Restricted tokenReq;
                    cp_Projects := cp_Projects tokenReq;
                    cp_Certificate := EmptyString; cp_Description := EmptyString;
                    cp_Token := false; cp_TrustToken := EmptyString |})
  | Some (any_map tokenReq) =>
      Some (match as_string (lookup_key "name" tokenReq),
                  as_string (lookup_key "type" tokenReq),
                  as_bool (lookup_key "restricted" tokenReq),
                  as_string_slice (lookup_key "projects" tokenReq) with
            | Some name, Some type, Some restricted, Some projects =>
                Some {| cp_Name := name; cp_Type := type; cp_Restricted := restricted;
                        cp_Projects := projects;
                        cp_Certificate := EmptyString; cp_Description := EmptyString;
                        cp_Token := false; cp_TrustToken := EmptyString |}
            | _, _, _, _ => None
            end)
  | _ => None
  end.

(** What the collaborators of [certificatesPost] return for a request. *)
Record PostCall : Type := {
  pc_Decode : result CertificatesPost;
  pc_HTTPSAddress : string;
  pc_Authenticate : result bool;
  pc_CheckPermission : Permission;
  pc_JoinTokenDecode : string -> result (string * string);
  pc_joinOperations : result (list Tokens.Operation);
  pc_CertificateTokenDecode : string -> result string;
  pc_addOperations : result (list Tokens.Operation);
  pc_operationCancel : Tokens.Operation -> option error;
  pc_time_Parse : string -> option Z;
  pc_ServerName : string;
  pc_now_token : Z;
  pc_FromAPIType : string -> result Z;
  pc_pem_Decode : string -> option string * string;
  pc_base64_DecodeString : string -> result string;
  pc_ParseCertificate : string -> result x509_Certificate;
  pc_ListenAddresses : result (list string);
  pc_RandomHexString : result string;
  pc_CertFingerprintStr : result string;
  pc_RemoteTokenExpiry : string;
  pc_GetExpiry : result Z;
  pc_OperationCreate : option error;
  pc_TLS : option (list x509_Certificate);
  pc_now1 : Z;
  pc_now2 : Z;
  pc_CertFingerprint : x509_Certificate -> string;
  pc_SplitHostPort : result string;
  pc_isClusterNotification : bool;
  pc_existing : string -> bool;
  pc_CreateCertificateWithProjects : option error;
  pc_NewNotifier : option error;
  pc_notify : option error;
  pc_pem_EncodeToMemory : string -> string;
  pc_base64_EncodeToString : string -> string
}.

(** The access check of [certificatesPost] for a client that is not a
    trusted administrator: it ends with the request to go on with. *)
Definition require_token (c : PostCall) (req : CertificatesPost) : M CertificatesPost :=
  do stop_if (cp_Token req) (Forbidden None) ;>
  do stop_if (is_empty (cp_TrustToken req)) (Forbidden None) ;>
  match pc_JoinTokenDecode c (cp_TrustToken req) with
  | Ok (serverName, secret) =>
      joinOp <~ token_check "Failed during search for join token operation: %w"
                  (clusterMemberJoinTokenValid (pc_time_Parse c) (pc_ServerName c)
                     (pc_joinOperations c) (pc_operationCancel c) (pc_now_token c)
                     serverName secret) ;>
      match joinOp with
      | None => stop (Forbidden (Some (new "No matching cluster join operation found")))
      | Some _ => ret req
      end
  | Err _ =>
      match pc_CertificateTokenDecode c (cp_TrustToken req) with
      | Ok secret =>
          joinOp <~ token_check
                      "Failed during search for certificate add token operation: %w"
                      (certificateTokenValid (pc_addOperations c) (pc_operationCancel c)
                         (pc_now_token c) secret) ;>
          match joinOp with
          | None =>
              stop (Forbidden (Some (new "No matching certificate add operation found")))
          | Some op =>
              match request_of_token (lookup_key "request" (Metadata op)) with
              | Some (Some req') => ret req'
              | Some None => stop Panic
              | None => stop (InternalError (new "Bad certificate add operation data"))
              end
          end
      | Err _ => stop (Forbidden None)
      end
  end.

(** The issue of a certificate add token. *)
Definition issue_token {A : Type} (c : PostCall) (req : CertificatesPost) : M A :=
  addresses <~ orr InternalError (pc_ListenAddresses c) ;>
  joinSecret <~ orr InternalError (pc_RandomHexString c) ;>
  fingerprint <~ orr InternalError (pc_CertFingerprintStr c) ;>
  expiresAt <~ (if negb (is_empty (pc_RemoteTokenExpiry c)) then
                  (e <~ orr InternalError (pc_GetExpiry c) ;> ret (Some e))
                else ret None) ;>
  let meta := {| tm_secret := joinSecret; tm_fingerprint := fingerprint;
                 tm_addresses := addresses; tm_request := req;
                 tm_expiresAt := expiresAt |} in
  do call (CreateTokenOperation meta) ;>
  do chk InternalError (pc_OperationCreate c) ;>
  stop (OperationResponse meta).

(** [certificatesPost], first part: the request is parsed and the
    client admitted; the result is the request to go on with. *)
Definition admitted_request (c : PostCall) : M CertificatesPost :=
  req <~ orr BadRequest (pc_Decode c) ;>
  let localHTTPSAddress := pc_HTTPSAddress c in
  do stop_if (cp_Token req && negb (is_empty (cp_Certificate req)))
       (BadRequest (new "Can't use certificate if token is requested")) ;>
  do (if cp_Token req then
        (do stop_if (negb (String.eqb (cp_Type req) "client"))
              (BadRequest (new "Tokens can only be issued for client certificates")) ;>
         stop_if (is_empty localHTTPSAddress)
           (BadRequest (new "Can't issue token when server isn't listening on network")))
      else ret tt) ;>
  trusted <~ orr SmartError (pc_Authenticate c) ;>
  do stop_if (trusted && is_empty (cp_Certificate req) && negb (cp_Token req))
       (BadRequest (new "Client is already trusted")) ;>
  userCanCreateCertificates <~
    match pc_CheckPermission c with
    | Granted => ret true
    | Denied _ => ret false
    | CheckFailed e => stop (SmartError (plain e))
    end ;>
  if negb trusted || negb userCanCreateCertificates then require_token c req
  else ret req.

(** [certificatesPost], second part: the certificate is taken from the
    request, or a token is issued and the handler returns, or the
    certificate is the last one the client presented. *)
Definition certificate_of (c : PostCall) (req : CertificatesPost) : M x509_Certificate :=
  if negb (is_empty (cp_Certificate req)) then
    (let '(block, rest) := pc_pem_Decode c (cp_Certificate req) in
     der <~ match block with
            | Some bytes => ret bytes
            | None => orr BadRequest (pc_base64_DecodeString c rest)
            end ;>
     orr (fun e => BadRequest (wrap "Invalid certificate material: %w" e))
       (pc_ParseCertificate c der))
  else if cp_Token req then issue_token c req
  else
    match pc_TLS c with
    | Some PeerCertificates =>
        match last PeerCertificates with
        | None => stop (BadRequest (new "No client certificate provided"))
        | Some cert => ret cert
        end
    | None => stop (BadRequest (new "Can't use TLS data on non-TLS link"))
    end.

(** The name under which the certificate is stored. *)
Definition name_of (c : PostCall) (req : CertificatesPost) (cert : x509_Certificate)
  : M string :=
  if is_empty (cp_Name req) then
    if is_empty (x_CommonName cert) then orr InternalError (pc_SplitHostPort c)
    else ret (x_CommonName cert)
  else ret (cp_Name req).

(** [certificatesPost], third part: the certificate is validated, named,
    stored and announced. *)
Definition store_certificate (c : PostCall) (req : CertificatesPost) (dbReqType : Z)
    (cert : x509_Certificate) : M Response :=
  do chk BadRequest (certificateValidate (pc_now1 c) (pc_now2 c) (x_validity cert)) ;>
  let fingerprint := pc_CertFingerprint c cert in
  name <~ name_of c req cert ;>
  do (if negb (pc_isClusterNotification c) then
        (do stop_if (pc_existing c fingerprint)
              (SmartError (status StatusConflict "Certificate already in trust store")) ;>
         do call (CreateCertificateWithProjects
                    {| db_Fingerprint := pc_CertFingerprint c cert;
                       db_Type := dbReqType; db_Name := name;
                       db_Certificate := pc_pem_EncodeToMemory c (x_Raw cert);
                       db_Restricted := cp_Restricted req;
                       db_Description := cp_Description req |}
                    (cp_Projects req)) ;>
         do chk SmartError (pc_CreateCertificateWithProjects c) ;>
         do chk SmartError (pc_NewNotifier c) ;>
         do call (NotifyCreateCertificate
                    (pc_base64_EncodeToString c (x_Raw cert)) name "client") ;>
         do chk SmartError (pc_notify c) ;>
         call (AuthorizerAddCertificate fingerprint))
      else ret tt) ;>
  do call UpdateCertificateCache ;>
  do call (SendLifecycle CertificateCreated fingerprint) ;>
  ret (SyncResponseLocation fingerprint).

(** [certificatesPost] *)
Definition certificatesPost (c : PostCall) : list Effect * Response :=
  finish (
    req <~ admitted_request c ;>
    dbReqType <~ orr BadRequest (pc_FromAPIType c (cp_Type req)) ;>
    cert <~ certificate_of c req ;>
    store_certificate c req dbReqType cert).

(** The client is trusted and may create certificates. *)
Definition trusted_admin (c : PostCall) : Prop :=
  pc_Authenticate c = Ok true /\ pc_CheckPermission c = Granted.

Definition is_Cancel (e : Effect) : bool :=
  match e with CancelOperation _ => true | _ => false end.

(** The running token operation [op] matches the trust token of the
    request [req] and its cancellation succeeded; [req'] is the request to
    go on with: [req] itself for a cluster join token, the request held by
    the operation for a certificate add token. *)
Definition token_used (c : PostCall) (req : CertificatesPost) (op : Tokens.Operation)
    (req' : CertificatesPost) : Prop :=
  cp_Token req = false /\ cp_TrustToken req <> EmptyString
  /\ pc_operationCancel c op = None
  /\ match pc_JoinTokenDecode c (cp_TrustToken req) with
     | Ok (serverName, secret) =>
         (exists l, pc_joinOperations c = Ok l /\ In op l)
         /\ join_token_matches serverName secret op /\ req' = req
     | Err _ =>
         exists secret,
           pc_CertificateTokenDecode c (cp_TrustToken req) = Ok secret
           /\ (exists l, pc_addOperations c = Ok l /\ In op l)
           /\ add_token_matches secret op
           /\ request_of_token (lookup_key "request" (Metadata op)) = Some (Some req')
     end.

(** The calls [certificatesPost] makes to store the certificate [cert]
    under [name]: the database row, the message to the other members, the
    authorizer entry. *)
Definition store_calls (c : PostCall) (req : CertificatesPost) (dbReqType : Z)
    (cert : x509_Certificate) (name : string) : list Effect :=
  [CreateCertificateWithProjects
     {| db_Fingerprint := pc_CertFingerprint c cert;
        db_Type := dbReqType; db_Name := name;
        db_Certificate := pc_pem_EncodeToMemory c (x_Raw cert);
        db_Restricted := cp_Restricted req;
        db_Description := cp_Description req |}
     (cp_Projects req);
   NotifyCreateCertificate (pc_base64_EncodeToString c (x_Raw cert)) name "client";
   AuthorizerAddCertificate (pc_CertFingerprint c cert)].

(** The calls that follow a certificate stored or received: the cache is
    reloaded and the event sent. *)
Definition announce_calls (c : PostCall) (cert : x509_Certificate) : list Effect :=
  [UpdateCertificateCache; SendLifecycle CertificateCreated (pc_CertFingerprint c cert)].

(** The name a certificate gets: the requested one, else the common name
    of the certificate, else the host of the remote address. *)
Definition fallback_name (c : PostCall) (req : CertificatesPost)
    (cert : x509_Certificate) (name : string) : Prop :=
  if is_empty (cp_Name req) then
    if is_empty (x_CommonName cert) then pc_SplitHostPort c = Ok name
    else name = x_CommonName cert
  else name = cp_Name req.

(** The certificate [cert] is what [x509.ParseCertificate] makes of the
    text [s]: of its first PEM block, or of its base64 decoding when it
    holds no PEM block. *)
Definition parsed_from (c : PostCall) (s : string) (cert : x509_Certificate) : Prop :=
  exists der,
    pc_ParseCertificate c der = Ok cert
    /\ match pc_pem_Decode c s with
       | (Some bytes, _) => der = bytes
       | (None, rest) => pc_base64_DecodeString c rest = Ok der
       end.

(** A certificate, a token operation and a request served by a member
    that listens on the network, for the examples: the client is trusted
    and may create certificates or is neither; any trust token decodes as a
    certificate add token; the one token operation holds [token]. *)
Definition sample_certificate : x509_Certificate :=
  {| x_validity := {| NotBefore := 0; NotAfter := 1000;
                      PublicKeyAlgorithm_of := ECDSA;
                      PublicKey_of := ecdsa_PublicKey |};
     x_Raw := "raw"; x_CommonName := "alice" |}.

Definition sample_operation (token : list (string * any)) : Tokens.Operation :=
  {| ID := "op1"; StatusCode := Running; has_Resources := false;
     Metadata := token; Location := "m1" |}.

Definition sample_call (req : CertificatesPost) (admin notification : bool)
    (token : list (string * any)) (notify : option error) : PostCall :=
  {| pc_Decode := Ok req;
     pc_HTTPSAddress := ":8443";
     pc_Authenticate := Ok admin;
     pc_CheckPermission := if admin then Granted else Denied (external_error "forbidden");
     pc_JoinTokenDecode := fun _ => Err (external_error "not a join token");
     pc_joinOperations := Ok [];
     pc_CertificateTokenDecode := fun s => Ok s;
     pc_addOperations := Ok [sample_operation token];
     pc_operationCancel := fun _ => None;
     pc_time_Parse := fun _ => None;
     pc_ServerName := "m1";
     pc_now_token := 500;
     pc_FromAPIType := fun _ => Ok 1;
     pc_pem_Decode := fun s => (Some s, EmptyString);
     pc_base64_DecodeString := fun s => Ok s;
     pc_ParseCertificate := fun _ => Ok sample_certificate;
     pc_ListenAddresses := Ok ["10.0.0.1:8443"];
     pc_RandomHexString := Ok "s3cret";
     pc_CertFingerprintStr := Ok "f00d";
     pc_RemoteTokenExpiry := EmptyString;
     pc_GetExpiry := Ok 0;
     pc_OperationCreate := None;
     pc_TLS := Some [sample_certificate];
     pc_now1 := 500;
     pc_now2 := 500;
     pc_CertFingerprint := fun _ => "abcd";
     pc_SplitHostPort := Ok "10.0.0.2";
     pc_isClusterNotification := notification;
     pc_existing := fun _ => false;
     pc_CreateCertificateWithProjects := None;
     pc_NewNotifier := None;
     pc_notify := notify;
     pc_pem_EncodeToMemory := fun s => s;
     pc_base64_EncodeToString := fun s => s |}.

Definition sample_request (certificate trustToken : string) (token : bool)
  : CertificatesPost :=
  {| cp_Name := "bob"; cp_Type := "client"; cp_Restricted := false;
     cp_Projects := ["default"]; cp_Certificate := certificate;
     cp_Description := "laptop"; cp_Token := token; cp_TrustToken := trustToken |}.

Definition is_Sync (r : Response) : bool :=
  match r with SyncResponseLocation _ => true | _ => false end.

(** *** Updating and deleting a certificate
        ([doCertificateUpdate], [certificateDelete]) *)

(** The loop over [r.TLS.PeerCertificates]: [trusted] is what
    [CheckTrustState] answers for the last certificate tried, and the loop
    stops at the first one it trusts. *)
Fixpoint trusted_loop (CheckTrustState : x509_Certificate -> bool)
    (PeerCertificates : list x509_Certificate) : bool :=
  match PeerCertificates with
  | [] => false
  | i :: rest => if CheckTrustState i then true else trusted_loop CheckTrustState rest
  end.

(** The loop [for i := range dbInfo.Projects] that compares with
    [req.Projects[i]]: [Some true] when it finds a difference, [None] for
    an index out of range. *)
Fixpoint projects_differ (dbProjects reqProjects : list string) : option bool :=
  match dbProjects with
  | [] => Some false
  | p :: dbProjects' =>
      match reqProjects with
      | [] => None
      | q :: reqProjects' =>
          if negb (String.eqb p q) then Some true
          else projects_differ dbProjects' reqProjects'
      end
  end.

(** What the collaborators of [doCertificateUpdate] return for a
    request.  [uc_pem_Decode] gives the bytes of the first PEM block, and
    [uc_CheckTrustState i name cert] is
    [CheckTrustState(i, {name: cert}, networkCert, false)]. *)
Record UpdateCall : Type := {
  uc_FromAPIType : string -> result Z;
  uc_CheckPermission : Permission;
  uc_TLS : option (list x509_Certificate);
  uc_pem_Decode : string -> option string;
  uc_ParseCertificate : string -> result x509_Certificate;
  uc_CheckTrustState : x509_Certificate -> string -> x509_Certificate -> bool;
  uc_now1 : Z;
  uc_now2 : Z;
  uc_CertFingerprint : x509_Certificate -> string;
  uc_pem_EncodeToMemory : string -> string;
  uc_UpdateCertificate : option error;
  uc_NewNotifier : option error;
  uc_notify : option error
}.

(** [req.Certificate != "" && dbInfo.Certificate != req.Certificate] *)
Definition certificate_changed (dbInfo : apiCertificate) (req : CertificatePut) : bool :=
  negb (is_empty (put_Certificate req))
  && negb (String.eqb (put_Certificate (api_writable dbInfo)) (put_Certificate req)).

(** The check both handlers make for a client that lacks the permission
    to edit the certificate: one of the certificates it presented must be
    trusted by the certificate stored, as the PEM text [pem], under [name].
    The stored text is decoded and parsed, the nil block and the nil
    [r.TLS] are dereferenced, and [refused] is the answer when no
    certificate is trusted. *)
Definition own_certificate_check (pem_Decode : string -> option string)
    (ParseCertificate : string -> result x509_Certificate)
    (CheckTrustState : x509_Certificate -> string -> x509_Certificate -> bool)
    (TLS : option (list x509_Certificate)) (name pem : string) (refused : Response)
  : M unit :=
  certBlock <~ match pem_Decode pem with
               | Some bytes => ret bytes
               | None => stop Panic
               end ;>
  cert <~ orr InternalError (ParseCertificate certBlock) ;>
  PeerCertificates <~ match TLS with
                      | Some peers => ret peers
                      | None => stop Panic
                      end ;>
  stop_if (negb (trusted_loop (fun i => CheckTrustState i name cert) PeerCertificates))
    refused.

(** [doCertificateUpdate], the part for a client that lacks the
    permission to edit the certificate: it ends with the row and the
    projects to write.  A nil [r.TLS] only builds a response that is
    dropped; it is dereferenced further down. *)
Definition own_certificate_update (c : UpdateCall) (dbInfo : apiCertificate)
    (req : CertificatePut) (reqDBType : Z) : M (dbCertificate * list string) :=
  let old := api_writable dbInfo in
  do stop_if (negb (Bool.eqb (put_Restricted old) (put_Restricted req))
              || negb (String.eqb (put_Name old) (put_Name req))
              || negb (Nat.eqb (List.length (put_Projects old))
                               (List.length (put_Projects req))))
       (Forbidden (Some (new "Only the certificate can be changed"))) ;>
  do (match projects_differ (put_Projects old) (put_Projects req) with
      | None => stop Panic
      | Some true => stop (Forbidden (Some (new "Only the certificate can be changed")))
      | Some false => ret tt
      end) ;>
  let dbCert := {| db_Certificate := put_Certificate old;
                   db_Fingerprint := api_Fingerprint dbInfo;
                   db_Restricted := put_Restricted old;
                   db_Name := put_Name old;
                   db_Type := reqDBType;
                   db_Description := put_Description req |} in
  do (if certificate_changed dbInfo req then
        own_certificate_check (uc_pem_Decode c) (uc_ParseCertificate c)
          (uc_CheckTrustState c) (uc_TLS c) (put_Name old) (put_Certificate old)
          (Forbidden (Some (new "Certificate cannot be changed")))
      else ret tt) ;>
  ret (dbCert, put_Projects old).

(** [doCertificateUpdate], the certificate of the request put into the
    row when it differs from the stored one. *)
Definition supplied_certificate (c : UpdateCall) (dbInfo : apiCertificate)
    (req : CertificatePut) (dbCert : dbCertificate) : M dbCertificate :=
  if certificate_changed dbInfo req then
    (block <~ match uc_pem_Decode c (put_Certificate req) with
              | Some bytes => ret bytes
              | None => stop (BadRequest (new "Invalid PEM encoded certificate"))
              end ;>
     cert <~ orr (fun e => BadRequest (wrap "Invalid certificate material: %w" e))
               (uc_ParseCertificate c block) ;>
     do chk BadRequest
          (certificateValidate (uc_now1 c) (uc_now2 c) (x_validity cert)) ;>
     ret {| db_Certificate := uc_pem_EncodeToMemory c (x_Raw cert);
            db_Fingerprint := uc_CertFingerprint c cert;
            db_Restricted := db_Restricted dbCert;
            db_Name := db_Name dbCert;
            db_Type := db_Type dbCert;
            db_Description := db_Description dbCert |})
  else ret dbCert.

(** [doCertificateUpdate], the row written and the other members told. *)
Definition write_update (c : UpdateCall) (dbInfo : apiCertificate) (req : CertificatePut)
    (dbCert : dbCertificate) (certProjects : list string) : M unit :=
  do call (UpdateCertificate (api_Fingerprint dbInfo) dbCert certProjects) ;>
  do chk SmartError (uc_UpdateCertificate c) ;>
  do chk SmartError (uc_NewNotifier c) ;>
  do call (NotifyUpdateCertificate (db_Fingerprint dbCert) req) ;>
  chk SmartError (uc_notify c).

(** [doCertificateUpdate], the update a normal client asks for. *)
Definition update_row (c : UpdateCall) (dbInfo : apiCertificate) (req : CertificatePut)
  : M unit :=
  reqDBType <~ orr BadRequest (uc_FromAPIType c (put_Type req)) ;>
  let dbCert := {| db_Certificate := put_Certificate (api_writable dbInfo);
                   db_Fingerprint := api_Fingerprint dbInfo;
                   db_Restricted := put_Restricted req;
                   db_Name := put_Name req;
                   db_Type := reqDBType;
                   db_Description := put_Description req |} in
  userCanEditCertificate <~
    match uc_CheckPermission c with
    | Granted => ret true
    | Denied _ => ret false
    | CheckFailed e => stop (SmartError (plain e))
    end ;>
  row <~ (if negb userCanEditCertificate
          then own_certificate_update c dbInfo req reqDBType
          else ret (dbCert, put_Projects req)) ;>
  dbCert <~ supplied_certificate c dbInfo req (fst row) ;>
  write_update c dbInfo req dbCert (snd row).

(** [doCertificateUpdate]; [normal] is
    [clientType == clusterRequest.ClientTypeNormal]. *)
Definition doCertificateUpdate (c : UpdateCall) (dbInfo : apiCertificate)
    (req : CertificatePut) (normal : bool) : list Effect * Response :=
  finish (
    do (if normal then update_row c dbInfo req else ret tt) ;>
    do call UpdateCertificateCache ;>
    do call (SendLifecycle CertificateUpdated (api_Fingerprint dbInfo)) ;>
    ret EmptySyncResponse).

(** What the collaborators of [certificateDelete] return for a request. *)
Record DeleteCall : Type := {
  dc_fingerprint : result string;
  dc_isClusterNotification : bool;
  dc_GetCertificateByFingerprintPrefix : string -> result dbCertificate;
  dc_CheckPermission : Permission;
  dc_TLS : option (list x509_Certificate);
  dc_pem_Decode : string -> option string;
  dc_ParseCertificate : string -> result x509_Certificate;
  dc_CheckTrustState : x509_Certificate -> string -> x509_Certificate -> bool;
  dc_DeleteCertificate : option error;
  dc_NewNotifier : option error;
  dc_notify : option error
}.

(** [certificateDelete], the row deleted, the other members told and the
    authorizer entry removed. *)
Definition write_delete (c : DeleteCall) (certInfo : dbCertificate) : M unit :=
  do call (DeleteCertificate (db_Fingerprint certInfo)) ;>
  do chk SmartError (dc_DeleteCertificate c) ;>
  do chk SmartError (dc_NewNotifier c) ;>
  do call (NotifyDeleteCertificate (db_Fingerprint certInfo)) ;>
  do chk SmartError (dc_notify c) ;>
  call (AuthorizerDeleteCertificate (db_Fingerprint certInfo)).

(** [certificateDelete], outside a cluster notification.  The error of
    the permission check is returned when it has status Forbidden; with
    another error the handler goes on as for a client without the
    permission. *)
Definition delete_row (c : DeleteCall) (fingerprint : string) : M unit :=
  certInfo <~ orr SmartError (dc_GetCertificateByFingerprintPrefix c fingerprint) ;>
  userCanEditCertificate <~
    match dc_CheckPermission c with
    | Granted => ret true
    | Denied e => stop (SmartError (plain e))
    | CheckFailed _ => ret false
    end ;>
  do (if negb userCanEditCertificate then
        own_certificate_check (dc_pem_Decode c) (dc_ParseCertificate c)
          (dc_CheckTrustState c) (dc_TLS c) (db_Name certInfo) (db_Certificate certInfo)
          (Forbidden (Some (new "Certificate cannot be deleted")))
      else ret tt) ;>
  write_delete c certInfo.

(** [certificateDelete] *)
Definition certificateDelete (c : DeleteCall) : list Effect * Response :=
  finish (
    fingerprint <~ orr SmartError (dc_fingerprint c) ;>
    do (if negb (dc_isClusterNotification c) then delete_row c fingerprint
        else ret tt) ;>
    do call UpdateCertificateCache ;>
    do call (SendLifecycle CertificateDeleted fingerprint) ;>
    ret EmptySyncResponse).

(** One of the certificates the client presented is trusted by the
    certificate stored under [name] as the PEM text [pem]. *)
Definition presents_trusted_by (pem_Decode : string -> option string)
    (ParseCertificate : string -> result x509_Certificate)
    (CheckTrustState : x509_Certificate -> string -> x509_Certificate -> bool)
    (TLS : option (list x509_Certificate)) (name pem : string) : Prop :=
  exists bytes stored peers i,
    pem_Decode pem = Some bytes /\ ParseCertificate bytes = Ok stored
    /\ TLS = Some peers /\ In i peers /\ CheckTrustState i name stored = true.

Definition sample_row : dbCertificate :=
  {| db_Fingerprint := "abcd"; db_Type := 1; db_Name := "bob";
     db_Certificate := "pem"; db_Restricted := true; db_Description := "laptop" |}.

Definition sample_delete (permission : Permission) : DeleteCall :=
  {| dc_fingerprint := Ok "ab";
     dc_isClusterNotification := false;
     dc_GetCertificateByFingerprintPrefix := fun _ => Ok sample_row;
     dc_CheckPermission := permission;
     dc_TLS := Some [sample_certificate];
     dc_pem_Decode := fun s => Some s;
     dc_ParseCertificate := fun _ => Ok sample_certificate;
     dc_CheckTrustState := fun _ _ _ => true;
     dc_DeleteCertificate := None;
     dc_NewNotifier := None;
     dc_notify := None |}.

Definition sample_entry : apiCertificate :=
  {| api_writable := {| put_Name := "bob"; put_Type := "client"; put_Restricted := true;
                        put_Projects := ["default"]; put_Certificate := "pem";
                        put_Description := "laptop" |};
     api_Fingerprint := "abcd" |}.

Definition sample_put (certificate description : string) : CertificatePut :=
  {| put_Name := "bob"; put_Type := "client"; put_Restricted := true;
     put_Projects := ["default"]; put_Certificate := certificate;
     put_Description := description |}.

Definition sample_update (permission : Permission) : UpdateCall :=
  {| uc_FromAPIType := fun _ => Ok 1;
     uc_CheckPermission := permission;
     uc_TLS := Some [sample_certificate];
     uc_pem_Decode := fun s => Some s;
     uc_ParseCertificate := fun _ => Ok sample_certificate;
     uc_CheckTrustState := fun _ _ _ => true;
     uc_now1 := 500;
     uc_now2 := 500;
     uc_CertFingerprint := fun _ => "ef01";
     uc_pem_EncodeToMemory := fun s => s;
     uc_UpdateCertificate := None;
     uc_NewNotifier := None;
     uc_notify := None |}.

End TrustStore.

(** ** The cache of trusted certificates ([updateCertificateCache]) *)

Module CertificateCache.
Import Go Backups Certificates Tokens TrustStore.

(** [certificate.TypeServer], declared in [internal/server/certificate];
    the function only compares against it. *)
Definition TypeServer : Z := 2.

(** What the collaborators of [updateCertificateCache] return. *)
Record CacheCall : Type := {
  cc_GetCertificates : result (list dbCertificate);
  cc_ToAPI : dbCertificate -> result apiCertificate;
  cc_pem_Decode : string -> option string;
  cc_ParseCertificate : string -> result x509_Certificate;
  cc_CertFingerprint : x509_Certificate -> string
}.

(** The loop of the transaction: [certs[i]] is the API form of
    [dbCerts[i]], and the first error ends it. *)
Fixpoint to_api (ToAPI : dbCertificate -> result apiCertificate)
    (dbCerts : list dbCertificate) : result (list apiCertificate) :=
  match dbCerts with
  | [] => Ok []
  | c :: rest =>
      match ToAPI c with
      | Err e => Err e
      | Ok a =>
          match to_api ToAPI rest with
          | Err e => Err e
          | Ok certs => Ok (a :: certs)
          end
      end
  end.

(** The three values the function builds: the certificates by type and
    fingerprint, the projects of the restricted ones by fingerprint, and
    the rows to write to the local database. *)
Record Cache : Type := {
  newCerts : gmap Z (gmap string x509_Certificate);
  newProjects : gmap string (list string);
  localCerts : list dbCertificate
}.

Definition empty_cache : Cache :=
  {| newCerts := ∅; newProjects := ∅; localCerts := [] |}.

(** One round of the loop over [dbCerts]. *)
Definition cache_row (c : CacheCall) (acc : Cache) (dbCert : dbCertificate)
    (apiCert : apiCertificate) : Cache :=
  let certs := match newCerts acc !! db_Type dbCert with
               | Some _ => newCerts acc
               | None => <[db_Type dbCert := ∅]> (newCerts acc)
               end in
  match cc_pem_Decode c (db_Certificate dbCert) with
  | None =>
      {| newCerts := certs; newProjects := newProjects acc;
         localCerts := localCerts acc |}
  | Some bytes =>
      match cc_ParseCertificate c bytes with
      | Err _ =>
          {| newCerts := certs; newProjects := newProjects acc;
             localCerts := localCerts acc |}
      | Ok cert =>
          {| newCerts :=
               <[db_Type dbCert :=
                   <[cc_CertFingerprint c cert := cert]>
                     (default ∅ (certs !! db_Type dbCert))]> certs;
             newProjects :=
               if db_Restricted dbCert
               then <[cc_CertFingerprint c cert := put_Projects (api_writable apiCert)]>
                      (newProjects acc)
               else newProjects acc;
             localCerts :=
               if db_Type dbCert =? TypeServer then localCerts acc ++ [dbCert]
               else localCerts acc |}
      end
  end.

(** [updateCertificateCache]: [None] when the certificates cannot be read,
    and nothing is set; otherwise [localCerts] is handed to
    [ReplaceCertificates], whose error is only logged, and [newCerts] and
    [newProjects] are set as the cache.  [certs] is as long as [dbCerts]. *)
Definition updateCertificateCache (c : CacheCall) : option Cache :=
  match cc_GetCertificates c with
  | Err _ => None
  | Ok dbCerts =>
      match to_api (cc_ToAPI c) dbCerts with
      | Err _ => None
      | Ok certs =>
          Some (fold_left (fun acc row => cache_row c acc (fst row) (snd row))
                  (combine dbCerts certs) empty_cache)
      end
  end.

(** The certificate a row holds, when its text decodes and parses. *)
Definition row_certificate (c : CacheCall) (dbCert : dbCertificate)
  : option x509_Certificate :=
  match cc_pem_Decode c (db_Certificate dbCert) with
  | Some bytes =>
      match cc_ParseCertificate c bytes with
      | Ok cert => Some cert
      | Err _ => None
      end
  | None => None
  end.

(** The cache holds [cert] under the type [t] and the fingerprint
    [fingerprint]. *)
Definition cached (cache : Cache) (t : Z) (fingerprint : string)
    (cert : x509_Certificate) : Prop :=
  exists m, newCerts cache !! t = Some m /\ m !! fingerprint = Some cert.

Definition is_server_row (c : CacheCall) (dbCert : dbCertificate) : bool :=
  match row_certificate c dbCert with
  | Some _ => db_Type dbCert =? TypeServer
  | None => false
  end.

Definition sample_cache_call : CacheCall :=
  {| cc_GetCertificates :=
       Ok [ {| db_Fingerprint := "abcd"; db_Type := 1; db_Name := "bob";
               db_Certificate := "pem"; db_Restricted := true;
               db_Description := "laptop" |};
            {| db_Fingerprint := "0000"; db_Type := 2; db_Name := "m2";
               db_Certificate := "garbage"; db_Restricted := false;
               db_Description := EmptyString |};
            {| db_Fingerprint := "abcd"; db_Type := 2; db_Name := "m3";
               db_Certificate := "pem"; db_Restricted := false;
               db_Description := EmptyString |} ];
     cc_ToAPI := fun row =>
       Ok {| api_writable :=
               {| put_Name := db_Name row; put_Type := "client";
                  put_Restricted := db_Restricted row; put_Projects := ["default"];
                  put_Certificate := db_Certificate row;
                  put_Description := db_Description row |};
             api_Fingerprint := db_Fingerprint row |};
     cc_pem_Decode := fun s => if String.eqb s "pem" then Some s else None;
     cc_ParseCertificate := fun _ => Ok sample_certificate;
     cc_CertFingerprint := fun _ => "abcd" |}.

End CertificateCache.

(** ** Listing the certificates ([certificatesGet]) *)

Module CertificateList.
Import Go Backups Certificates Tokens TrustStore.

(** [fmt.Sprintf("/%s/certificates/%s", version.APIVersion, fingerprint)] *)
Definition certificate_url (fingerprint : string) : string :=
  "/" +:+ BackupHandlers.APIVersion +:+ "/certificates/" +:+ fingerprint.

(** What the collaborators of [certificatesGet] return for a request.
    [gc_filter_Parse] gives the number of clauses, [None] for a nil clause
    set; [gc_getTrustedCertificates] gives the certificates of each type in
    the order the maps are ranged over. *)
Record GetCall : Type := {
  gc_GetPermissionChecker : result (string -> bool);
  gc_recursion : bool;
  gc_filter_Parse : result (option nat);
  gc_GetCertificates : result (list dbCertificate);
  gc_ToAPI : dbCertificate -> result apiCertificate;
  gc_filter_Match : apiCertificate -> result bool;
  gc_getTrustedCertificates : result (list (list x509_Certificate));
  gc_CertFingerprint : x509_Certificate -> string
}.

Inductive Response : Type :=
| SmartError (e : error)
| BadRequest (e : herror)
| SyncResponse (fullResults : list apiCertificate)
| SyncLinks (linkResults : list string).

(** [clauses != nil && len(clauses.Clauses) > 0] *)
Definition has_clauses (clauses : option nat) : bool :=
  match clauses with
  | Some n => Nat.ltb 0 n
  | None => false
  end.

(** The loop over the rows of the database, inside the transaction. *)
Fixpoint load_rows (userHasPermission : string -> bool)
    (ToAPI : dbCertificate -> result apiCertificate)
    (Match : apiCertificate -> result bool) (filtered : bool)
    (baseCerts : list dbCertificate)
    (fullResults : list apiCertificate) (linkResults : list string)
  : result (list apiCertificate * list string) :=
  match baseCerts with
  | [] => Ok (fullResults, linkResults)
  | baseCert :: rest =>
      if negb (userHasPermission (db_Fingerprint baseCert)) then
        load_rows userHasPermission ToAPI Match filtered rest fullResults linkResults
      else
        match ToAPI baseCert with
        | Err e => Err e
        | Ok apiCert =>
            let add :=
              load_rows userHasPermission ToAPI Match filtered rest
                (fullResults ++ [apiCert])
                (linkResults ++ [certificate_url (api_Fingerprint apiCert)]) in
            if filtered then
              match Match apiCert with
              | Err e => Err e
              | Ok false =>
                  load_rows userHasPermission ToAPI Match filtered rest
                    fullResults linkResults
              | Ok true => add
              end
            else add
        end
  end.

(** The loops over the trusted certificates in memory. *)
Fixpoint link_certs (userHasPermission : string -> bool)
    (CertFingerprint : x509_Certificate -> string)
    (certs : list x509_Certificate) (linkResults : list string) : list string :=
  match certs with
  | [] => linkResults
  | cert :: rest =>
      let fingerprint := CertFingerprint cert in
      if negb (userHasPermission fingerprint) then
        link_certs userHasPermission CertFingerprint rest linkResults
      else
        link_certs userHasPermission CertFingerprint rest
          (linkResults ++ [certificate_url fingerprint])
  end.

Fixpoint link_trusted (userHasPermission : string -> bool)
    (CertFingerprint : x509_Certificate -> string)
    (trustedCertificates : list (list x509_Certificate)) (linkResults : list string)
  : list string :=
  match trustedCertificates with
  | [] => linkResults
  | certs :: rest =>
      link_trusted userHasPermission CertFingerprint rest
        (link_certs userHasPermission CertFingerprint certs linkResults)
  end.

(** [certificatesGet] *)
Definition certificatesGet (c : GetCall) : Response :=
  match gc_GetPermissionChecker c with
  | Err e => SmartError e
  | Ok userHasPermission =>
      let recursion := gc_recursion c in
      match gc_filter_Parse c with
      | Err e => BadRequest (wrap "Invalid filter: %w" (plain e))
      | Ok clauses =>
          let mustLoadObjects := recursion || has_clauses clauses in
          let results :=
            if mustLoadObjects then
              match gc_GetCertificates c with
              | Err e => Err e
              | Ok baseCerts =>
                  load_rows userHasPermission (gc_ToAPI c) (gc_filter_Match c)
                    (has_clauses clauses) baseCerts [] []
              end
            else
              match gc_getTrustedCertificates c with
              | Err e => Err e
              | Ok trustedCertificates =>
                  Ok ([], link_trusted userHasPermission (gc_CertFingerprint c)
                            trustedCertificates [])
              end in
          match results with
          | Err e => SmartError e
          | Ok (fullResults, linkResults) =>
              if recursion then SyncResponse fullResults else SyncLinks linkResults
          end
      end
  end.

(** The certificates of the database a listing shows: those the client
    may view and, with a filter, those that match it. *)
Definition shown (userHasPermission : string -> bool)
    (ToAPI : dbCertificate -> result apiCertificate)
    (Match : apiCertificate -> result bool) (filtered : bool)
    (baseCerts : list dbCertificate) : list apiCertificate :=
  flat_map (fun baseCert =>
              if userHasPermission (db_Fingerprint baseCert) then
                match ToAPI baseCert with
                | Ok apiCert =>
                    if filtered then
                      match Match apiCert with
                      | Ok true => [apiCert]
                      | _ => []
                      end
                    else [apiCert]
                | Err _ => []
                end
              else [])
    baseCerts.

Definition sample_get (recursion : bool) : GetCall :=
  {| gc_GetPermissionChecker := Ok (fun fingerprint => String.eqb fingerprint "abcd");
     gc_recursion := recursion;
     gc_filter_Parse := Ok (Some 1%nat);
     gc_GetCertificates :=
       Ok [ sample_row;
            {| db_Fingerprint := "0000"; db_Type := 2; db_Name := "m2";
               db_Certificate := "garbage"; db_Restricted := false;
               db_Description := EmptyString |} ];
     gc_ToAPI := fun row =>
       if String.eqb (db_Fingerprint row) "abcd" then Ok sample_entry
       else Err (external_error "no such row");
     gc_filter_Match := fun _ => Ok true;
     gc_getTrustedCertificates := Ok [];
     gc_CertFingerprint := fun _ => "abcd" |}.

End CertificateList.

(** * Properties *)

(** ** Facts about the standard library functions *)

Module GoFacts.
Import Go.

Lemma byte_of_range (c : ascii) : 0 <= byte_of c < 256.
Proof.
  unfold byte_of. pose proof (N_ascii_bounded c). lia.
Qed.










(** *** Printing then scanning a number *)

Import Backups.









Lemma append_cons (c : ascii) (s t : string) : String c s +:+ t = String c (s +:+ t).
Proof. reflexivity. Qed.






End GoFacts.

(** ** Naming of new volume backups *)

Module BackupsFacts.
Import Go GoFacts Backups.










(** The case left out above: at the largest 64-bit integer [num + 1]
    wraps around, and the outcome then depends on the order. *)
Example next_number_wraps :
  next_number "vol" ["vol/backup9223372036854775807"; "vol/backup3"] = 4
  /\ next_number "vol" ["vol/backup3"; "vol/backup9223372036854775807"] = MinInt64.
Proof. split; vm_compute; reflexivity. Qed.

(** *** Validation of backup names *)

(** C10, as stated, fails: a create request that asks for the name [a/b]
    on a volume that is not a custom volume is answered with the error
    about the volume type, not with the one about slashes. *)
Lemma slash_name_other_error :
  bp_effective_name (create_ok 1) = Some "a/b"
  /\ ContainsSlash "a/b" = true
  /\ storagePoolVolumeTypeCustomBackupsPost (create_ok 1)
     = BadRequest (fmt_Errorf "Invalid storage volume type %q" "image")
  /\ storagePoolVolumeTypeCustomBackupsPost (create_ok 1) <> BadRequest slash_error.
Proof. repeat split; try reflexivity. vm_compute. discriminate. Qed.

Section Validation.

Local Arguments generated_name : simpl never.
Local Arguments ContainsSlash : simpl never.

Lemma create_slash (c : BackupsPostCall) (name : string) :
  bp_effective_name c = Some name -> ContainsSlash name = true ->
  created (storagePoolVolumeTypeCustomBackupsPost c) = []
  /\ (bp_reaches_validation c = true ->
      storagePoolVolumeTypeCustomBackupsPost c = BadRequest slash_error).
Proof.
  unfold bp_effective_name, bp_reaches_validation, storagePoolVolumeTypeCustomBackupsPost.
  destruct c as [vn pn tn ty pr al ft gp fv gv de ma un ns oc]. cbn.
  intros Heff Hslash.
  destruct un as [req|e]; [|discriminate].
  destruct vn as [v|]; cbn; [|split; [reflexivity | discriminate]].
  destruct pn; cbn; [|split; [reflexivity | discriminate]].
  destruct tn; cbn; [|split; [reflexivity | discriminate]].
  destruct ty as [t|]; cbn; [|split; [reflexivity | discriminate]].
  destruct (t =? StoragePoolVolumeTypeCustom); cbn; [|split; [reflexivity | discriminate]].
  destruct pr; cbn; [|split; [reflexivity | discriminate]].
  destruct al; cbn; [split; [reflexivity | discriminate]|].
  destruct ft; cbn; [split; [reflexivity | discriminate]|].
  destruct gp; cbn; [|split; [reflexivity | discriminate]].
  destruct fv; cbn; [split; [reflexivity | discriminate]|].
  destruct gv; cbn; [|split; [reflexivity | discriminate]].
  destruct de; cbn; [split; [reflexivity | discriminate]|].
  destruct ma; cbn; [split; [reflexivity | discriminate]|].
  destruct (is_empty (Name req)) eqn:He.
  - destruct ns as [bs|]; [|discriminate]. injection Heff as <-.
    cbn. rewrite Hslash. cbn. split; reflexivity.
  - injection Heff as <-. cbn. rewrite Hslash. cbn. split; reflexivity.
Qed.

Lemma rename_slash (c : BackupPostCall) (name : string) :
  rp_effective_name c = Some name -> ContainsSlash name = true ->
  created (storagePoolVolumeTypeCustomBackupPost c) = []
  /\ (rp_reaches_validation c = true ->
      storagePoolVolumeTypeCustomBackupPost c = BadRequest slash_error).
Proof.
  unfold rp_effective_name, rp_reaches_validation, storagePoolVolumeTypeCustomBackupPost.
  destruct c as [vn pn tn bn ty pr ft fv de lo oc]. cbn.
  intros Heff Hslash.
  destruct de as [reqName|e]; [|discriminate]. injection Heff as <-.
  destruct vn as [v|]; cbn; [|split; [reflexivity | discriminate]].
  destruct pn; cbn; [|split; [reflexivity | discriminate]].
  destruct tn; cbn; [|split; [reflexivity | discriminate]].
  destruct bn; cbn; [|split; [reflexivity | discriminate]].
  destruct ty as [t|]; cbn; [|split; [reflexivity | discriminate]].
  destruct (t =? StoragePoolVolumeTypeCustom); cbn; [|split; [reflexivity | discriminate]].
  destruct pr; cbn; [|split; [reflexivity | discriminate]].
  destruct ft; cbn; [split; [reflexivity | discriminate]|].
  destruct fv; cbn; [split; [reflexivity | discriminate]|].
  rewrite Hslash. cbn. split; reflexivity.
Qed.

End Validation.



(** C10, amended: a create or rename request whose effective backup
    name contains a slash never creates a background operation; and when
    it passes every step that precedes the validation of the name (path
    variables, volume type, project, forwarding to another cluster
    member, pool and volume lookup, decoding of the body), the answer is
    [BadRequest] with the message "Backup names may not contain
    slashes". *)
Theorem slash_names_rejected :
  (forall c name,
      bp_effective_name c = Some name -> ContainsSlash name = true ->
      created (storagePoolVolumeTypeCustomBackupsPost c) = []
      /\ (bp_reaches_validation c = true ->
          storagePoolVolumeTypeCustomBackupsPost c = BadRequest slash_error))
  /\ (forall c name,
         rp_effective_name c = Some name -> ContainsSlash name = true ->
         created (storagePoolVolumeTypeCustomBackupPost c) = []
         /\ (rp_reaches_validation c = true ->
             storagePoolVolumeTypeCustomBackupPost c = BadRequest slash_error)).
Proof. split; [exact create_slash | exact rename_slash]. Qed.

Lemma slash_names_rejected_witness :
  storagePoolVolumeTypeCustomBackupsPost (create_ok StoragePoolVolumeTypeCustom)
  = BadRequest slash_error
  /\ storagePoolVolumeTypeCustomBackupPost rename_ok = BadRequest slash_error.
Proof.
  split.
  - apply (proj1 slash_names_rejected (create_ok StoragePoolVolumeTypeCustom) "a/b");
      reflexivity.
  - apply (proj2 slash_names_rejected rename_ok "a/b"); reflexivity.
Defined.

End BackupsFacts.

(** ** Certificate validation *)

Module CertificatesFacts.
Import Go Certificates.

(** When [certificateValidate] returns an error, in terms of what it
    computes: the size test is on the modulus size in bytes. *)
Lemma certificateValidate_error_iff (now1 now2 : Z) (cert : Certificate) :
  certificateValidate now1 now2 cert <> None
  <-> now1 < NotBefore cert \/ NotAfter cert < now2
      \/ (PublicKeyAlgorithm_of cert = RSA
          /\ match PublicKey_of cert with
             | rsa_PublicKey N _ => Size N * 8 < 2048
             | _ => True
             end).
Proof.
  unfold certificateValidate.
  destruct (Z.ltb_spec now1 (NotBefore cert)) as [H1|H1].
  { split; [intros _; now left | discriminate]. }
  destruct (Z.ltb_spec (NotAfter cert) now2) as [H2|H2].
  { split; [intros _; right; now left | discriminate]. }
  destruct (PublicKeyAlgorithm_of cert) eqn:Halg; cbn [is_RSA];
    try (split; [congruence | intros [?|[?|[? _]]]; [lia | lia | discriminate]]).
  destruct (PublicKey_of cert) as [N E| | |];
    try (split; [intros _; right; right; split; [reflexivity | exact I] | discriminate]).
  destruct (Z.ltb_spec (Size N * 8) 2048) as [H3|H3].
  - split; [intros _; right; right; now split | discriminate].
  - split; [congruence | intros [?|[?|[_ ?]]]; lia].
Qed.

(** A time-valid certificate whose key is not an RSA key of an RSA
    certificate is accepted, whatever the key. *)
Lemma certificateValidate_non_RSA (now1 now2 : Z) (cert : Certificate) :
  NotBefore cert <= now1 -> now2 <= NotAfter cert ->
  PublicKeyAlgorithm_of cert <> RSA ->
  certificateValidate now1 now2 cert = None.
Proof.
  intros H1 H2 Halg. unfold certificateValidate.
  destruct (Z.ltb_spec now1 (NotBefore cert)); [lia|].
  destruct (Z.ltb_spec (NotAfter cert) now2); [lia|].
  destruct (PublicKeyAlgorithm_of cert); try reflexivity. congruence.
Qed.

(** C9 at its failing input: a time-valid RSA certificate whose modulus
    has 2047 bits has fewer than 2048 bits, so the stated condition for an
    error holds, yet [certificateValidate] returns no error: the size in
    bytes rounds up to 256, and 256 * 8 is not below 2048. *)
Theorem certificateValidate_accepts_2047_bits :
  rsa_key_bits (PublicKey_of cert_2047) = Some 2047
  /\ claimed_invalid 500 cert_2047
  /\ certificateValidate 500 500 cert_2047 = None.
Proof.
  split; [vm_compute; reflexivity|]. split; [|vm_compute; reflexivity].
  right. right. split; [reflexivity|].
  replace (rsa_key_bits (PublicKey_of cert_2047)) with (Some 2047)
    by (vm_compute; reflexivity).
  lia.
Qed.

End CertificatesFacts.

(** ** The declarations of the instance contract *)

Module InstanceInterfaceFacts.
Import InstanceInterface.

(** C3, as stated, fails: the control channel is supplied as
    [ControlSend], a function of a protocol message, which takes no
    context. *)
Lemma control_channel_takes_no_context :
  ~ (forall ch f, In f (channel_fields ch) ->
       exists t, field_type (s_fields MigrateArgs) f = Some t /\ takes_context t = true).
Proof.
  intros H. destruct (H Control "ControlSend") as (t & Ht & Hctx); [now left|].
  vm_compute in Ht. injection Ht as <-. discriminate Hctx.
Qed.

(** C3, amended: the state and the filesystem channel are each
    established by a caller-supplied function that takes a cancellation
    context and returns a connection or an error; the control channel is
    supplied as a send and a receive function, each taking a protocol
    message and returning an error, neither taking a context. *)
Theorem channel_signatures :
  map (field_type (s_fields MigrateArgs)) (channel_fields State)
  = [Some (TFunc [TNamed "context" "Context"] [TNamed "io" "ReadWriteCloser"; TError])]
  /\ map (field_type (s_fields MigrateArgs)) (channel_fields Filesystem)
     = [Some (TFunc [TNamed "context" "Context"] [TNamed "io" "ReadWriteCloser"; TError])]
  /\ map (field_type (s_fields MigrateArgs)) (channel_fields Control)
     = [Some (TFunc [TNamed "proto" "Message"] [TError]);
        Some (TFunc [TNamed "proto" "Message"] [TError])]
  /\ map (fun f => option_map takes_context (field_type (s_fields MigrateArgs) f))
       (channel_fields Control ++ channel_fields State ++ channel_fields Filesystem)
     = [Some false; Some false; Some true; Some true].
Proof. repeat split. Qed.



(** C5, as stated, fails: the arguments of a send carry no instance
    identity (the instance is the receiver of [MigrateSend]). *)
Lemma send_arguments_without_identity :
  ~ (forall c, In c descriptor_components <->
               In (Some c) (carried_components (all_fields 1 MigrateSendArgs))).
Proof.
  intros H. destruct (H InstanceIdentity) as [Hin _].
  specialize (Hin ltac:(now left)). vm_compute in Hin.
  repeat (destruct Hin as [Hin|Hin]; [discriminate Hin|]). exact Hin.
Qed.

(** C5, amended: the arguments passed to [MigrateSend], by value, are
    ten fields: the control send and receive functions, the state and
    filesystem connection functions, the snapshots flag, the live flag, a
    disconnect callback, the cluster-move source name, the storage pool
    name and the flag that accepts an inconsistent copy; there is no
    field for the instance identity. *)
Theorem send_arguments :
  map f_name (all_fields 1 MigrateSendArgs)
  = ["ControlSend"; "ControlReceive"; "StateConn"; "FilesystemConn"; "Snapshots";
     "Live"; "Disconnect"; "ClusterMoveSourceName"; "StoragePool"; "AllowInconsistent"]
  /\ carried_components (all_fields 1 MigrateSendArgs)
     = map Some [ChannelOf Control; ChannelOf Control; ChannelOf State;
                 ChannelOf Filesystem; SnapshotsIncluded; LiveTransfer;
                 DisconnectCallback; ClusterMoveSource; StoragePoolReference;
                 InconsistentCopyAcceptable]
  /\ map (field_type (all_fields 1 MigrateSendArgs))
       ["Snapshots"; "Live"; "AllowInconsistent"; "ClusterMoveSourceName"; "StoragePool";
        "Disconnect"]
     = [Some TBool; Some TBool; Some TBool; Some TString; Some TString;
        Some (TFunc [] [])]
  /\ option_map m_params (method (all_methods 2 Instance) "MigrateSend")
     = Some [TNamed "" "MigrateSendArgs"].
Proof. repeat split. Qed.

(** C6, as stated, fails: however the members of the checkpoint
    arguments are ordered, they are not a process handle, two directories
    and one boolean; there are nine of them. *)
Lemma checkpoint_arguments_differ :
  ~ (exists fs, Permutation fs (s_fields CriuMigrationArgs)
                /\ Forall2 (fun f a => match snd a with
                                       | Some t => f_type f = t
                                       | None => True
                                       end) fs dump_arguments).
Proof.
  intros (fs & Hperm & Hall).
  apply Permutation_length in Hperm. apply Forall2_length in Hall.
  rewrite Hall in Hperm. discriminate Hperm.
Qed.

(** C6, amended: the arguments of a checkpoint operation are nine
    fields: an unsigned command code that selects the operation, the state
    directory, a function name, a stop flag, an action-script flag, a dump
    directory, the pre-dump directory, the feature set and the operation
    lock of the instance; the only booleans are [Stop] and [ActionScript],
    and there is no process handle and no iterative flag. *)
Theorem checkpoint_arguments :
  map f_name (s_fields CriuMigrationArgs)
  = ["Cmd"; "StateDir"; "Function"; "Stop"; "ActionScript"; "DumpDir"; "PreDumpDir";
     "Features"; "Op"]
  /\ map (field_type (s_fields CriuMigrationArgs))
       ["Cmd"; "StateDir"; "Function"; "DumpDir"; "PreDumpDir"; "Features"; "Op"]
     = [Some TUint; Some TString; Some TString; Some TString; Some TString;
        Some (TNamed "liblxc" "CriuFeatures");
        Some (TPointer (TNamed "operationlock" "InstanceOperation"))]
  /\ map f_name (filter (fun f => is_TBool (f_type f)) (s_fields CriuMigrationArgs))
     = ["Stop"; "ActionScript"]
  /\ map (field_type (s_fields CriuMigrationArgs)) ["Iterative"; "ProcessHandle"; "Pid"]
     = [None; None; None].
Proof. repeat split. Qed.

End InstanceInterfaceFacts.

(** ** The operation lock *)

Module OperationLockFacts.
Import Go OperationLock.

Lemma consistent_empty : consistent empty_registry.
Proof. split; cbn; intros *; rewrite ?lookup_empty; discriminate. Qed.

(** A fresh lock keeps the registry consistent when no live lock is
    held for the instance. *)
Lemma consistent_fresh_lock (reg : Registry) (i a : string) :
  consistent reg ->
  (forall h l, locks reg !! h = Some l -> lock_instance l = i ->
               terminal (lock_state l) = true) ->
  consistent (fst (fresh_lock reg i a)).
Proof.
  intros [I1 I2 I3 I4] Hfree. split; cbn.
  - intros h l Hl Hlive. destruct (decide (h = next_handle reg)) as [->|Hne].
    + rewrite lookup_insert_eq in Hl. injection Hl as <-. cbn.
      apply lookup_insert_eq.
    + rewrite lookup_insert_ne in Hl by congruence.
      destruct (decide (lock_instance l = i)) as [Hi|Hi].
      * rewrite (Hfree h l Hl Hi) in Hlive. discriminate.
      * rewrite lookup_insert_ne by congruence. now apply I1.
  - intros h l Hl. destruct (decide (h = next_handle reg)) as [->|Hne]; [lia|].
    rewrite lookup_insert_ne in Hl by congruence. specialize (I2 h l Hl). lia.
  - intros j h l Hj Hl. destruct (decide (j = i)) as [->|Hji].
    + rewrite lookup_insert_eq in Hj. injection Hj as <-.
      rewrite lookup_insert_eq in Hl. now injection Hl as <-.
    + rewrite lookup_insert_ne in Hj by congruence.
      pose proof (I4 j h Hj) as Hlt.
      rewrite lookup_insert_ne in Hl by lia. now apply (I3 j h).
  - intros j h Hj. destruct (decide (j = i)) as [->|Hji].
    + rewrite lookup_insert_eq in Hj. injection Hj as <-. lia.
    + rewrite lookup_insert_ne in Hj by congruence. specialize (I4 j h Hj). lia.
Qed.

(** In a consistent registry, [Acquire] takes a fresh lock only when no
    live lock is held for the instance. *)
Lemma consistent_Acquire (reg : Registry) (i a : string) :
  consistent reg -> consistent (fst (Acquire reg i a)).
Proof.
  intros Hc. pose proof Hc as [I1 I2 I3 I4]. unfold Acquire.
  destruct (current reg !! i) as [h0|] eqn:Hcur.
  - destruct (locks reg !! h0) as [l0|] eqn:Hl0.
    + destruct (terminal (lock_state l0)) eqn:Ht0.
      * apply consistent_fresh_lock; [assumption|].
        intros h l Hl Hi. destruct (terminal (lock_state l)) eqn:Ht; [reflexivity|].
        pose proof (I1 h l Hl Ht) as Hcur'. rewrite Hi, Hcur in Hcur'.
        injection Hcur' as ->. congruence.
      * destruct (String.eqb (lock_action l0) a); exact Hc.
    + apply consistent_fresh_lock; [assumption|].
      intros h l Hl Hi. destruct (terminal (lock_state l)) eqn:Ht; [reflexivity|].
      pose proof (I1 h l Hl Ht) as Hcur'. rewrite Hi, Hcur in Hcur'.
      injection Hcur' as ->. congruence.
  - apply consistent_fresh_lock; [assumption|].
    intros h l Hl Hi. destruct (terminal (lock_state l)) eqn:Ht; [reflexivity|].
    pose proof (I1 h l Hl Ht) as Hcur'. rewrite Hi, Hcur in Hcur'. discriminate.
Qed.

(** A change of state keeps the registry consistent when it does not
    bring a terminal lock back to life. *)
Lemma consistent_set_state (reg : Registry) (h : nat) (l : InstanceOperationLock)
    (st : State) (e : option LockError) :
  consistent reg -> locks reg !! h = Some l ->
  (terminal (lock_state l) = true -> terminal st = true) ->
  consistent (set_state reg h l st e).
Proof.
  intros [I1 I2 I3 I4] Hl Hst. split; cbn.
  - intros h' l' Hl' Hlive. destruct (decide (h' = h)) as [->|Hne].
    + rewrite lookup_insert_eq in Hl'. injection Hl' as <-. cbn in *.
      apply I1; [assumption|].
      destruct (terminal (lock_state l)); [|reflexivity].
      rewrite Hst in Hlive by reflexivity. discriminate.
    + rewrite lookup_insert_ne in Hl' by congruence. now apply I1.
  - intros h' l' Hl'. destruct (decide (h' = h)) as [->|Hne]; [now apply (I2 h l)|].
    rewrite lookup_insert_ne in Hl' by congruence. now apply (I2 h' l').
  - intros j h' l' Hj Hl'. destruct (decide (h' = h)) as [->|Hne].
    + rewrite lookup_insert_eq in Hl'. injection Hl' as <-. cbn. now apply (I3 j h).
    + rewrite lookup_insert_ne in Hl' by congruence. now apply (I3 j h').
  - exact I4.
Qed.

Lemma consistent_Prune (reg : Registry) (h : nat) :
  consistent reg -> consistent (Prune reg h).
Proof.
  intros Hc. pose proof Hc as [I1 I2 I3 I4]. unfold Prune.
  destruct (locks reg !! h) as [l|] eqn:Hl; [|exact Hc].
  destruct (terminal (lock_state l)) eqn:Ht; [|exact Hc].
  assert (Hcur : forall j h',
             (if bool_decide (current reg !! lock_instance l = Some h)
              then delete (lock_instance l) (current reg)
              else current reg) !! j = Some h' -> current reg !! j = Some h').
  { intros j h'. case_bool_decide; [|trivial].
    destruct (decide (j = lock_instance l)) as [->|Hj].
    - rewrite lookup_delete_eq. discriminate.
    - now rewrite lookup_delete_ne by congruence. }
  split; cbn.
  - intros h' l' Hl' Hlive. destruct (decide (h' = h)) as [->|Hne].
    + rewrite lookup_delete_eq in Hl'. discriminate.
    + rewrite lookup_delete_ne in Hl' by congruence.
      pose proof (I1 h' l' Hl' Hlive) as Hcur'.
      case_bool_decide as Hd; [|assumption].
      destruct (decide (lock_instance l' = lock_instance l)) as [Heq|Hi].
      * rewrite Heq, Hd in Hcur'. congruence.
      * now rewrite lookup_delete_ne by congruence.
  - intros h' l' Hl'. destruct (decide (h' = h)) as [->|Hne].
    + rewrite lookup_delete_eq in Hl'. discriminate.
    + rewrite lookup_delete_ne in Hl' by congruence. now apply (I2 h' l').
  - intros j h' l' Hj Hl'. apply Hcur in Hj.
    destruct (decide (h' = h)) as [->|Hne].
    + rewrite lookup_delete_eq in Hl'. discriminate.
    + rewrite lookup_delete_ne in Hl' by congruence. now apply (I3 j h').
  - intros j h' Hj. apply Hcur in Hj. now apply (I4 j h').
Qed.

Lemma consistent_call (reg : Registry) (c : Call) :
  consistent reg -> consistent (call reg c).
Proof.
  intros Hc. destruct c as [i a|h|h err|h|h]; cbn [call].
  - now apply consistent_Acquire.
  - unfold MarkRunning. destruct (locks reg !! h) as [l|] eqn:Hl; [|exact Hc].
    destruct (lock_state l) eqn:Hst; cbn; try exact Hc.
    apply consistent_set_state; [assumption..|]. rewrite Hst. discriminate.
  - unfold Done. destruct (locks reg !! h) as [l|] eqn:Hl; [|exact Hc].
    destruct (lock_state l) eqn:Hst; try exact Hc.
    destruct err; apply consistent_set_state; auto.
  - unfold Reset. destruct (locks reg !! h) as [l|] eqn:Hl; [|exact Hc].
    destruct (terminal (lock_state l)) eqn:Ht; [exact Hc|].
    apply consistent_set_state; auto.
  - now apply consistent_Prune.
Qed.

Lemma consistent_after (calls : list Call) : consistent (after calls).
Proof.
  unfold after. generalize consistent_empty. generalize empty_registry.
  induction calls as [|c calls IH]; intros reg Hc; cbn [fold_left]; [exact Hc|].
  apply IH. now apply consistent_call.
Qed.

(** C1: after any sequence of calls on the registry, at most one lock
    that is not terminal exists for each instance; while such a lock is
    held, [Acquire] for the instance leaves the registry as it is and
    returns the existing handle when the action kind is the same, and
    [LockConflict] when it differs; and once every lock of the instance is
    terminal (Succeeded or Failed), [Acquire] succeeds with a new lock in
    state Pending. *)
Theorem one_live_lock_per_instance (calls : list Call) :
  (forall h1 h2 l1 l2,
      locks (after calls) !! h1 = Some l1 -> locks (after calls) !! h2 = Some l2 ->
      lock_instance l1 = lock_instance l2 ->
      terminal (lock_state l1) = false -> terminal (lock_state l2) = false ->
      h1 = h2)
  /\ (forall h l action,
         locks (after calls) !! h = Some l -> terminal (lock_state l) = false ->
         Acquire (after calls) (lock_instance l) action
         = (after calls,
            if String.eqb (lock_action l) action then AwaitExisting h
            else Refused LockConflict))
  /\ (forall instanceID action,
         (forall h l, locks (after calls) !! h = Some l -> lock_instance l = instanceID ->
                      terminal (lock_state l) = true) ->
         exists reg' h,
           Acquire (after calls) instanceID action = (reg', Granted h)
           /\ locks (after calls) !! h = None
           /\ locks reg' !! h = Some {| lock_instance := instanceID; lock_action := action;
                                        lock_state := Pending; lock_error := None |}
           /\ current reg' !! instanceID = Some h).
Proof.
  pose proof (consistent_after calls) as Hc. set (reg := after calls) in *.
  pose proof Hc as [I1 I2 I3 I4]. split; [|split].
  - intros h1 h2 l1 l2 H1 H2 Hi Ht1 Ht2.
    pose proof (I1 h1 l1 H1 Ht1) as Hc1. pose proof (I1 h2 l2 H2 Ht2) as Hc2.
    rewrite Hi in Hc1. congruence.
  - intros h l a Hl Ht. unfold Acquire.
    rewrite (I1 h l Hl Ht), Hl, Ht.
    now destruct (String.eqb (lock_action l) a).
  - intros i a Hfree.
    assert (Hnew : locks reg !! next_handle reg = None).
    { destruct (locks reg !! next_handle reg) as [l|] eqn:Hl; [|reflexivity].
      specialize (I2 _ _ Hl). lia. }
    assert (Hfresh : exists reg' h,
               fresh_lock reg i a = (reg', Granted h)
               /\ locks reg !! h = None
               /\ locks reg' !! h = Some {| lock_instance := i; lock_action := a;
                                            lock_state := Pending; lock_error := None |}
               /\ current reg' !! i = Some h).
    { eexists _, _. split; [reflexivity|]. split; [exact Hnew|].
      cbn. now rewrite !lookup_insert_eq. }
    unfold Acquire. destruct (current reg !! i) as [h0|] eqn:Hcur; [|exact Hfresh].
    destruct (locks reg !! h0) as [l0|] eqn:Hl0; [|exact Hfresh].
    rewrite (Hfree h0 l0 Hl0 (I3 i h0 l0 Hcur Hl0)). exact Hfresh.
Qed.

Lemma one_live_lock_per_instance_witness :
  Acquire (after [CallAcquire "c1" "start"]) "c1" "stop"
  = (after [CallAcquire "c1" "start"], Refused LockConflict)
  /\ Acquire (after [CallAcquire "c1" "start"]) "c1" "start"
     = (after [CallAcquire "c1" "start"], AwaitExisting 0%nat)
  /\ exists reg' h,
       Acquire (after [CallAcquire "c1" "start"; CallMarkRunning 0; CallDone 0 None])
         "c1" "stop" = (reg', Granted h).
Proof.
  split; [|split].
  - apply (proj1 (proj2 (one_live_lock_per_instance [CallAcquire "c1" "start"]))
             0%nat {| lock_instance := "c1"; lock_action := "start";
                      lock_state := Pending; lock_error := None |} "stop");
      vm_compute; reflexivity.
  - apply (proj1 (proj2 (one_live_lock_per_instance [CallAcquire "c1" "start"]))
             0%nat {| lock_instance := "c1"; lock_action := "start";
                      lock_state := Pending; lock_error := None |} "start");
      vm_compute; reflexivity.
  - destruct (proj2 (proj2 (one_live_lock_per_instance
                 [CallAcquire "c1" "start"; CallMarkRunning 0; CallDone 0 None]))
                "c1" "stop") as (reg' & h & Hacq & _).
    + intros h l Hl _. destruct h as [|h].
      * vm_compute in Hl. injection Hl as <-. reflexivity.
      * exfalso. apply (locks_below_next _ (consistent_after _)) in Hl.
        change (S h < 1)%nat in Hl. lia.
    + now exists reg', h.
Defined.

End OperationLockFacts.

(** ** Moves within a cluster *)

Module ClusterMoveFacts.
Import ClusterMove.



















End ClusterMoveFacts.

(** ** More on the naming of new volume backups *)

Module BackupNamingFacts.
Import Go GoFacts Backups BackupsFacts.









End BackupNamingFacts.

(** ** The handlers of custom volume backups *)

Module BackupHandlersFacts.
Import Go GoFacts Backups BackupsFacts BackupHandlers.

Ltac case_steps H :=
  repeat match type of H with
         | context [match ?x with _ => _ end] => destruct x eqn:?; try discriminate H
         end.

Ltac open_handler H :=
  unfold run, bind, or_return, check, forward, return_if in H.

Lemma Split_slash_no_slash (s : string) :
  ContainsSlash s = false -> Split_slash s = [s].
Proof.
  induction s as [|c t IH]; [reflexivity|]. cbn [ContainsSlash Split_slash].
  destruct (Ascii.eqb c "/"); [discriminate|]. intros Ht. now rewrite IH.
Qed.

Lemma Split_slash_first (v rest : string) :
  ContainsSlash v = false ->
  Split_slash (v +:+ SnapshotDelimiter +:+ rest) = v :: Split_slash rest.
Proof.
  induction v as [|c t IH]; [reflexivity|]. cbn [ContainsSlash].
  rewrite append_cons. cbn [Split_slash].
  destruct (Ascii.eqb c "/"); [discriminate|]. intros Ht. now rewrite IH.
Qed.

Section Handlers.

Local Arguments generated_name : simpl never.
Local Arguments ContainsSlash : simpl never.

(** The shape of the operation the create handler registers. *)
Lemma create_operation_only_after_checks_aux (c : BackupsPostCall) (op : Operation) :
  storagePoolVolumeTypeCustomBackupsPost c = OperationResponse op ->
  exists volumeName name volumeID req,
    bp_volumeName c = Ok volumeName /\ ContainsSlash name = false
    /\ op = {| op_type := CustomVolumeBackupCreate;
               op_backup_resource := name;
               op_run := backup_task (volumeName +:+ SnapshotDelimiter +:+ name)
                           volumeID req |}.
Proof.
  unfold storagePoolVolumeTypeCustomBackupsPost.
  destruct c as [vn pn tn ty pr al ft gp fv gv de ma un ns oc]. cbn.
  intros H. open_handler H.
  destruct vn as [v|]; [|discriminate]. destruct pn; [|discriminate].
  destruct tn; [|discriminate]. destruct ty as [t|]; [|discriminate].
  destruct (t =? StoragePoolVolumeTypeCustom) eqn:Ht; [|discriminate]. cbn in H.
  destruct pr; [|discriminate]. destruct al; [discriminate|].
  destruct ft; [discriminate|]. destruct gp; [|discriminate].
  destruct fv; [discriminate|]. destruct gv as [vid|]; [|discriminate].
  destruct de; [discriminate|]. destruct ma; [discriminate|].
  destruct un as [req|]; [|discriminate].
  destruct (is_empty (Name req)) eqn:He.
  - destruct ns as [bs|]; [|discriminate]. cbn in H.
    destruct (ContainsSlash (generated_name v bs)) eqn:Hs; [discriminate|].
    destruct oc; [discriminate|]. injection H as <-.
    exists v, (generated_name v bs), vid, (with_name req (generated_name v bs)).
    repeat split; assumption.
  - destruct (ContainsSlash (Name req)) eqn:Hs; [discriminate|].
    destruct oc; [discriminate|]. injection H as <-.
    exists v, (Name req), vid, req. repeat split; assumption.
Qed.

(** X4: the create handler registers an operation only when every
    check has passed: the volume is a custom volume, the project allows
    backups, the request is not for another cluster member, the pool and
    the volume exist and the body decodes; the backup it will create is
    named [volumeName/name], where the effective name has no slash. *)
Theorem create_operation_only_after_checks (c : BackupsPostCall) (op : Operation) :
  storagePoolVolumeTypeCustomBackupsPost c = OperationResponse op ->
  bp_reaches_validation c = true
  /\ bp_OperationCreate c = None
  /\ exists volumeName name volumeID req,
       bp_volumeName c = Ok volumeName
       /\ bp_GetStoragePoolVolume c = Ok volumeID
       /\ bp_effective_name c = Some name
       /\ ContainsSlash name = false
       /\ Name req = name
       /\ op = {| op_type := CustomVolumeBackupCreate;
                  op_backup_resource := name;
                  op_run := backup_task (volumeName +:+ SnapshotDelimiter +:+ name)
                              volumeID req |}.
Proof.
  unfold storagePoolVolumeTypeCustomBackupsPost, bp_reaches_validation, bp_effective_name.
  destruct c as [vn pn tn ty pr al ft gp fv gv de ma un ns oc]. cbn.
  intros H. open_handler H.
  destruct vn as [v|]; [|discriminate]. destruct pn; [|discriminate].
  destruct tn; [|discriminate]. destruct ty as [t|]; [|discriminate].
  destruct (t =? StoragePoolVolumeTypeCustom) eqn:Ht; [|discriminate]. cbn in H.
  destruct pr; [|discriminate]. destruct al; [discriminate|].
  destruct ft; [discriminate|]. destruct gp; [|discriminate].
  destruct fv; [discriminate|]. destruct gv as [vid|]; [|discriminate].
  destruct de; [discriminate|]. destruct ma; [discriminate|].
  destruct un as [req|]; [|discriminate]. cbn. rewrite Ht. cbn.
  destruct (is_empty (Name req)) eqn:He.
  - destruct ns as [bs|]; [|discriminate]. cbn in H.
    destruct (ContainsSlash (generated_name v bs)) eqn:Hs; [discriminate|].
    destruct oc; [discriminate|]. injection H as <-.
    split; [reflexivity|]. split; [reflexivity|].
    exists v, (generated_name v bs), vid, (with_name req (generated_name v bs)).
    repeat split; assumption.
  - destruct (ContainsSlash (Name req)) eqn:Hs; [discriminate|].
    destruct oc; [discriminate|]. injection H as <-.
    split; [reflexivity|]. split; [reflexivity|].
    exists v, (Name req), vid, req. repeat split; assumption.
Qed.

Lemma create_operation_only_after_checks_witness :
  bp_reaches_validation
    {| bp_volumeName := Ok "vol"; bp_poolName := Ok "default";
       bp_volumeTypeName := Ok "custom";
       bp_VolumeTypeNameToDBType := Ok StoragePoolVolumeTypeCustom;
       bp_StorageVolumeProject := Ok "default"; bp_AllowBackupCreation := None;
       bp_forwardedIfTargetIsRemote := None; bp_GetStoragePool := Ok 1;
       bp_forwardedIfVolumeIsRemote := None; bp_GetStoragePoolVolume := Ok 7;
       bp_Decode := None; bp_Marshal := None;
       bp_Unmarshal := Ok {| Name := "nightly"; ExpiresAt := 0; VolumeOnly := false;
                             OptimizedStorage := false; CompressionAlgorithm := "";
                             Target := None |};
       bp_GetStoragePoolVolumeBackupsNames := Ok [];
       bp_OperationCreate := None |} = true.
Proof.
  eapply (proj1 (create_operation_only_after_checks _ _ _)).
  Unshelve. 2: reflexivity.
Defined.



(** X6: the rename handler registers an operation exactly when every
    earlier check passes, the new name has no slash, the backup
    [volumeName/backupName] loads and the operation can be created; the
    operation renames that backup to [volumeName/newName].  The slash test
    is the only test on the new name. *)
Theorem rename_operation_iff (c : BackupPostCall) (op : Operation) :
  storagePoolVolumeTypeCustomBackupPost c = OperationResponse op
  <-> rp_reaches_validation c = true
      /\ rp_LoadByName c = None /\ rp_OperationCreate c = None
      /\ exists volumeName backupName newName,
           rp_volumeName c = Ok volumeName /\ rp_backupName c = Ok backupName
           /\ rp_Decode c = Ok newName /\ ContainsSlash newName = false
           /\ op = {| op_type := CustomVolumeBackupRename;
                      op_backup_resource := volumeName +:+ SnapshotDelimiter +:+ backupName;
                      op_run := rename_task
                                  (volumeName +:+ SnapshotDelimiter +:+ backupName)
                                  (volumeName +:+ SnapshotDelimiter +:+ newName) |}.
Proof.
  unfold storagePoolVolumeTypeCustomBackupPost, rp_reaches_validation.
  destruct c as [vn pn tn bn ty pr ft fv de lo oc]. cbn. split.
  - intros H. open_handler H.
    destruct vn as [v|]; [|discriminate]. destruct pn; [|discriminate].
    destruct tn; [|discriminate]. destruct bn as [b|]; [|discriminate].
    destruct ty as [t|]; [|discriminate].
    destruct (t =? StoragePoolVolumeTypeCustom) eqn:Ht; [|discriminate]. cbn in H.
    destruct pr; [|discriminate]. destruct ft; [discriminate|].
    destruct fv; [discriminate|]. destruct de as [n|]; [|discriminate].
    destruct (ContainsSlash n) eqn:Hs; [discriminate|].
    destruct lo; [discriminate|]. destruct oc; [discriminate|].
    injection H as <-. cbn. rewrite Ht.
    repeat (split; [reflexivity|]). exists v, b, n. repeat split. exact Hs.
  - intros (Hreach & -> & -> & v & b & n & -> & -> & -> & Hs & ->).
    repeat (apply andb_true_iff in Hreach as [Hreach ?]).
    destruct pn; [|discriminate]. destruct tn; [|discriminate].
    destruct ty as [t|]; [|discriminate]. destruct pr; [|discriminate].
    destruct ft; [discriminate|]. destruct fv; [discriminate|].
    match goal with H : is_custom _ = true |- _ => cbn in H; cbn; rewrite H end.
    cbn. rewrite Hs. reflexivity.
Qed.

Lemma rename_operation_iff_witness :
  storagePoolVolumeTypeCustomBackupPost
    {| rp_volumeName := Ok "vol"; rp_poolName := Ok "default";
       rp_volumeTypeName := Ok "custom"; rp_backupName := Ok "backup0";
       rp_VolumeTypeNameToDBType := Ok StoragePoolVolumeTypeCustom;
       rp_StorageVolumeProject := Ok "default";
       rp_forwardedIfTargetIsRemote := None; rp_forwardedIfVolumeIsRemote := None;
       rp_Decode := Ok "weekly"; rp_LoadByName := None; rp_OperationCreate := None |}
  = OperationResponse
      {| op_type := CustomVolumeBackupRename;
         op_backup_resource := "vol" +:+ SnapshotDelimiter +:+ "backup0";
         op_run := rename_task ("vol" +:+ SnapshotDelimiter +:+ "backup0")
                     ("vol" +:+ SnapshotDelimiter +:+ "weekly") |}.
Proof.
  apply rename_operation_iff.
  repeat (split; [reflexivity|]). exists "vol", "backup0", "weekly". repeat split.
Defined.

(** What it takes for the three handlers of one backup to load it. *)
Lemma load_backup_inr {E : Type} (c : BackupCall E) (l : Loaded E) :
  load_backup c = inr l
  <-> bc_volumeName c = Ok (ld_volumeName l)
      /\ bc_poolName c = Ok (ld_poolName l)
      /\ bc_volumeTypeName c = Ok (ld_volumeTypeName l)
      /\ bc_backupName c = Ok (ld_backupName l)
      /\ bc_VolumeTypeNameToDBType c = Ok StoragePoolVolumeTypeCustom
      /\ bc_StorageVolumeProject c = Ok (ld_projectName l)
      /\ bc_forwardedIfTargetIsRemote c = None
      /\ bc_forwardedIfVolumeIsRemote c = None
      /\ ld_fullName l = ld_volumeName l +:+ SnapshotDelimiter +:+ ld_backupName l
      /\ bc_LoadByName c (ld_projectName l) (ld_poolName l) (ld_fullName l)
         = Ok (ld_entry l).
Proof.
  unfold load_backup.
  destruct c as [vn pn tn bn ty pr ft fv lo oc]. cbn. split.
  - intros H. open_handler H.
    destruct vn as [v|]; [|discriminate]. destruct pn as [p|]; [|discriminate].
    destruct tn as [tyn|]; [|discriminate]. destruct bn as [b|]; [|discriminate].
    destruct ty as [t|]; [|discriminate].
    destruct (Z.eqb_spec t StoragePoolVolumeTypeCustom) as [->|]; [|discriminate].
    cbn in H. destruct pr as [proj|]; [|discriminate]. destruct ft; [discriminate|].
    destruct fv; [discriminate|].
    destruct (lo proj p (v +:+ SnapshotDelimiter +:+ b)) as [e|] eqn:Hlo; [|discriminate].
    injection H as <-. cbn. repeat split. exact Hlo.
  - destruct l as [v p tyn b proj full e]. cbn.
    intros (-> & -> & -> & -> & -> & -> & -> & -> & -> & Hlo). cbn.
    now rewrite Hlo.
Qed.

(** X7: the delete handler registers a removal only for a backup that
    exists: the removal holds the entry loaded under
    [volumeName/backupName] for a custom volume of this member, announces
    that full name, and names the backup's URL as its resource. *)
Theorem delete_only_loaded_backup {E : Type} (c : BackupCall E) (op : RemoveOperation E) :
  storagePoolVolumeTypeCustomBackupDelete c = inr op ->
  exists volumeName poolName volumeTypeName backupName projectName,
    bc_volumeName c = Ok volumeName /\ bc_poolName c = Ok poolName
    /\ bc_volumeTypeName c = Ok volumeTypeName /\ bc_backupName c = Ok backupName
    /\ bc_StorageVolumeProject c = Ok projectName
    /\ bc_VolumeTypeNameToDBType c = Ok StoragePoolVolumeTypeCustom
    /\ bc_forwardedIfTargetIsRemote c = None /\ bc_forwardedIfVolumeIsRemote c = None
    /\ bc_OperationCreate c = None
    /\ bc_LoadByName c projectName poolName
         (volumeName +:+ SnapshotDelimiter +:+ backupName) = Ok (rm_entry op)
    /\ rm_event_name op = volumeName +:+ SnapshotDelimiter +:+ backupName
    /\ rm_backup_resource op
       = [APIVersion; "storage-pools"; poolName; "volumes"; volumeTypeName; volumeName;
          "backups"; backupName].
Proof.
  unfold storagePoolVolumeTypeCustomBackupDelete. intros H.
  destruct (load_backup c) as [r|l] eqn:Hl; [discriminate H|].
  apply load_backup_inr in Hl.
  destruct Hl as (Hv & Hp & Ht & Hb & Hty & Hpr & Hft & Hfv & Hfull & Hlo).
  cbn [bind] in H. destruct (bc_OperationCreate c) eqn:Hoc; [discriminate H|].
  cbn in H. injection H as <-. cbn.
  exists (ld_volumeName l), (ld_poolName l), (ld_volumeTypeName l), (ld_backupName l),
    (ld_projectName l).
  rewrite Hfull in Hlo. rewrite Hfull. repeat split; assumption.
Qed.

Lemma delete_only_loaded_backup_witness :
  exists volumeName poolName volumeTypeName backupName projectName : string,
    volumeName = "vol" /\ poolName = "default" /\ volumeTypeName = "custom"
    /\ backupName = "backup0" /\ projectName = "p".
Proof.
  destruct (delete_only_loaded_backup
              {| bc_volumeName := Ok "vol"; bc_poolName := Ok "default";
                 bc_volumeTypeName := Ok "custom"; bc_backupName := Ok "backup0";
                 bc_VolumeTypeNameToDBType := Ok StoragePoolVolumeTypeCustom;
                 bc_StorageVolumeProject := Ok "p";
                 bc_forwardedIfTargetIsRemote := None;
                 bc_forwardedIfVolumeIsRemote := None;
                 bc_LoadByName := fun _ _ full =>
                   if String.eqb full "vol/backup0" then Ok 5
                   else Err (external_error "not found");
                 bc_OperationCreate := None |} _ eq_refl)
    as (v & p & t & b & proj & Hv & Hp & Ht & Hb & Hpr & _).
  cbn in Hv, Hp, Ht, Hb, Hpr.
  injection Hv as <-. injection Hp as <-. injection Ht as <-. injection Hb as <-.
  injection Hpr as <-.
  exists "vol", "default", "custom", "backup0", "p". repeat split.
Defined.

(** X8: the get and the export handler answer only for a backup that
    exists: the entry rendered, and the file served, are those of
    [volumeName/backupName] in the project and pool of the request, for a
    custom volume of this member. *)
Theorem get_and_export_loaded_backup {E : Type} (c : BackupCall E) :
  (forall e, storagePoolVolumeTypeCustomBackupGet c = inr e ->
     exists volumeName poolName backupName projectName,
       bc_volumeName c = Ok volumeName /\ bc_poolName c = Ok poolName
       /\ bc_backupName c = Ok backupName /\ bc_StorageVolumeProject c = Ok projectName
       /\ bc_VolumeTypeNameToDBType c = Ok StoragePoolVolumeTypeCustom
       /\ bc_LoadByName c projectName poolName
            (volumeName +:+ SnapshotDelimiter +:+ backupName) = Ok e)
  /\ (forall f, storagePoolVolumeTypeCustomBackupExportGet c = inr f ->
        exists volumeName backupName e,
          bc_volumeName c = Ok volumeName /\ bc_poolName c = Ok (ex_pool f)
          /\ bc_backupName c = Ok backupName
          /\ bc_StorageVolumeProject c = Ok (ex_project f)
          /\ bc_VolumeTypeNameToDBType c = Ok StoragePoolVolumeTypeCustom
          /\ ex_fullName f = volumeName +:+ SnapshotDelimiter +:+ backupName
          /\ bc_LoadByName c (ex_project f) (ex_pool f) (ex_fullName f) = Ok e).
Proof.
  split.
  - unfold storagePoolVolumeTypeCustomBackupGet. intros e H.
    destruct (load_backup c) as [r|l] eqn:Hl; [discriminate H|].
    apply load_backup_inr in Hl.
    destruct Hl as (Hv & Hp & Ht & Hb & Hty & Hpr & Hft & Hfv & Hfull & Hlo).
    cbn in H. injection H as <-.
    exists (ld_volumeName l), (ld_poolName l), (ld_backupName l), (ld_projectName l).
    rewrite Hfull in Hlo. repeat split; assumption.
  - unfold storagePoolVolumeTypeCustomBackupExportGet. intros f H.
    destruct (load_backup c) as [r|l] eqn:Hl; [discriminate H|].
    apply load_backup_inr in Hl.
    destruct Hl as (Hv & Hp & Ht & Hb & Hty & Hpr & Hft & Hfv & Hfull & Hlo).
    cbn in H. injection H as <-. cbn.
    exists (ld_volumeName l), (ld_backupName l), (ld_entry l).
    repeat split; assumption.
Qed.

Lemma get_and_export_loaded_backup_witness :
  exists volumeName poolName backupName projectName : string,
    volumeName = "vol" /\ poolName = "default" /\ backupName = "backup0"
    /\ projectName = "p".
Proof.
  destruct (proj1 (get_and_export_loaded_backup
              {| bc_volumeName := Ok "vol"; bc_poolName := Ok "default";
                 bc_volumeTypeName := Ok "custom"; bc_backupName := Ok "backup0";
                 bc_VolumeTypeNameToDBType := Ok StoragePoolVolumeTypeCustom;
                 bc_StorageVolumeProject := Ok "p";
                 bc_forwardedIfTargetIsRemote := None;
                 bc_forwardedIfVolumeIsRemote := None;
                 bc_LoadByName := fun _ _ _ => Ok 5;
                 bc_OperationCreate := None |}) 5 eq_refl)
    as (v & p & b & proj & Hv & Hp & Hb & Hpr & _).
  cbn in Hv, Hp, Hb, Hpr.
  injection Hv as <-. injection Hp as <-. injection Hb as <-. injection Hpr as <-.
  exists "vol", "default", "backup0", "p". repeat split.
Defined.

(** *** Listing *)

Lemma backup_url_of_name (poolName volumeName v n : string) (id : Z) (vo os : bool) :
  ContainsSlash v = false -> ContainsSlash n = false ->
  backup_url poolName volumeName
    {| b_ID := id; b_Name := v +:+ SnapshotDelimiter +:+ n;
       b_VolumeOnly := vo; b_OptimizedStorage := os |}
  = Some [APIVersion; "storage-pools"; poolName; "volumes"; "custom"; volumeName;
          "backups"; n].
Proof.
  intros Hv Hn. unfold backup_url. cbn [b_Name].
  now rewrite Split_slash_first, Split_slash_no_slash.
Qed.

Lemma backup_urls_names (poolName volumeName : string)
    (stored : list StoragePoolVolumeBackup) (names : list string) :
  Forall2 (fun b n => ContainsSlash n = false
                      /\ exists v, ContainsSlash v = false
                                   /\ b_Name b = v +:+ SnapshotDelimiter +:+ n)
    stored names ->
  backup_urls poolName volumeName stored
  = Some (map (fun n => [APIVersion; "storage-pools"; poolName; "volumes";
                         "custom"; volumeName; "backups"; n]) names).
Proof.
  induction 1 as [|b n bs ns (Hn & v & Hv & Hb) _ IH]; [reflexivity|].
  cbn [backup_urls map]. destruct b as [id name vo os]. cbn in Hb. subst name.
  rewrite (backup_url_of_name poolName volumeName v n id vo os Hv Hn).
  now rewrite IH.
Qed.

(** The listing without recursion of stored names of the form [v/n]. *)
Lemma listing_of_names (c : BackupsGetCall) (projectName volumeName poolName typeName : string)
    (poolID : Z) (stored : list StoragePoolVolumeBackup) (names : list string) :
  bg_StorageVolumeProject c = Ok projectName ->
  bg_volumeName c = Ok volumeName ->
  bg_poolName c = Ok poolName ->
  bg_volumeTypeName c = Ok typeName ->
  bg_VolumeTypeNameToDBType c = Ok StoragePoolVolumeTypeCustom ->
  bg_GetStoragePool c = Ok poolID ->
  bg_forwardedIfVolumeIsRemote c = None ->
  bg_IsRecursionRequest c = false ->
  bg_GetStoragePoolVolumeBackups c = Ok stored ->
  Forall2 (fun b n => ContainsSlash n = false
                      /\ exists v, ContainsSlash v = false
                                   /\ b_Name b = v +:+ SnapshotDelimiter +:+ n)
    stored names ->
  storagePoolVolumeTypeCustomBackupsGet c
  = inr (Some (Links (map (fun n => [APIVersion; "storage-pools"; poolName; "volumes";
                                     "custom"; volumeName; "backups"; n]) names))).
Proof.
  unfold storagePoolVolumeTypeCustomBackupsGet.
  intros -> -> -> -> -> -> -> -> -> Hnames. cbn.
  now rewrite (backup_urls_names poolName volumeName stored names Hnames).
Qed.

(** X9: when the stored names of a volume's backups are of the form
    [v/n] with no slash in [v] nor in [n], the listing of a custom volume
    without recursion answers with one URL per backup, in the stored order,
    each ending in [backups/n]. *)
Theorem listing_links (c : BackupsGetCall) (projectName volumeName poolName typeName : string)
    (poolID : Z) (stored : list StoragePoolVolumeBackup) (names : list string) :
  bg_StorageVolumeProject c = Ok projectName ->
  bg_volumeName c = Ok volumeName ->
  bg_poolName c = Ok poolName ->
  bg_volumeTypeName c = Ok typeName ->
  bg_VolumeTypeNameToDBType c = Ok StoragePoolVolumeTypeCustom ->
  bg_GetStoragePool c = Ok poolID ->
  bg_forwardedIfVolumeIsRemote c = None ->
  bg_IsRecursionRequest c = false ->
  bg_GetStoragePoolVolumeBackups c = Ok stored ->
  Forall2 (fun b n => ContainsSlash n = false
                      /\ exists v, ContainsSlash v = false
                                   /\ b_Name b = v +:+ SnapshotDelimiter +:+ n)
    stored names ->
  storagePoolVolumeTypeCustomBackupsGet c
  = inr (Some (Links (map (fun n => [APIVersion; "storage-pools"; poolName; "volumes";
                                     "custom"; volumeName; "backups"; n]) names))).
Proof. apply listing_of_names. Qed.

Lemma listing_links_witness :
  storagePoolVolumeTypeCustomBackupsGet
    {| bg_StorageVolumeProject := Ok "p"; bg_volumeName := Ok "vol";
       bg_poolName := Ok "default"; bg_volumeTypeName := Ok "custom";
       bg_VolumeTypeNameToDBType := Ok StoragePoolVolumeTypeCustom;
       bg_GetStoragePool := Ok 1; bg_forwardedIfVolumeIsRemote := None;
       bg_IsRecursionRequest := false;
       bg_GetStoragePoolVolumeBackups :=
         Ok [ {| b_ID := 1; b_Name := "vol" +:+ SnapshotDelimiter +:+ "backup0";
                 b_VolumeOnly := false; b_OptimizedStorage := false |} ] |}
  = inr (Some (Links [[APIVersion; "storage-pools"; "default"; "volumes"; "custom"; "vol";
                       "backups"; "backup0"]])).
Proof.
  eapply (listing_links _ "p" "vol" "default" "custom" 1 _ ["backup0"]);
    try reflexivity.
  constructor; [|constructor]. split; [reflexivity|].
  exists "vol". split; reflexivity.
Defined.



(** X11: creating then listing: once the backup that the create
    handler registered is stored for the volume, whose name has no slash,
    the listing of that volume without recursion shows it at its place,
    under the URL that ends in the name the operation was registered for;
    the other stored names are of the form [v/n]. *)
Theorem created_backup_listed (c : BackupsPostCall) (op : Operation)
    (g : BackupsGetCall) (projectName volumeName poolName typeName : string)
    (poolID : Z) (before after : list StoragePoolVolumeBackup)
    (created : StoragePoolVolumeBackup) (names_before names_after : list string) :
  storagePoolVolumeTypeCustomBackupsPost c = OperationResponse op ->
  bp_volumeName c = Ok volumeName ->
  ContainsSlash volumeName = false ->
  (exists volumeID req, op_run op = backup_task (b_Name created) volumeID req) ->
  bg_StorageVolumeProject g = Ok projectName ->
  bg_volumeName g = Ok volumeName ->
  bg_poolName g = Ok poolName ->
  bg_volumeTypeName g = Ok typeName ->
  bg_VolumeTypeNameToDBType g = Ok StoragePoolVolumeTypeCustom ->
  bg_GetStoragePool g = Ok poolID ->
  bg_forwardedIfVolumeIsRemote g = None ->
  bg_IsRecursionRequest g = false ->
  bg_GetStoragePoolVolumeBackups g = Ok (before ++ created :: after) ->
  Forall2 (fun b n => ContainsSlash n = false
                      /\ exists v, ContainsSlash v = false
                                   /\ b_Name b = v +:+ SnapshotDelimiter +:+ n)
    before names_before ->
  Forall2 (fun b n => ContainsSlash n = false
                      /\ exists v, ContainsSlash v = false
                                   /\ b_Name b = v +:+ SnapshotDelimiter +:+ n)
    after names_after ->
  storagePoolVolumeTypeCustomBackupsGet g
  = inr (Some (Links (map (fun n => [APIVersion; "storage-pools"; poolName; "volumes";
                                     "custom"; volumeName; "backups"; n])
                        (names_before ++ op_backup_resource op :: names_after)))).
Proof.
  intros Hop Hv Hslash (volumeID & req & Hrun) Hp Hvol Hpool Hty Hdb Hid Hfwd Hrec Hget
    Hbefore Hafter.
  destruct (create_operation_only_after_checks_aux c op Hop)
    as (v & name & vid & req' & Hv' & Hs & ->).
  rewrite Hv in Hv'. injection Hv' as <-.
  cbn [op_run op_backup_resource] in *. injection Hrun as Hname _ _.
  apply (listing_of_names g projectName volumeName poolName typeName poolID
           (before ++ created :: after)); try assumption.
  apply Forall2_app; [assumption|]. constructor; [|assumption].
  split; [assumption|]. exists volumeName. split; [assumption|]. now symmetry.
Qed.

Lemma created_backup_listed_witness :
  storagePoolVolumeTypeCustomBackupsGet
    {| bg_StorageVolumeProject := Ok "default"; bg_volumeName := Ok "vol";
       bg_poolName := Ok "default"; bg_volumeTypeName := Ok "custom";
       bg_VolumeTypeNameToDBType := Ok StoragePoolVolumeTypeCustom;
       bg_GetStoragePool := Ok 1; bg_forwardedIfVolumeIsRemote := None;
       bg_IsRecursionRequest := false;
       bg_GetStoragePoolVolumeBackups :=
         Ok ([ {| b_ID := 1; b_Name := "vol/backup0";
                  b_VolumeOnly := false; b_OptimizedStorage := false |} ]
             ++ {| b_ID := 2; b_Name := "vol/nightly";
                   b_VolumeOnly := false; b_OptimizedStorage := false |} :: []) |}
  = inr (Some (Links (map (fun n => [APIVersion; "storage-pools"; "default"; "volumes";
                                     "custom"; "vol"; "backups"; n])
                        (["backup0"] ++ "nightly" :: [])))).
Proof.
  apply (created_backup_listed
           {| bp_volumeName := Ok "vol"; bp_poolName := Ok "default";
              bp_volumeTypeName := Ok "custom";
              bp_VolumeTypeNameToDBType := Ok StoragePoolVolumeTypeCustom;
              bp_StorageVolumeProject := Ok "default"; bp_AllowBackupCreation := None;
              bp_forwardedIfTargetIsRemote := None; bp_GetStoragePool := Ok 1;
              bp_forwardedIfVolumeIsRemote := None; bp_GetStoragePoolVolume := Ok 7;
              bp_Decode := None; bp_Marshal := None;
              bp_Unmarshal := Ok {| Name := "nightly"; ExpiresAt := 0; VolumeOnly := false;
                                    OptimizedStorage := false; CompressionAlgorithm := "";
                                    Target := None |};
              bp_GetStoragePoolVolumeBackupsNames := Ok ["vol/backup0"];
              bp_OperationCreate := None |}
           {| op_type := CustomVolumeBackupCreate; op_backup_resource := "nightly";
              op_run := backup_task "vol/nightly" 7
                          {| Name := "nightly"; ExpiresAt := 0; VolumeOnly := false;
                             OptimizedStorage := false; CompressionAlgorithm := "";
                             Target := None |} |}
           _ "default" "vol" "default" "custom" 1
           [ {| b_ID := 1; b_Name := "vol/backup0";
                b_VolumeOnly := false; b_OptimizedStorage := false |} ] []
           {| b_ID := 2; b_Name := "vol/nightly";
              b_VolumeOnly := false; b_OptimizedStorage := false |}
           ["backup0"] []);
    try reflexivity.
  - eexists _, _. reflexivity.
  - constructor; [|constructor]. split; [reflexivity|].
    exists "vol". split; reflexivity.
  - constructor.
Defined.

End Handlers.

End BackupHandlersFacts.

(** ** Trust tokens *)

Module TokensFacts.
Import Go Backups Tokens.

Lemma any_is_string_spec (a : any) (s : string) :
  any_is_string a s = true <-> a = any_string s.
Proof.
  destruct a; cbn; try (split; [discriminate | intros [=]]).
  rewrite String.eqb_eq. split; [now intros -> | now intros [= ->]].
Qed.

(** The loop of [certificateTokenValid] stops at the first operation that
    is running and holds the secret. *)
Lemma find_add_token_Some (ops : list Operation) (secret : string) (op : Operation) :
  find_add_token ops secret = Some op
  <-> exists before after,
        ops = before ++ op :: after /\ add_token_matches secret op
        /\ Forall (fun o => ~ add_token_matches secret o) before.
Proof.
  induction ops as [|o ops IH]; cbn [find_add_token].
  - split; [discriminate|]. intros ([|? ?] & ? & H & _); discriminate H.
  - assert (Hdec : (negb (StatusCode o =? Running) = false
                    /\ exists a, lookup_key "secret" (Metadata o) = Some a
                                 /\ any_is_string a secret = true)
                   <-> add_token_matches secret o).
    { unfold add_token_matches. rewrite negb_false_iff, Z.eqb_eq. split.
      - intros (Hr & a & Ha & Hs). apply any_is_string_spec in Hs. subst a. eauto.
      - intros (Hr & s' & Ha & ->). split; [assumption|].
        exists (any_string secret). split; [assumption|]. now apply any_is_string_spec. }
    assert (Hskip : ~ add_token_matches secret o ->
              (find_add_token ops secret = Some op
               <-> exists before after,
                     o :: ops = before ++ op :: after /\ add_token_matches secret op
                     /\ Forall (fun o => ~ add_token_matches secret o) before)).
    { intros Hno. rewrite IH. split.
      - intros (b & a & -> & Hm & Hall). exists (o :: b), a.
        split; [reflexivity|]. split; [assumption|]. now constructor.
      - intros ([|o' b] & a & Heq & Hm & Hall).
        + cbn in Heq. injection Heq as -> ->. contradiction.
        + cbn in Heq. injection Heq as -> ->. inversion Hall; subst. eauto. }
    destruct (negb (StatusCode o =? Running)) eqn:Hr.
    { apply Hskip. rewrite <- Hdec. intros [? _]. discriminate. }
    destruct (lookup_key "secret" (Metadata o)) as [a|] eqn:Ha.
    2: { apply Hskip. rewrite <- Hdec. intros (_ & a & Ha' & _). discriminate. }
    destruct (any_is_string a secret) eqn:Hs.
    2: { apply Hskip. rewrite <- Hdec. intros (_ & a' & Ha' & Hs'). congruence. }
    assert (Hm : add_token_matches secret o) by (apply Hdec; eauto).
    split.
    + intros [= <-]. exists [], ops.
      split; [reflexivity|]. split; [assumption|]. constructor.
    + intros ([|o' b] & a' & Heq & Hm' & Hall).
      * cbn in Heq. now injection Heq as <- _.
      * cbn in Heq. injection Heq as <- _. inversion Hall; subst. contradiction.
Qed.

Lemma find_add_token_None (ops : list Operation) (secret : string) :
  find_add_token ops secret = None
  <-> Forall (fun o => ~ add_token_matches secret o) ops.
Proof.
  split.
  - intros Hnone. apply List.Forall_forall. intros o Hin Hm.
    apply in_split in Hin as (l1 & l2 & ->).
    assert (Hex : exists op, find_add_token (l1 ++ o :: l2) secret = Some op).
    { clear Hnone. induction l1 as [|x l1 IH].
      - exists o. apply find_add_token_Some. exists [], l2.
        split; [reflexivity|]. split; [assumption|]. constructor.
      - destruct IH as (op & Hop). cbn [app find_add_token]. rewrite Hop.
        destruct (negb (StatusCode x =? Running)); [eauto|].
        destruct (lookup_key "secret" (Metadata x)); [|eauto].
        destruct (any_is_string a secret); eauto. }
    destruct Hex as (op & Hop). congruence.
  - intros Hall. destruct (find_add_token ops secret) as [op|] eqn:Hf; [|reflexivity].
    apply find_add_token_Some in Hf as (b & a & -> & Hm & _).
    rewrite List.Forall_forall in Hall. exfalso. apply (Hall op); [|assumption].
    apply in_or_app. right. now left.
Qed.

(** What [certificateTokenValid] has checked when it returns an
    operation. *)
Lemma certificateTokenValid_token_op (ops : result (list Operation))
    (cancel : Operation -> option error) (now : Z) (secret : string)
    (cancelled : list Operation) (op : Operation) :
  certificateTokenValid ops cancel now secret = (cancelled, token_op op) ->
  cancelled = [op] /\ cancel op = None
  /\ (exists before after,
         ops = Ok (before ++ op :: after) /\ add_token_matches secret op
         /\ Forall (fun o => ~ add_token_matches secret o) before)
  /\ (forall expiresAt, lookup_key "expiresAt" (Metadata op) = Some expiresAt ->
        match expiresAt with
        | any_time t => now <= t
        | _ => now <= zeroTime
        end).
Proof.
  unfold certificateTokenValid. destruct ops as [l|e]; [|discriminate].
  destruct (find_add_token l secret) as [found|] eqn:Hf; [|discriminate].
  apply find_add_token_Some in Hf as (b & a & -> & Hm & Hall).
  destruct (cancel found) eqn:Hc; [discriminate|].
  destruct (lookup_key "expiresAt" (Metadata found)) as [x|] eqn:Hx.
  - destruct (Z.ltb_spec (match x with any_time t => t | _ => zeroTime end) now)
      as [Hlt|Hge]; [discriminate|].
    intros [= <- <-]. repeat split; eauto.
    intros x' Hx'. rewrite Hx in Hx'. injection Hx' as <-. destruct x; assumption.
  - intros [= <- <-]. repeat split; eauto.
    intros x' Hx'. rewrite Hx in Hx'. discriminate.
Qed.

(** X12: when [certificateTokenValid] returns an operation, that
    operation is running and holds the secret of the token, no operation
    before it does, it is the one operation that was cancelled, the
    cancellation succeeded, and its expiry, if it has one, is not in the
    past. *)
Theorem certificate_token_returned (ops : result (list Operation))
    (cancel : Operation -> option error) (now : Z) (secret : string)
    (cancelled : list Operation) (op : Operation) :
  certificateTokenValid ops cancel now secret = (cancelled, token_op op) ->
  cancelled = [op] /\ cancel op = None
  /\ (exists before after,
         ops = Ok (before ++ op :: after) /\ add_token_matches secret op
         /\ Forall (fun o => ~ add_token_matches secret o) before)
  /\ (forall expiresAt, lookup_key "expiresAt" (Metadata op) = Some expiresAt ->
        match expiresAt with
        | any_time t => now <= t
        | _ => now <= zeroTime
        end).
Proof. apply certificateTokenValid_token_op. Qed.

Lemma certificate_token_returned_witness :
  [ {| ID := "op1"; StatusCode := Running; has_Resources := false;
       Metadata := [("secret", any_string "s3cret")]; Location := "m1" |} ]
  = [ {| ID := "op1"; StatusCode := Running; has_Resources := false;
         Metadata := [("secret", any_string "s3cret")]; Location := "m1" |} ].
Proof.
  apply (proj1 (certificate_token_returned
           (Ok [ {| ID := "op0"; StatusCode := 400; has_Resources := false;
                    Metadata := [("secret", any_string "s3cret")]; Location := "m1" |};
                 {| ID := "op1"; StatusCode := Running; has_Resources := false;
                    Metadata := [("secret", any_string "s3cret")]; Location := "m1" |} ])
           (fun _ => None) 1000 "s3cret" _ _ eq_refl)).
Defined.

(** X13: a token is single use even when it is refused: when the first
    running operation holding the secret has expired, [certificateTokenValid]
    returns the error "Token has expired", and the operation has been
    cancelled all the same.  An expiry that is not a time counts as the
    zero time. *)
Theorem expired_token_is_used_up (before after : list Operation) (op : Operation)
    (cancel : Operation -> option error) (now : Z) (secret : string) (expiresAt : any) :
  add_token_matches secret op ->
  Forall (fun o => ~ add_token_matches secret o) before ->
  cancel op = None ->
  lookup_key "expiresAt" (Metadata op) = Some expiresAt ->
  match expiresAt with
  | any_time t => t < now
  | _ => zeroTime < now
  end ->
  certificateTokenValid (Ok (before ++ op :: after)) cancel now secret
  = ([op], token_err (StatusErrorf StatusForbidden "Token has expired")).
Proof.
  intros Hm Hall Hc Hx Hexp. unfold certificateTokenValid.
  assert (Hf : find_add_token (before ++ op :: after) secret = Some op)
    by (apply find_add_token_Some; eauto).
  rewrite Hf, Hc, Hx.
  assert (Hlt : (match expiresAt with any_time t => t | _ => zeroTime end <? now) = true)
    by (apply Z.ltb_lt; destruct expiresAt; assumption).
  now rewrite Hlt.
Qed.

Lemma expired_token_is_used_up_witness :
  certificateTokenValid
    (Ok ([] ++ {| ID := "op1"; StatusCode := Running; has_Resources := false;
                  Metadata := [("secret", any_string "s3cret");
                               ("expiresAt", any_string "2030-01-01T00:00:00Z")];
                  Location := "m2" |} :: []))
    (fun _ => None) 1000 "s3cret"
  = ([ {| ID := "op1"; StatusCode := Running; has_Resources := false;
          Metadata := [("secret", any_string "s3cret");
                       ("expiresAt", any_string "2030-01-01T00:00:00Z")];
          Location := "m2" |} ],
     token_err (StatusErrorf StatusForbidden "Token has expired")).
Proof.
  apply (expired_token_is_used_up [] [] _ (fun _ => None) 1000 "s3cret"
           (any_string "2030-01-01T00:00:00Z")).
  - split; [reflexivity|]. exists "s3cret". split; reflexivity.
  - constructor.
  - reflexivity.
  - reflexivity.
  - reflexivity.
Defined.

(** X14: operations that are not running, or hold no secret or another
    one, are neither returned nor cancelled: without a match the answer is
    nil and nothing is cancelled. *)
Theorem no_token_without_match (ops : list Operation)
    (cancel : Operation -> option error) (now : Z) (secret : string) :
  Forall (fun o => ~ add_token_matches secret o) ops ->
  certificateTokenValid (Ok ops) cancel now secret = ([], token_none).
Proof.
  intros Hall. unfold certificateTokenValid.
  now rewrite (proj2 (find_add_token_None ops secret) Hall).
Qed.

Lemma no_token_without_match_witness :
  certificateTokenValid
    (Ok [ {| ID := "op0"; StatusCode := 400; has_Resources := false;
             Metadata := [("secret", any_string "s3cret")]; Location := "m1" |} ])
    (fun _ => None) 1000 "s3cret"
  = ([], token_none).
Proof.
  apply no_token_without_match. constructor; [|constructor].
  intros [Hr _]. discriminate Hr.
Defined.

Lemma find_join_token_Some (ops : list Operation) (serverName secret : string)
    (op : Operation) :
  find_join_token ops serverName secret = Some op ->
  In op ops /\ join_token_matches serverName secret op.
Proof.
  induction ops as [|o ops IH]; cbn [find_join_token]; [discriminate|].
  destruct (Z.eqb_spec (StatusCode o) Running) as [Hr|_]; cbn [negb];
    [|intros H; apply IH in H as [? ?]; split; [now right | assumption]].
  destruct (has_Resources o) eqn:Hres; cbn [negb];
    [|intros H; apply IH in H as [? ?]; split; [now right | assumption]].
  destruct (lookup_key "secret" (Metadata o)) as [a|] eqn:Ha;
    [|intros H; apply IH in H as [? ?]; split; [now right | assumption]].
  destruct (lookup_key "serverName" (Metadata o)) as [n|] eqn:Hn;
    [|intros H; apply IH in H as [? ?]; split; [now right | assumption]].
  destruct (any_is_string n serverName && any_is_string a secret) eqn:Hm;
    [|intros H; apply IH in H as [? ?]; split; [now right | assumption]].
  apply andb_true_iff in Hm as [Hn' Ha'].
  apply any_is_string_spec in Hn', Ha'. subst n a.
  intros [= <-]. split; [now left|]. repeat split; assumption.
Qed.

(** What [clusterMemberJoinTokenValid] has checked when it returns an
    operation. *)
Lemma clusterMemberJoinTokenValid_token_op (time_Parse : string -> option Z)
    (thisServer : string)
    (ops : result (list Operation)) (cancel : Operation -> option error) (now : Z)
    (serverName secret : string) (cancelled : list Operation) (op : Operation) :
  clusterMemberJoinTokenValid time_Parse thisServer ops cancel now serverName secret
  = (cancelled, token_op op) ->
  cancelled = [op] /\ cancel op = None
  /\ (exists l, ops = Ok l /\ In op l)
  /\ join_token_matches serverName secret op
  /\ (forall expiresAt, lookup_key "expiresAt" (Metadata op) = Some expiresAt ->
        if String.eqb thisServer (Location op) then
          match expiresAt with any_time t => now <= t | _ => now <= zeroTime end
        else
          exists str, expiresAt = any_string str
                      /\ now <= default zeroTime (time_Parse str)).
Proof.
  unfold clusterMemberJoinTokenValid. destruct ops as [l|e]; [|discriminate].
  destruct (find_join_token l serverName secret) as [found|] eqn:Hf; [|discriminate].
  apply find_join_token_Some in Hf as [Hin Hm].
  destruct (cancel found) eqn:Hc; [discriminate|].
  destruct (lookup_key "expiresAt" (Metadata found)) as [x|] eqn:Hx.
  - destruct (String.eqb thisServer (Location found)) eqn:Hloc.
    + destruct (Z.ltb_spec (match x with any_time t => t | _ => zeroTime end) now)
        as [Hlt|Hge]; [discriminate|].
      intros [= <- <-]. rewrite Hloc.
      split; [reflexivity|]. split; [assumption|]. split; [eauto|]. split; [assumption|].
      intros x' Hx'. rewrite Hx in Hx'. injection Hx' as <-. destruct x; assumption.
    + destruct x as [str| | | | | |]; try discriminate.
      destruct (Z.ltb_spec (default zeroTime (time_Parse str)) now) as [Hlt|Hge];
        [discriminate|].
      intros [= <- <-]. rewrite Hloc.
      split; [reflexivity|]. split; [assumption|]. split; [eauto|]. split; [assumption|].
      intros x' Hx'. rewrite Hx in Hx'. injection Hx' as <-. eauto.
  - intros [= <- <-].
    split; [reflexivity|]. split; [assumption|]. split; [eauto|]. split; [assumption|].
    intros x' Hx'. rewrite Hx in Hx'. discriminate.
Qed.

(** X15: when [clusterMemberJoinTokenValid] returns an operation, that
    operation is among those listed, is running, has resources, and holds
    both the server name and the secret of the join token; it is the one
    operation that was cancelled; and its expiry, read as a time for an
    operation of this member and parsed from a string otherwise, is not in
    the past. *)
Theorem join_token_returned (time_Parse : string -> option Z) (thisServer : string)
    (ops : result (list Operation)) (cancel : Operation -> option error) (now : Z)
    (serverName secret : string) (cancelled : list Operation) (op : Operation) :
  clusterMemberJoinTokenValid time_Parse thisServer ops cancel now serverName secret
  = (cancelled, token_op op) ->
  cancelled = [op] /\ cancel op = None
  /\ (exists l, ops = Ok l /\ In op l)
  /\ join_token_matches serverName secret op
  /\ (forall expiresAt, lookup_key "expiresAt" (Metadata op) = Some expiresAt ->
        if String.eqb thisServer (Location op) then
          match expiresAt with any_time t => now <= t | _ => now <= zeroTime end
        else
          exists str, expiresAt = any_string str
                      /\ now <= default zeroTime (time_Parse str)).
Proof. apply clusterMemberJoinTokenValid_token_op. Qed.

Lemma join_token_returned_witness :
  join_token_matches "m2" "s3cret"
    {| ID := "op1"; StatusCode := Running; has_Resources := true;
       Metadata := [("secret", any_string "s3cret"); ("serverName", any_string "m2")];
       Location := "m1" |}.
Proof.
  apply (proj1 (proj2 (proj2 (proj2 (join_token_returned
           (fun _ => None) "m1"
           (Ok [ {| ID := "op1"; StatusCode := Running; has_Resources := true;
                    Metadata := [("secret", any_string "s3cret");
                                 ("serverName", any_string "m2")];
                    Location := "m1" |} ])
           (fun _ => None) 1000 "m2" "s3cret" _ _ eq_refl))))).
Defined.

(** X16: the expiry of a join token held by an operation of another
    member is asserted to be a string: when the matching operation carries
    an expiry of another kind, [clusterMemberJoinTokenValid] panics, after it
    has cancelled the operation. *)
Theorem join_token_panics_on_foreign_expiry (time_Parse : string -> option Z)
    (thisServer : string) (ops : list Operation) (cancel : Operation -> option error)
    (now : Z) (serverName secret : string) (op : Operation) (expiresAt : any) :
  find_join_token ops serverName secret = Some op ->
  cancel op = None ->
  thisServer <> Location op ->
  lookup_key "expiresAt" (Metadata op) = Some expiresAt ->
  (forall str, expiresAt <> any_string str) ->
  clusterMemberJoinTokenValid time_Parse thisServer (Ok ops) cancel now serverName secret
  = ([op], token_panic).
Proof.
  intros Hf Hc Hloc Hx Hns. unfold clusterMemberJoinTokenValid.
  rewrite Hf, Hc, Hx.
  destruct (String.eqb_spec thisServer (Location op)) as [Heq|_]; [contradiction|].
  destruct expiresAt as [str| | | | | |]; try reflexivity. now destruct (Hns str).
Qed.

Lemma join_token_panics_on_foreign_expiry_witness :
  clusterMemberJoinTokenValid (fun _ => None) "m1"
    (Ok [ {| ID := "op1"; StatusCode := Running; has_Resources := true;
             Metadata := [("secret", any_string "s3cret");
                          ("serverName", any_string "m2");
                          ("expiresAt", any_time 5000)];
             Location := "m3" |} ])
    (fun _ => None) 1000 "m2" "s3cret"
  = ([ {| ID := "op1"; StatusCode := Running; has_Resources := true;
          Metadata := [("secret", any_string "s3cret");
                       ("serverName", any_string "m2");
                       ("expiresAt", any_time 5000)];
          Location := "m3" |} ], token_panic).
Proof.
  apply (join_token_panics_on_foreign_expiry _ _ _ _ _ _ _ _ (any_time 5000));
    try reflexivity; discriminate.
Defined.

End TokensFacts.

(** ** Adding a certificate to the trust store *)

Module TrustStoreFacts.
Import Go Backups Certificates Tokens TokensFacts TrustStore.

Section Post.

Local Arguments certificateValidate : simpl never.
Local Arguments clusterMemberJoinTokenValid : simpl never.
Local Arguments Tokens.certificateTokenValid : simpl never.

Lemma in_map_Cancel (e : Effect) (ops : list Tokens.Operation) :
  In e (map CancelOperation ops) -> is_Cancel e = true.
Proof. intros (op & <- & _)%in_map_iff. reflexivity. Qed.

Lemma is_empty_true (s : string) : is_empty s = true <-> s = EmptyString.
Proof. destruct s; cbn; split; congruence. Qed.

Lemma is_empty_false (s : string) : is_empty s = false <-> s <> EmptyString.
Proof. destruct s; cbn; split; congruence. Qed.

Lemma mbind_inr {A B : Type} (m : M A) (k : A -> M B) (es : list Effect) (b : B) :
  mbind m k = (es, inr b) ->
  exists es1 a es2, m = (es1, inr a) /\ k a = (es2, inr b) /\ es = es1 ++ es2.
Proof.
  unfold mbind. destruct m as [es1 [r|a]]; [discriminate|].
  destruct (k a) as [es2 x] eqn:Hk. intros [= <- <-]. now exists es1, a, es2.
Qed.

Lemma mbind_cases {A B : Type} (m : M A) (k : A -> M B) (es : list Effect)
    (x : Response + B) :
  mbind m k = (es, x) ->
  (exists r, m = (es, inl r) /\ x = inl r)
  \/ (exists es1 a es2, m = (es1, inr a) /\ k a = (es2, x) /\ es = es1 ++ es2).
Proof.
  unfold mbind. destruct m as [es1 [r|a]].
  - intros [= <- <-]. left. now exists r.
  - destruct (k a) as [es2 y] eqn:Hk. intros [= <- <-]. right. now exists es1, a, es2.
Qed.

Lemma stop_if_inr (cond : bool) (r : Response) (es : list Effect) (u : unit) :
  stop_if cond r = (es, inr u) -> cond = false /\ es = [].
Proof. destruct cond; cbn; [discriminate|]. now intros [= <-]. Qed.

Lemma stop_if_cases (cond : bool) (r : Response) (es : list Effect)
    (x : Response + unit) :
  stop_if cond r = (es, x) ->
  es = [] /\ ((cond = true /\ x = inl r) \/ (cond = false /\ x = inr tt)).
Proof. destruct cond; cbn; intros [= <- <-]; auto. Qed.

Lemma orr_inr {A : Type} (w : herror -> Response) (r : result A)
    (es : list Effect) (a : A) :
  orr w r = (es, inr a) -> r = Ok a /\ es = [].
Proof. destruct r; cbn; [|discriminate]. now intros [= <- <-]. Qed.

Lemma orr_cases {A : Type} (w : herror -> Response) (r : result A)
    (es : list Effect) (x : Response + A) :
  orr w r = (es, x) ->
  es = [] /\ ((exists a, r = Ok a /\ x = inr a)
              \/ (exists e, r = Err e /\ x = inl (w (plain e)))).
Proof. destruct r; cbn; intros [= <- <-]; eauto. Qed.

Lemma chk_inr (w : herror -> Response) (e : option error) (es : list Effect) (u : unit) :
  chk w e = (es, inr u) -> e = None /\ es = [].
Proof. destruct e; cbn; [discriminate|]. now intros [= <-]. Qed.

Lemma chk_cases (w : herror -> Response) (e : option error) (es : list Effect)
    (x : Response + unit) :
  chk w e = (es, x) ->
  es = [] /\ ((e = None /\ x = inr tt)
              \/ (exists err, e = Some err /\ x = inl (w (plain err)))).
Proof. destruct e; cbn; intros [= <- <-]; eauto. Qed.

(** The access check only cancels operations. *)
Lemma require_token_effects (c : PostCall) (req : CertificatesPost)
    (es : list Effect) (x : Response + CertificatesPost) :
  require_token c req = (es, x) -> Forall (fun e => is_Cancel e = true) es.
Proof.
  unfold require_token, mbind, stop_if, stop, ret, token_check.
  destruct (cp_Token req); [intros [= <- <-]; constructor|].
  destruct (is_empty (cp_TrustToken req)); [intros [= <- <-]; constructor|].
  cbn. destruct (pc_JoinTokenDecode c (cp_TrustToken req)) as [[serverName secret]|_].
  - destruct (clusterMemberJoinTokenValid _ _ _ _ _ _ _) as [cancelled outcome].
    cbn. destruct outcome as [op| | |]; cbn; intros [= <- <-];
      rewrite ?app_nil_r; apply List.Forall_forall; intros ?; apply in_map_Cancel.
  - destruct (pc_CertificateTokenDecode c (cp_TrustToken req)) as [secret|_];
      [|intros [= <- <-]; constructor].
    destruct (Tokens.certificateTokenValid _ _ _ _) as [cancelled outcome].
    cbn. destruct outcome as [op| | |]; cbn;
      try (intros [= <- <-]; rewrite ?app_nil_r; apply List.Forall_forall;
           intros ?; apply in_map_Cancel).
    destruct (request_of_token _) as [[req'|]|]; cbn; intros [= <- <-];
      rewrite ?app_nil_r; apply List.Forall_forall; intros ?; apply in_map_Cancel.
Qed.

(** The access check lets a request through only when a matching token
    operation was used up. *)
Lemma require_token_inr (c : PostCall) (req : CertificatesPost)
    (es : list Effect) (req' : CertificatesPost) :
  require_token c req = (es, inr req') ->
  exists op, es = [CancelOperation op] /\ token_used c req op req'.
Proof.
  unfold require_token, token_used, mbind, stop_if, stop, ret, token_check.
  destruct (cp_Token req); [discriminate|].
  destruct (is_empty (cp_TrustToken req)) eqn:He; [discriminate|].
  apply is_empty_false in He. cbn.
  destruct (pc_JoinTokenDecode c (cp_TrustToken req)) as [[serverName secret]|?].
  - destruct (clusterMemberJoinTokenValid _ _ _ _ _ _ _) as [cancelled outcome] eqn:Hv.
    cbn. destruct outcome as [op| | |]; cbn; try discriminate.
    intros [= <- <-].
    apply clusterMemberJoinTokenValid_token_op in Hv as (-> & Hc & Hin & Hm & _).
    exists op. split; [reflexivity|]. split; [reflexivity|]. split; [assumption|].
    split; [assumption|]. split; [assumption|]. split; [assumption|reflexivity].
  - destruct (pc_CertificateTokenDecode c (cp_TrustToken req)) as [secret|?];
      [|discriminate].
    destruct (Tokens.certificateTokenValid _ _ _ _) as [cancelled outcome] eqn:Hv.
    cbn. destruct outcome as [op| | |]; cbn; try discriminate.
    destruct (request_of_token _) as [[tokenReq|]|] eqn:Hr; cbn; try discriminate.
    intros [= <- <-].
    apply certificateTokenValid_token_op
      in Hv as (-> & Hc & (b & a & Hops & Hm & _) & _).
    exists op. split; [reflexivity|]. split; [reflexivity|]. split; [assumption|].
    split; [assumption|]. exists secret. split; [reflexivity|].
    split; [|split; assumption].
    exists (b ++ op :: a). split; [assumption|]. apply in_or_app. right. now left.
Qed.

(** The request rebuilt from a token asks for no token and carries no
    certificate, description or trust token. *)
Lemma request_of_token_shape (a : option any) (req : CertificatesPost) :
  request_of_token a = Some (Some req) ->
  cp_Token req = false /\ cp_Certificate req = EmptyString
  /\ cp_Description req = EmptyString /\ cp_TrustToken req = EmptyString.
Proof.
  destruct a as [[str|b|t|l|m|tokenReq|]|]; cbn; try discriminate.
  - destruct (as_string (lookup_key "name" m)), (as_string (lookup_key "type" m)),
      (as_bool (lookup_key "restricted" m)),
      (as_string_slice (lookup_key "projects" m)); try discriminate.
    intros [= <-]. cbn. repeat split.
  - intros [= <-]. cbn. repeat split.
Qed.

Lemma token_used_no_token (c : PostCall) (req : CertificatesPost)
    (op : Tokens.Operation) (req' : CertificatesPost) :
  token_used c req op req' -> cp_Token req' = false.
Proof.
  intros (Ht & _ & _ & H).
  destruct (pc_JoinTokenDecode c (cp_TrustToken req)) as [[serverName secret]|_].
  - destruct H as (_ & _ & ->). assumption.
  - destruct H as (secret & _ & _ & _ & Hr).
    now apply request_of_token_shape in Hr.
Qed.

(** The first part of the handler: what holds of the request it lets
    through. *)
Lemma admitted_request_inr (c : PostCall) (es : list Effect) (req' : CertificatesPost) :
  admitted_request c = (es, inr req') ->
  exists req,
    pc_Decode c = Ok req
    /\ (cp_Token req = true ->
          cp_Certificate req = EmptyString /\ cp_Type req = "client"
          /\ pc_HTTPSAddress c <> EmptyString)
    /\ (pc_Authenticate c = Ok true ->
          cp_Certificate req <> EmptyString \/ cp_Token req = true)
    /\ ((trusted_admin c /\ es = [] /\ req' = req)
        \/ (~ trusted_admin c /\ require_token c req = (es, inr req'))).
Proof.
  unfold admitted_request, trusted_admin. intros H.
  apply mbind_inr in H as (? & req & ? & [Hd ->]%orr_inr & H & ->).
  apply mbind_inr in H as (? & [] & ? & [Hq ->]%stop_if_inr & H & ->).
  apply mbind_inr in H as (es2 & [] & ? & Hq2 & H & ->).
  assert (es2 = []) as ->.
  { destruct (cp_Token req); [|now injection Hq2].
    now apply mbind_inr
      in Hq2 as (? & [] & ? & [_ ->]%stop_if_inr & [_ ->]%stop_if_inr & ->). }
  apply mbind_inr in H as (? & trusted & ? & [Ha ->]%orr_inr & H & ->).
  apply mbind_inr in H as (? & [] & ? & [Hal ->]%stop_if_inr & H & ->).
  apply mbind_inr in H as (? & can & ? & Hp & H & ->).
  cbn [app]. exists req. split; [assumption|]. split; [|split].
  - intros Ht. rewrite Ht in Hq, Hq2. cbn in Hq. apply negb_false_iff, is_empty_true in Hq.
    apply mbind_inr in Hq2 as (? & [] & ? & [Hty _]%stop_if_inr & [Haddr _]%stop_if_inr & _).
    apply negb_false_iff, String.eqb_eq in Hty. apply is_empty_false in Haddr. auto.
  - rewrite Ha. intros [= ->]. cbn in Hal.
    destruct (is_empty (cp_Certificate req)) eqn:He; [|left; now apply is_empty_false].
    right. cbn in Hal. now apply negb_false_iff in Hal.
  - rewrite Ha.
    destruct (pc_CheckPermission c) as [|e|e]; cbn in Hp; try discriminate;
      injection Hp as <- <-; cbn [app]; destruct trusted; cbn in H.
    + left. injection H as <- <-. auto.
    + right. split; [intros [[=] _] | assumption].
    + right. split; [intros [_ [=]] | assumption].
    + right. split; [intros [_ [=]] | assumption].
Qed.

(** The first part of the handler only cancels operations. *)
Lemma admitted_request_effects (c : PostCall) (es : list Effect)
    (x : Response + CertificatesPost) :
  admitted_request c = (es, x) -> Forall (fun e => is_Cancel e = true) es.
Proof.
  unfold admitted_request. intros H.
  apply mbind_cases in H as [(? & [-> _]%orr_cases & _)
                            | (? & req & ? & [-> _]%orr_cases & H & ->)];
    [constructor|].
  apply mbind_cases in H as [(? & [-> _]%stop_if_cases & _)
                            | (? & [] & ? & [-> _]%stop_if_cases & H & ->)];
    [constructor|].
  apply mbind_cases in H as [(? & Hq & _) | (e2 & [] & ? & Hq & H & ->)].
  { destruct (cp_Token req); [|discriminate].
    apply mbind_cases in Hq as [(? & [-> _]%stop_if_cases & _)
                               | (? & [] & ? & [-> _]%stop_if_cases
                                  & [-> _]%stop_if_cases & ->)]; constructor. }
  assert (e2 = []) as ->.
  { destruct (cp_Token req); [|now injection Hq].
    now apply mbind_inr
      in Hq as (? & [] & ? & [_ ->]%stop_if_inr & [_ ->]%stop_if_inr & ->). }
  apply mbind_cases in H as [(? & [-> _]%orr_cases & _)
                            | (? & trusted & ? & [-> _]%orr_cases & H & ->)];
    [constructor|].
  apply mbind_cases in H as [(? & [-> _]%stop_if_cases & _)
                            | (? & [] & ? & [-> _]%stop_if_cases & H & ->)];
    [constructor|].
  apply mbind_cases in H as [(? & Hp & _) | (e3 & can & ? & Hp & H & ->)].
  { destruct (pc_CheckPermission c); injection Hp as <- _; constructor. }
  assert (e3 = []) as -> by (destruct (pc_CheckPermission c); now injection Hp).
  cbn [app]. destruct (negb trusted || negb can).
  - eapply require_token_effects, H.
  - injection H as <- _. constructor.
Qed.

(** The issue of a token never goes on to store a certificate, and the
    one call it makes creates the token operation for the request. *)
Lemma issue_token_cases {A : Type} (c : PostCall) (req : CertificatesPost)
    (es : list Effect) (x : Response + A) :
  issue_token c req = (es, x) ->
  (exists r, x = inl r)
  /\ (forall e, In e es -> exists meta, e = CreateTokenOperation meta
                                        /\ tm_request meta = req).
Proof.
  unfold issue_token, mbind, orr, chk, call, stop, ret.
  destruct (pc_ListenAddresses c); cbn; [|intros [= <- <-]; split; [eauto|intros ? []]].
  destruct (pc_RandomHexString c); cbn; [|intros [= <- <-]; split; [eauto|intros ? []]].
  destruct (pc_CertFingerprintStr c); cbn;
    [|intros [= <- <-]; split; [eauto|intros ? []]].
  destruct (is_empty (pc_RemoteTokenExpiry c)); cbn.
  - destruct (pc_OperationCreate c); cbn; intros [= <- <-];
      (split; [eauto|]); intros ? [<-|[]]; eauto.
  - destruct (pc_GetExpiry c); cbn; [|intros [= <- <-]; split; [eauto|intros ? []]].
    destruct (pc_OperationCreate c); cbn; intros [= <- <-];
      (split; [eauto|]); intros ? [<-|[]]; eauto.
Qed.

Lemma issue_token_created {A : Type} (c : PostCall) (req : CertificatesPost)
    (es : list Effect) (x : Response + A) (meta : TokenMeta) :
  issue_token c req = (es, x) -> In (CreateTokenOperation meta) es ->
  es = [CreateTokenOperation meta]
  /\ (x = inl (OperationResponse meta)
      \/ exists e, pc_OperationCreate c = Some e /\ x = inl (InternalError (plain e))).
Proof.
  unfold issue_token, mbind, orr, chk, call, stop, ret.
  destruct (pc_ListenAddresses c); cbn; [|intros [= <- <-] []].
  destruct (pc_RandomHexString c); cbn; [|intros [= <- <-] []].
  destruct (pc_CertFingerprintStr c); cbn; [|intros [= <- <-] []].
  destruct (is_empty (pc_RemoteTokenExpiry c)); cbn.
  - destruct (pc_OperationCreate c); cbn; intros [= <- <-] [[= <-]|[]]; eauto.
  - destruct (pc_GetExpiry c); cbn; [|intros [= <- <-] []].
    destruct (pc_OperationCreate c); cbn; intros [= <- <-] [[= <-]|[]]; eauto.
Qed.

(** The second part of the handler: where the certificate comes from. *)
Lemma certificate_of_inr (c : PostCall) (req : CertificatesPost) (es : list Effect)
    (cert : x509_Certificate) :
  certificate_of c req = (es, inr cert) ->
  es = []
  /\ ((cp_Certificate req <> EmptyString /\ parsed_from c (cp_Certificate req) cert)
      \/ (cp_Certificate req = EmptyString /\ cp_Token req = false
          /\ exists peers, pc_TLS c = Some peers /\ last peers = Some cert)).
Proof.
  unfold certificate_of, parsed_from.
  destruct (is_empty (cp_Certificate req)) eqn:He; cbn [negb].
  - apply is_empty_true in He. destruct (cp_Token req).
    + intros H. now apply issue_token_cases in H as [[r [=]] _].
    + destruct (pc_TLS c) as [peers|]; [|discriminate].
      destruct (last peers) as [cert'|] eqn:Hl; [|discriminate].
      intros [= <- <-]. split; [reflexivity|]. right. eauto.
  - apply is_empty_false in He.
    destruct (pc_pem_Decode c (cp_Certificate req)) as [block rest].
    intros H. apply mbind_inr in H as (? & der & ? & Hder & [Hp ->]%orr_inr & ->).
    destruct block; [injection Hder as <- <-|apply orr_inr in Hder as [Hb ->]];
      (split; [reflexivity|]); left; eauto.
Qed.

Lemma certificate_of_effects (c : PostCall) (req : CertificatesPost) (es : list Effect)
    (x : Response + x509_Certificate) :
  certificate_of c req = (es, x) ->
  forall e, In e es ->
    (exists r, x = inl r) /\ cp_Token req = true /\ cp_Certificate req = EmptyString
    /\ exists meta, e = CreateTokenOperation meta /\ tm_request meta = req.
Proof.
  unfold certificate_of.
  destruct (is_empty (cp_Certificate req)) eqn:He; cbn [negb].
  - apply is_empty_true in He. destruct (cp_Token req).
    + intros H e Hin. apply issue_token_cases in H as [Hr Hes]. auto.
    + destruct (pc_TLS c) as [peers|]; [|intros [= <- <-] ? []].
      destruct (last peers); intros [= <- <-] ? [].
  - destruct (pc_pem_Decode c (cp_Certificate req)) as [block rest].
    intros H. apply mbind_cases in H as [(? & Hder & _)
                                        | (? & der & ? & Hder & [-> _]%orr_cases & ->)].
    + destruct block; [discriminate|]. apply orr_cases in Hder as [-> _]. intros ? [].
    + destruct block; [injection Hder as <- _|apply orr_cases in Hder as [-> _]];
        intros ? [].
Qed.

Lemma name_of_cases (c : PostCall) (req : CertificatesPost) (cert : x509_Certificate)
    (es : list Effect) (x : Response + string) :
  name_of c req cert = (es, x) ->
  es = [] /\ ((exists r, x = inl r /\ is_Sync r = false)
              \/ (exists name, x = inr name /\ fallback_name c req cert name)).
Proof.
  unfold name_of, fallback_name.
  destruct (is_empty (cp_Name req)); [|intros [= <- <-]; eauto].
  destruct (is_empty (x_CommonName cert)); [|intros [= <- <-]; eauto].
  intros [-> [(a & -> & ->)|(e & -> & ->)]]%orr_cases; eauto.
Qed.

(** The early returns of the first two parts do not answer with a
    location. *)
Lemma require_token_inl (c : PostCall) (req : CertificatesPost) (es : list Effect)
    (r : Response) :
  require_token c req = (es, inl r) -> is_Sync r = false.
Proof.
  unfold require_token, mbind, stop_if, stop, ret, token_check.
  destruct (cp_Token req); [now intros [= <- <-]|].
  destruct (is_empty (cp_TrustToken req)); [now intros [= <- <-]|].
  cbn. destruct (pc_JoinTokenDecode c (cp_TrustToken req)) as [[serverName secret]|?].
  - destruct (clusterMemberJoinTokenValid _ _ _ _ _ _ _) as [cancelled outcome].
    cbn. destruct outcome as [op| | |]; cbn; now intros [= <- <-].
  - destruct (pc_CertificateTokenDecode c (cp_TrustToken req)) as [secret|?];
      [|now intros [= <- <-]].
    destruct (Tokens.certificateTokenValid _ _ _ _) as [cancelled outcome].
    cbn. destruct outcome as [op| | |]; cbn; try now intros [= <- <-].
    destruct (request_of_token _) as [[req'|]|]; cbn; now intros [= <- <-].
Qed.

Lemma admitted_request_inl (c : PostCall) (es : list Effect) (r : Response) :
  admitted_request c = (es, inl r) -> is_Sync r = false.
Proof.
  unfold admitted_request, mbind, orr, stop_if, stop, ret.
  destruct (pc_Decode c) as [req|?]; cbn; [|now intros [= <- <-]].
  destruct (cp_Token req); cbn.
  - destruct (is_empty (cp_Certificate req)); cbn; [|now intros [= <- <-]].
    destruct (String.eqb (cp_Type req) "client"); cbn; [|now intros [= <- <-]].
    destruct (is_empty (pc_HTTPSAddress c)); cbn; [now intros [= <- <-]|].
    destruct (pc_Authenticate c) as [trusted|?]; cbn; [|now intros [= <- <-]].
    rewrite andb_false_r. cbn.
    destruct (pc_CheckPermission c); cbn; try now intros [= <- <-].
    + destruct trusted; cbn; [discriminate|].
      destruct (require_token c req) as [es' [r'|?]] eqn:Hr; intros [= <- <-].
      eapply require_token_inl, Hr.
    + rewrite orb_true_r.
      destruct (require_token c req) as [es' [r'|?]] eqn:Hr; intros [= <- <-].
      eapply require_token_inl, Hr.
  - destruct (pc_Authenticate c) as [trusted|?]; cbn; [|now intros [= <- <-]].
    rewrite andb_true_r.
    destruct (trusted && is_empty (cp_Certificate req)); cbn; [now intros [= <- <-]|].
    destruct (pc_CheckPermission c); cbn; try now intros [= <- <-].
    + destruct trusted; cbn; [discriminate|].
      destruct (require_token c req) as [es' [r'|?]] eqn:Hr; intros [= <- <-].
      eapply require_token_inl, Hr.
    + rewrite orb_true_r.
      destruct (require_token c req) as [es' [r'|?]] eqn:Hr; intros [= <- <-].
      eapply require_token_inl, Hr.
Qed.

Lemma certificate_of_inl (c : PostCall) (req : CertificatesPost) (es : list Effect)
    (r : Response) :
  certificate_of c req = (es, inl r) -> is_Sync r = false.
Proof.
  unfold certificate_of.
  destruct (is_empty (cp_Certificate req)); cbn [negb].
  - destruct (cp_Token req).
    + unfold issue_token, mbind, orr, chk, call, stop, ret.
      destruct (pc_ListenAddresses c); cbn; [|now intros [= <- <-]].
      destruct (pc_RandomHexString c); cbn; [|now intros [= <- <-]].
      destruct (pc_CertFingerprintStr c); cbn; [|now intros [= <- <-]].
      destruct (is_empty (pc_RemoteTokenExpiry c)); cbn.
      * destruct (pc_OperationCreate c); cbn; now intros [= <- <-].
      * destruct (pc_GetExpiry c); cbn; [|now intros [= <- <-]].
        destruct (pc_OperationCreate c); cbn; now intros [= <- <-].
    + destruct (pc_TLS c) as [peers|]; [|now intros [= <- <-]].
      destruct (last peers); [discriminate|now intros [= <- <-]].
  - destruct (pc_pem_Decode c (cp_Certificate req)) as [block rest].
    unfold mbind, orr, stop, ret.
    destruct block as [bytes|]; cbn.
    + destruct (pc_ParseCertificate c bytes); cbn; [discriminate|now intros [= <- <-]].
    + destruct (pc_base64_DecodeString c rest) as [der|?]; cbn; [|now intros [= <- <-]].
      destruct (pc_ParseCertificate c der); cbn; [discriminate|now intros [= <- <-]].
Qed.

(** The third part of the handler: each way it can go, with the calls
    made. *)
Lemma store_certificate_cases (c : PostCall) (req : CertificatesPost) (dbReqType : Z)
    (cert : x509_Certificate) (es : list Effect) (x : Response + Response) :
  store_certificate c req dbReqType cert = (es, x) ->
  (es = [] /\ exists r, x = inl r /\ is_Sync r = false)
  \/ exists name,
       fallback_name c req cert name
       /\ certificateValidate (pc_now1 c) (pc_now2 c) (x_validity cert) = None
       /\ ((pc_isClusterNotification c = true
            /\ es = announce_calls c cert
            /\ x = inr (SyncResponseLocation (pc_CertFingerprint c cert)))
           \/ (pc_isClusterNotification c = false
               /\ pc_existing c (pc_CertFingerprint c cert) = false
               /\ ((exists e, pc_CreateCertificateWithProjects c = Some e
                              /\ es = firstn 1 (store_calls c req dbReqType cert name)
                              /\ x = inl (SmartError (plain e)))
                   \/ (pc_CreateCertificateWithProjects c = None
                       /\ ((exists e, pc_NewNotifier c = Some e
                              /\ es = firstn 1 (store_calls c req dbReqType cert name)
                              /\ x = inl (SmartError (plain e)))
                           \/ (pc_NewNotifier c = None
                               /\ ((exists e, pc_notify c = Some e
                                      /\ es = firstn 2
                                                (store_calls c req dbReqType cert name)
                                      /\ x = inl (SmartError (plain e)))
                                   \/ (pc_notify c = None
                                       /\ es = store_calls c req dbReqType cert name
                                               ++ announce_calls c cert
                                       /\ x = inr (SyncResponseLocation
                                                     (pc_CertFingerprint c cert)))))))))).
Proof.
  unfold store_certificate. intros H.
  apply mbind_cases in H as [(? & [-> [[_ [=]]|(? & _ & [= ->])]]%chk_cases & ->)
                            | (? & [] & ? & Hv & H & ->)]; [left; eauto|].
  apply chk_inr in Hv as [Hv ->].
  apply mbind_cases in H as [(? & [-> [(? & [= <-] & ?)|(? & [=] & _)]]%name_of_cases
                               & ->)
                            | (? & name & ? & Hn & H & ->)]; [left; eauto|].
  apply name_of_cases in Hn as [-> [(r & [=] & _)|(name' & [= <-] & Hn)]].
  cbn [app]. unfold mbind, stop_if, chk, call, stop, ret in H.
  destruct (pc_isClusterNotification c); cbn in H.
  { injection H as <- <-. right. exists name.
    split; [assumption|]. split; [assumption|]. left. repeat split. }
  destruct (pc_existing c (pc_CertFingerprint c cert)); cbn in H.
  { injection H as <- <-. left. eauto. }
  right. exists name. split; [assumption|]. split; [assumption|]. right.
  split; [reflexivity|]. split; [reflexivity|].
  destruct (pc_CreateCertificateWithProjects c) as [e|]; cbn in H.
  { injection H as <- <-. left. exists e. repeat split. }
  right. split; [reflexivity|].
  destruct (pc_NewNotifier c) as [e|]; cbn in H.
  { injection H as <- <-. left. exists e. repeat split. }
  right. split; [reflexivity|].
  destruct (pc_notify c) as [e|]; cbn in H.
  { injection H as <- <-. left. exists e. repeat split. }
  right. split; [reflexivity|]. injection H as <- <-. split; reflexivity.
Qed.

(** The handler as a whole: it stops in one of its three parts or at the
    certificate type, or it runs the third part to its end. *)
Lemma certificatesPost_cases (c : PostCall) :
  (exists r, admitted_request c = (fst (certificatesPost c), inl r)
             /\ snd (certificatesPost c) = r)
  \/ exists es1 req',
       admitted_request c = (es1, inr req')
       /\ ((fst (certificatesPost c) = es1
            /\ exists e, pc_FromAPIType c (cp_Type req') = Err e
                         /\ snd (certificatesPost c) = BadRequest (plain e))
           \/ exists dbReqType,
                pc_FromAPIType c (cp_Type req') = Ok dbReqType
                /\ ((exists es2 r,
                       certificate_of c req' = (es2, inl r)
                       /\ fst (certificatesPost c) = es1 ++ es2
                       /\ snd (certificatesPost c) = r)
                    \/ exists cert es3 x,
                         certificate_of c req' = ([], inr cert)
                         /\ store_certificate c req' dbReqType cert = (es3, x)
                         /\ fst (certificatesPost c) = es1 ++ es3
                         /\ snd (certificatesPost c)
                            = match x with inl r | inr r => r end)).
Proof.
  unfold certificatesPost.
  destruct (admitted_request c) as [es1 [r|req']]; cbn; [left; eauto|].
  right. exists es1, req'. split; [reflexivity|].
  destruct (pc_FromAPIType c (cp_Type req')) as [dbReqType|e]; cbn.
  2: { left. rewrite app_nil_r. eauto. }
  right. exists dbReqType. split; [reflexivity|].
  destruct (certificate_of c req') as [es2 [r|cert]] eqn:Hc; cbn.
  { left. exists es2, r. auto. }
  apply certificate_of_inr in Hc as Hc'. destruct Hc' as [-> _]. cbn.
  destruct (store_certificate c req' dbReqType cert) as [es3 x] eqn:Hs; cbn.
  right. exists cert, es3, x. destruct x; auto.
Qed.

(** A call of the third part stores or announces a certificate that was
    validated. *)
Lemma store_certificate_in (c : PostCall) (req : CertificatesPost) (dbReqType : Z)
    (cert : x509_Certificate) (es : list Effect) (x : Response + Response) (e : Effect) :
  store_certificate c req dbReqType cert = (es, x) -> In e es ->
  exists name,
    fallback_name c req cert name
    /\ certificateValidate (pc_now1 c) (pc_now2 c) (x_validity cert) = None
    /\ ((In e (store_calls c req dbReqType cert name)
         /\ pc_isClusterNotification c = false
         /\ pc_existing c (pc_CertFingerprint c cert) = false)
        \/ (In e (announce_calls c cert)
            /\ x = inr (SyncResponseLocation (pc_CertFingerprint c cert)))).
Proof.
  intros H Hin. apply store_certificate_cases in H as [[-> _]|(name & Hn & Hv & H)];
    [destruct Hin|].
  exists name. split; [assumption|]. split; [assumption|].
  destruct H as [(_ & -> & ->)|(Hnot & Hex & H)]; [right; auto|].
  destruct H as [(? & _ & -> & _)|(_ & [(? & _ & -> & _)|(_ & [(? & _ & -> & _)|H])])].
  - left. split; [|auto]. cbn in Hin |- *. tauto.
  - left. split; [|auto]. cbn in Hin |- *. tauto.
  - left. split; [|auto]. cbn in Hin |- *. tauto.
  - destruct H as (_ & -> & ->). apply in_app_or in Hin as [Hin|Hin]; auto.
Qed.

Lemma Forall_Cancel_not (es : list Effect) (e : Effect) :
  Forall (fun e => is_Cancel e = true) es -> In e es -> is_Cancel e = false -> False.
Proof.
  intros Hall Hin Hno. rewrite List.Forall_forall in Hall.
  apply Hall in Hin. congruence.
Qed.

(** Where a call of the handler that is not a cancellation comes from:
    the issue of a token, or the third part run on the request let
    through and the certificate found. *)
Lemma certificatesPost_in (c : PostCall) (e : Effect) :
  In e (fst (certificatesPost c)) -> is_Cancel e = false ->
  exists es1 req' dbReqType,
    admitted_request c = (es1, inr req')
    /\ pc_FromAPIType c (cp_Type req') = Ok dbReqType
    /\ ((exists es2 r, certificate_of c req' = (es2, inl r) /\ In e es2
                       /\ fst (certificatesPost c) = es1 ++ es2
                       /\ snd (certificatesPost c) = r)
        \/ (exists cert es3 x,
              certificate_of c req' = ([], inr cert)
              /\ store_certificate c req' dbReqType cert = (es3, x) /\ In e es3
              /\ fst (certificatesPost c) = es1 ++ es3
              /\ snd (certificatesPost c) = match x with inl r | inr r => r end)).
Proof.
  intros Hin Hno.
  destruct (certificatesPost_cases c) as [(r & Ha & _)|(es1 & req' & Ha & H)].
  { apply admitted_request_effects in Ha. destruct (Forall_Cancel_not _ _ Ha Hin Hno). }
  apply admitted_request_effects in Ha as Hes1.
  destruct H as [(Hfst & _)|(dbReqType & Ht & H)].
  { rewrite Hfst in Hin. destruct (Forall_Cancel_not _ _ Hes1 Hin Hno). }
  exists es1, req', dbReqType. split; [assumption|]. split; [assumption|].
  destruct H as [(es2 & r & Hc & Hfst & Hsnd)|(cert & es3 & x & Hc & Hs & Hfst & Hsnd)].
  - left. exists es2, r. rewrite Hfst in Hin.
    apply in_app_or in Hin as [Hin|Hin];
      [destruct (Forall_Cancel_not _ _ Hes1 Hin Hno)|auto].
  - right. exists cert, es3, x. rewrite Hfst in Hin.
    apply in_app_or in Hin as [Hin|Hin];
      [destruct (Forall_Cancel_not _ _ Hes1 Hin Hno)|auto].
Qed.

(** X17: a certificate add token is issued only to a trusted client that
    may create certificates, on a request that asks for a token of type
    client and carries no certificate, by a server that listens on the
    network; the token operation holds the request as it was sent, and the
    handler answers with that operation or with an internal error. *)
Theorem token_issued_only_to_trusted_admin (c : PostCall) (meta : TokenMeta) :
  In (CreateTokenOperation meta) (fst (certificatesPost c)) ->
  trusted_admin c
  /\ pc_Decode c = Ok (tm_request meta)
  /\ cp_Token (tm_request meta) = true
  /\ cp_Type (tm_request meta) = "client"
  /\ cp_Certificate (tm_request meta) = EmptyString
  /\ pc_HTTPSAddress c <> EmptyString
  /\ fst (certificatesPost c) = [CreateTokenOperation meta]
  /\ (snd (certificatesPost c) = OperationResponse meta
      \/ exists e, pc_OperationCreate c = Some e
                   /\ snd (certificatesPost c) = InternalError (plain e)).
Proof.
  intros Hin.
  apply certificatesPost_in in Hin as Hfrom; [|reflexivity].
  destruct Hfrom as (es1 & req' & dbReqType & Ha & _ & H).
  destruct H as [(es2 & r & Hc & Hin2 & Hfst & Hsnd)|(cert & es3 & x & _ & Hs & Hin3 & _)].
  2: { apply (store_certificate_in _ _ _ _ _ _ _ Hs) in Hin3
         as (name & _ & _ & [(Hin3 & _)|(Hin3 & _)]); cbn in Hin3;
         repeat destruct Hin3 as [Hin3|Hin3]; discriminate || destruct Hin3. }
  apply (certificate_of_effects _ _ _ _ Hc) in Hin2
    as (_ & Htok & Hcert & meta' & [= <-] & Hreq).
  apply admitted_request_inr in Ha as (req & Hd & Hq & _ & Hadm).
  destruct Hadm as [(Hadmin & -> & ->)|(_ & Hrt)].
  2: { apply require_token_inr in Hrt as (op & _ & Hused).
       apply token_used_no_token in Hused. congruence. }
  destruct (Hq Htok) as (_ & Hty & Haddr). rewrite Hreq.
  split; [assumption|]. split; [assumption|]. split; [assumption|].
  split; [assumption|]. split; [assumption|]. split; [assumption|].
  assert (Hi : issue_token c req = (es2, @inl _ x509_Certificate r)).
  { rewrite <- Hc. unfold certificate_of. now rewrite Hcert, Htok. }
  rewrite Hfst in Hin |- *. cbn [app] in Hin |- *. rewrite Hsnd.
  apply (issue_token_created _ _ _ _ _ Hi) in Hin as [-> Hx].
  split; [reflexivity|].
  destruct Hx as [[= ->]|(e & He & [= ->])]; eauto.
Qed.

Lemma token_issued_only_to_trusted_admin_witness :
  trusted_admin (sample_call (sample_request EmptyString EmptyString true) true false [] None).
Proof.
  apply (token_issued_only_to_trusted_admin
           (sample_call (sample_request EmptyString EmptyString true) true false [] None)
           {| tm_secret := "s3cret"; tm_fingerprint := "f00d";
              tm_addresses := ["10.0.0.1:8443"];
              tm_request := sample_request EmptyString EmptyString true;
              tm_expiresAt := None |}).
  vm_compute. left. reflexivity.
Defined.

(** Where a stored row comes from. *)
Lemma certificatesPost_create (c : PostCall) (dbCert : dbCertificate)
    (projects : list string) :
  In (CreateCertificateWithProjects dbCert projects) (fst (certificatesPost c)) ->
  exists es1 req' dbReqType cert name rest,
    admitted_request c = (es1, inr req')
    /\ pc_FromAPIType c (cp_Type req') = Ok dbReqType
    /\ certificate_of c req' = ([], inr cert)
    /\ fallback_name c req' cert name
    /\ certificateValidate (pc_now1 c) (pc_now2 c) (x_validity cert) = None
    /\ pc_isClusterNotification c = false
    /\ pc_existing c (pc_CertFingerprint c cert) = false
    /\ CreateCertificateWithProjects dbCert projects
       = hd UpdateCertificateCache (store_calls c req' dbReqType cert name)
    /\ fst (certificatesPost c) = es1 ++ rest.
Proof.
  intros Hin.
  apply certificatesPost_in in Hin as Hfrom; [|reflexivity].
  destruct Hfrom as (es1 & req' & dbReqType & Ha & Ht & H).
  destruct H as [(es2 & r & Hc & Hin2 & _)|(cert & es3 & x & Hc & Hs & Hin3 & Hfst & _)].
  { now apply (certificate_of_effects _ _ _ _ Hc) in Hin2 as (_ & _ & _ & meta & [=] & _). }
  apply (store_certificate_in _ _ _ _ _ _ _ Hs) in Hin3
    as (name & Hn & Hv & [(Hin3 & Hnot & Hex)|(Hin3 & _)]).
  2: { cbn in Hin3. repeat destruct Hin3 as [Hin3|Hin3]; discriminate || destruct Hin3. }
  exists es1, req', dbReqType, cert, name, es3.
  repeat (split; [assumption|]). split; [|assumption].
  cbn in Hin3. destruct Hin3 as [Hin3|[Hin3|[Hin3|[]]]]; try discriminate.
  now rewrite <- Hin3.
Qed.

(** X18: a certificate is written to the database only for a trusted
    client that may create certificates, or after a running token
    operation that matches the trust token of the request has been
    cancelled, which is then the first call the handler made. *)
Theorem certificate_stored_by_admin_or_token (c : PostCall) (dbCert : dbCertificate)
    (projects : list string) :
  In (CreateCertificateWithProjects dbCert projects) (fst (certificatesPost c)) ->
  trusted_admin c
  \/ exists req op req' rest,
       pc_Decode c = Ok req /\ token_used c req op req'
       /\ fst (certificatesPost c) = CancelOperation op :: rest.
Proof.
  intros (es1 & req' & t & cert & name & rest & Ha & _ & _ & _ & _ & _ & _ & _ & Hfst)
    %certificatesPost_create.
  apply admitted_request_inr in Ha as (req & Hd & _ & _ & [(Hadmin & _)|(_ & Hrt)]);
    [now left|].
  apply require_token_inr in Hrt as (op & -> & Hused).
  right. exists req, op, req', rest. auto.
Qed.

Lemma certificate_stored_by_admin_or_token_witness :
  trusted_admin (sample_call (sample_request EmptyString "s3cret" false) false false
                   [("secret", any_string "s3cret");
                    ("request", any_CertificatesPost
                                  (sample_request EmptyString EmptyString true))] None)
  \/ exists req op req' rest,
       pc_Decode (sample_call (sample_request EmptyString "s3cret" false) false false
                   [("secret", any_string "s3cret");
                    ("request", any_CertificatesPost
                                  (sample_request EmptyString EmptyString true))] None)
       = Ok req
       /\ token_used (sample_call (sample_request EmptyString "s3cret" false) false false
                   [("secret", any_string "s3cret");
                    ("request", any_CertificatesPost
                                  (sample_request EmptyString EmptyString true))] None)
            req op req'
       /\ fst (certificatesPost
                 (sample_call (sample_request EmptyString "s3cret" false) false false
                   [("secret", any_string "s3cret");
                    ("request", any_CertificatesPost
                                  (sample_request EmptyString EmptyString true))] None))
          = CancelOperation op :: rest.
Proof.
  eapply certificate_stored_by_admin_or_token.
  vm_compute. right. left. reflexivity.
Defined.



(** X20: with a certificate add token the client decides nothing: the
    row written to the database takes its type, restriction, projects and
    requested name from the request held by the token operation, has an
    empty description, and holds the last certificate the client presented
    over TLS, whatever the body of the request says. *)
Theorem add_token_fixes_request (c : PostCall) (req : CertificatesPost) (e : error)
    (dbCert : dbCertificate) (projects : list string) :
  pc_Decode c = Ok req ->
  ~ trusted_admin c ->
  pc_JoinTokenDecode c (cp_TrustToken req) = Err e ->
  In (CreateCertificateWithProjects dbCert projects) (fst (certificatesPost c)) ->
  exists op tokenReq peers cert name dbReqType,
    In (CancelOperation op) (fst (certificatesPost c))
    /\ request_of_token (lookup_key "request" (Metadata op)) = Some (Some tokenReq)
    /\ pc_TLS c = Some peers /\ last peers = Some cert
    /\ pc_FromAPIType c (cp_Type tokenReq) = Ok dbReqType
    /\ fallback_name c tokenReq cert name
    /\ dbCert = {| db_Fingerprint := pc_CertFingerprint c cert;
                   db_Type := dbReqType; db_Name := name;
                   db_Certificate := pc_pem_EncodeToMemory c (x_Raw cert);
                   db_Restricted := cp_Restricted tokenReq;
                   db_Description := EmptyString |}
    /\ projects = cp_Projects tokenReq.
Proof.
  intros Hd Hno Hj
    (es1 & req' & t & cert & name & rest & Ha & Ht & Hc & Hn & _ & _ & _ & Heq & Hfst)
    %certificatesPost_create.
  apply admitted_request_inr in Ha as (req0 & Hd0 & _ & _ & [(Hadmin & _)|(_ & Hrt)]);
    [contradiction|].
  assert (req0 = req) as -> by congruence.
  apply require_token_inr in Hrt as (op & -> & _ & _ & _ & Hused).
  rewrite Hj in Hused. destruct Hused as (secret & _ & _ & _ & Hr).
  apply request_of_token_shape in Hr as Hshape.
  destruct Hshape as (Htok & Hcert & Hdesc & _).
  apply certificate_of_inr in Hc as [_ [[Hne _]|(_ & _ & peers & Htls & Hlast)]];
    [contradiction|].
  exists op, req', peers, cert, name, t.
  split; [rewrite Hfst; now left|].
  repeat (split; [assumption|]).
  cbn in Heq. injection Heq as -> ->. rewrite Hdesc. split; reflexivity.
Qed.

Lemma add_token_fixes_request_witness :
  exists op tokenReq,
    In (CancelOperation op)
       (fst (certificatesPost
               (sample_call (sample_request "pem" "s3cret" false) false false
                  [("secret", any_string "s3cret");
                   ("request", any_CertificatesPost
                                 (sample_request EmptyString EmptyString true))] None)))
    /\ request_of_token (lookup_key "request" (Metadata op)) = Some (Some tokenReq).
Proof.
  pose (c := sample_call (sample_request "pem" "s3cret" false) false false
               [("secret", any_string "s3cret");
                ("request", any_CertificatesPost
                              (sample_request EmptyString EmptyString true))] None).
  assert (Hd : pc_Decode c = Ok (sample_request "pem" "s3cret" false)) by reflexivity.
  assert (Hno : ~ trusted_admin c) by (intros [[=] _]).
  assert (Hj : pc_JoinTokenDecode c (cp_TrustToken (sample_request "pem" "s3cret" false))
               = Err (external_error "not a join token")) by reflexivity.
  assert (Hin : In (CreateCertificateWithProjects
                      {| db_Fingerprint := "abcd"; db_Type := 1; db_Name := "bob";
                         db_Certificate := "raw"; db_Restricted := false;
                         db_Description := EmptyString |} ["default"])
                   (fst (certificatesPost c))) by (vm_compute; right; left; reflexivity).
  destruct (add_token_fixes_request c _ _ _ _ Hd Hno Hj Hin)
    as (op & tokenReq & _ & _ & _ & _ & Hop & Hr & _).
  exists op, tokenReq. split; assumption.
Defined.

(** X21: the creation event for a fingerprint is sent exactly when the
    handler answers with the location of that fingerprint. *)
Theorem created_event_iff_success (c : PostCall) (fingerprint : string) :
  In (SendLifecycle CertificateCreated fingerprint) (fst (certificatesPost c))
  <-> snd (certificatesPost c) = SyncResponseLocation fingerprint.
Proof.
  split.
  - intros Hin. apply certificatesPost_in in Hin as Hfrom; [|reflexivity].
    destruct Hfrom as (es1 & req' & t & _ & _ & H).
    destruct H as [(es2 & r & Hc & Hin2 & _)|(cert & es3 & x & _ & Hs & Hin3 & _ & Hsnd)].
    { now apply (certificate_of_effects _ _ _ _ Hc) in Hin2
        as (_ & _ & _ & meta & [=] & _). }
    apply (store_certificate_in _ _ _ _ _ _ _ Hs) in Hin3
      as (name & _ & _ & [(Hin3 & _)|(Hin3 & ->)]).
    { cbn in Hin3. repeat destruct Hin3 as [Hin3|Hin3]; discriminate || destruct Hin3. }
    cbn in Hin3. destruct Hin3 as [[=]|[[= <-]|[]]]. assumption.
  - intros Hsnd.
    destruct (certificatesPost_cases c) as [(r & Ha & Hr)|(es1 & req' & Ha & H)].
    { apply admitted_request_inl in Ha. rewrite <- Hr, Hsnd in Ha. discriminate. }
    destruct H as [(_ & e & _ & He)|(t & _ & H)]; [congruence|].
    destruct H as [(es2 & r & Hc & _ & Hr)|(cert & es3 & x & _ & Hs & Hfst & Hx)].
    { apply certificate_of_inl in Hc. rewrite <- Hr, Hsnd in Hc. discriminate. }
    rewrite Hfst. apply in_or_app. right. rewrite Hsnd in Hx.
    apply store_certificate_cases in Hs as [(_ & r & -> & Hr)|(name & _ & _ & H)].
    { subst r. discriminate. }
    destruct H as [(_ & -> & ->)|(_ & _ & H)].
    { injection Hx as ->. right. now left. }
    destruct H as [(? & _ & _ & ->)|(_ & [(? & _ & _ & ->)|(_ & [(? & _ & _ & ->)|H])])];
      try discriminate.
    destruct H as (_ & -> & ->). injection Hx as ->.
    apply in_or_app. right. right. now left.
Qed.

(** X22: a request that is a notification from another cluster member
    is not stored again: the handler creates no row in the cluster
    database, sends no message to the other members and makes no entry in
    the authorizer.  When it answers with the location of a fingerprint,
    the calls it made after admitting the request are the reload of the
    certificate cache and the creation event for that fingerprint, and
    nothing else. *)
Theorem cluster_notification_is_not_stored (c : PostCall) :
  pc_isClusterNotification c = true ->
  (forall dbCert projects,
     ~ In (CreateCertificateWithProjects dbCert projects) (fst (certificatesPost c)))
  /\ (forall certificate name type,
        ~ In (NotifyCreateCertificate certificate name type) (fst (certificatesPost c)))
  /\ (forall fingerprint,
        ~ In (AuthorizerAddCertificate fingerprint) (fst (certificatesPost c)))
  /\ (forall fingerprint,
        snd (certificatesPost c) = SyncResponseLocation fingerprint ->
        exists cancelled,
          Forall (fun e => is_Cancel e = true) cancelled
          /\ fst (certificatesPost c)
             = cancelled ++ [UpdateCertificateCache;
                             SendLifecycle CertificateCreated fingerprint]).
Proof.
  intros Hnot.
  assert (Hno : forall e, In e (fst (certificatesPost c)) -> is_Cancel e = false ->
                  (forall meta, e <> CreateTokenOperation meta) ->
                  e = UpdateCertificateCache
                  \/ exists fingerprint, e = SendLifecycle CertificateCreated fingerprint).
  { intros e Hin Hcancel Htoken.
    apply certificatesPost_in in Hin as Hfrom; [|assumption].
    destruct Hfrom as (es1 & req' & t & _ & _ & H).
    destruct H as [(es2 & r & Hc & Hin2 & _)|(cert & es3 & x & _ & Hs & Hin3 & _)].
    { apply (certificate_of_effects _ _ _ _ Hc) in Hin2 as (_ & _ & _ & meta & -> & _).
      now destruct (Htoken meta). }
    apply (store_certificate_in _ _ _ _ _ _ _ Hs) in Hin3
      as (name & _ & _ & [(_ & Hfalse & _)|(Hin3 & _)]); [congruence|].
    cbn in Hin3. destruct Hin3 as [<-|[<-|[]]]; eauto. }
  split; [|split; [|split]].
  - intros dbCert projects Hin.
    destruct (Hno _ Hin eq_refl ltac:(discriminate)) as [[=]|(fp & [=])].
  - intros certificate name type Hin.
    destruct (Hno _ Hin eq_refl ltac:(discriminate)) as [[=]|(fp & [=])].
  - intros fingerprint Hin.
    destruct (Hno _ Hin eq_refl ltac:(discriminate)) as [[=]|(fp & [=])].
  - intros fingerprint Hsnd.
    destruct (certificatesPost_cases c) as [(r & Ha & Hr)|(es1 & req' & Ha & H)].
    { apply admitted_request_inl in Ha. rewrite <- Hr, Hsnd in Ha. discriminate. }
    apply admitted_request_effects in Ha as Hes1.
    destruct H as [(_ & e & _ & He)|(t & _ & H)]; [congruence|].
    destruct H as [(es2 & r & Hc & _ & Hr)|(cert & es3 & x & _ & Hs & Hfst & Hx)].
    { apply certificate_of_inl in Hc. rewrite <- Hr, Hsnd in Hc. discriminate. }
    exists es1. split; [assumption|]. rewrite Hfst. f_equal. rewrite Hsnd in Hx.
    apply store_certificate_cases in Hs as [(_ & r & -> & Hr)|(name & _ & _ & H)].
    { subst r. discriminate. }
    destruct H as [(_ & -> & ->)|(Hfalse & _)]; [|congruence].
    now injection Hx as ->.
Qed.

Lemma cluster_notification_is_not_stored_witness :
  ~ In (AuthorizerAddCertificate "abcd")
       (fst (certificatesPost
               (sample_call (sample_request "pem" EmptyString false) true true [] None))).
Proof.
  apply (proj1 (proj2 (proj2 (cluster_notification_is_not_stored
           (sample_call (sample_request "pem" EmptyString false) true true [] None)
           eq_refl)))).
Defined.

(** X23: the database row is not taken back when the other members
    cannot be told: if the notification fails after the row was written,
    the handler answers with that error, the row stays written, and neither
    the authorizer entry is made, nor the cache reloaded, nor the event
    sent. *)
Theorem failed_notification_keeps_row (c : PostCall) (e : error)
    (certificate name type : string) :
  pc_notify c = Some e ->
  In (NotifyCreateCertificate certificate name type) (fst (certificatesPost c)) ->
  snd (certificatesPost c) = SmartError (plain e)
  /\ (exists dbCert projects,
        In (CreateCertificateWithProjects dbCert projects) (fst (certificatesPost c))
        /\ db_Name dbCert = name)
  /\ ~ In UpdateCertificateCache (fst (certificatesPost c))
  /\ (forall fingerprint,
        ~ In (AuthorizerAddCertificate fingerprint) (fst (certificatesPost c))
        /\ ~ In (SendLifecycle CertificateCreated fingerprint) (fst (certificatesPost c))).
Proof.
  intros Hnotify Hin. apply certificatesPost_in in Hin as Hfrom; [|reflexivity].
  destruct Hfrom as (es1 & req' & t & Ha & _ & H).
  destruct H as [(es2 & r & Hc & Hin2 & _)|(cert & es3 & x & _ & Hs & Hin3 & Hfst & Hsnd)].
  { now apply (certificate_of_effects _ _ _ _ Hc) in Hin2
      as (_ & _ & _ & meta & [=] & _). }
  apply admitted_request_effects in Ha.
  apply store_certificate_cases in Hs as [(-> & _)|(name' & _ & _ & H)];
    [destruct Hin3|].
  destruct H as [(_ & -> & _)|(_ & _ & H)].
  { cbn in Hin3. repeat destruct Hin3 as [Hin3|Hin3]; discriminate || destruct Hin3. }
  destruct H as [(? & _ & -> & _)|(_ & [(? & _ & -> & _)|(_ & [(e' & He & -> & ->)|H])])].
  - cbn in Hin3. repeat destruct Hin3 as [Hin3|Hin3]; discriminate || destruct Hin3.
  - cbn in Hin3. repeat destruct Hin3 as [Hin3|Hin3]; discriminate || destruct Hin3.
  - assert (e' = e) as -> by congruence.
    cbn in Hin3. destruct Hin3 as [[=]|[[= _ <- _]|[]]].
    rewrite Hfst, Hsnd. split; [reflexivity|]. split.
    { eexists _, _. split; [apply in_or_app; right; now left | reflexivity]. }
    split.
    { intros [Hi|Hi]%in_app_or; [now destruct (Forall_Cancel_not _ _ Ha Hi)|].
      cbn in Hi. repeat destruct Hi as [Hi|Hi]; discriminate || destruct Hi. }
    intros fingerprint. split.
    + intros [Hi|Hi]%in_app_or; [now destruct (Forall_Cancel_not _ _ Ha Hi)|].
      cbn in Hi. repeat destruct Hi as [Hi|Hi]; discriminate || destruct Hi.
    + intros [Hi|Hi]%in_app_or; [now destruct (Forall_Cancel_not _ _ Ha Hi)|].
      cbn in Hi. repeat destruct Hi as [Hi|Hi]; discriminate || destruct Hi.
  - destruct H as (Hnone & _). congruence.
Qed.

Lemma failed_notification_keeps_row_witness :
  snd (certificatesPost
         (sample_call (sample_request "pem" EmptyString false) true false []
            (Some (external_error "member offline"))))
  = SmartError (plain (external_error "member offline")).
Proof.
  eapply (fun certificate name type H =>
            proj1 (failed_notification_keeps_row
                     (sample_call (sample_request "pem" EmptyString false) true false []
                        (Some (external_error "member offline")))
                     (external_error "member offline") certificate name type eq_refl H)).
  vm_compute. right. left. reflexivity.
Defined.

(** X24: for a trusted client that may create certificates, the row
    written to the database holds the certificate parsed from the body of
    the request, which is not empty, with the type, restriction, description
    and projects of the request, under the requested name or, without one,
    the common name of the certificate or, without that, the remote host. *)
Theorem admin_adds_body_certificate (c : PostCall) (req : CertificatesPost)
    (dbCert : dbCertificate) (projects : list string) :
  trusted_admin c ->
  pc_Decode c = Ok req ->
  In (CreateCertificateWithProjects dbCert projects) (fst (certificatesPost c)) ->
  cp_Certificate req <> EmptyString
  /\ exists cert name dbReqType,
       parsed_from c (cp_Certificate req) cert
       /\ pc_FromAPIType c (cp_Type req) = Ok dbReqType
       /\ fallback_name c req cert name
       /\ dbCert = {| db_Fingerprint := pc_CertFingerprint c cert;
                      db_Type := dbReqType; db_Name := name;
                      db_Certificate := pc_pem_EncodeToMemory c (x_Raw cert);
                      db_Restricted := cp_Restricted req;
                      db_Description := cp_Description req |}
       /\ projects = cp_Projects req.
Proof.
  intros Hadmin Hd
    (es1 & req' & t & cert & name & rest & Ha & Ht & Hc & Hn & _ & _ & _ & Heq & _)
    %certificatesPost_create.
  apply admitted_request_inr in Ha as (req0 & Hd0 & _ & Hal & [(_ & _ & ->)|(Hno & _)]);
    [|contradiction].
  assert (req0 = req) as -> by congruence.
  apply certificate_of_inr in Hc as [_ [[Hne Hp]|(Hempty & Htok & _)]].
  - split; [assumption|]. exists cert, name, t.
    repeat (split; [assumption|]). cbn in Heq. injection Heq as -> ->. auto.
  - destruct (Hal (proj1 Hadmin)) as [Hne|Ht']; congruence.
Qed.

Lemma admin_adds_body_certificate_witness :
  cp_Certificate (sample_request "pem" EmptyString false) <> EmptyString.
Proof.
  eapply (fun dbCert projects H =>
            proj1 (admin_adds_body_certificate
                     (sample_call (sample_request "pem" EmptyString false) true false [] None)
                     (sample_request "pem" EmptyString false) dbCert projects
                     (conj eq_refl eq_refl) eq_refl H)).
  vm_compute. left. reflexivity.
Defined.

End Post.

(** ** Deleting and updating a certificate *)

Section Change.

Local Arguments certificateValidate : simpl never.

Lemma trusted_loop_true (check : x509_Certificate -> bool) (peers : list x509_Certificate) :
  trusted_loop check peers = true -> exists i, In i peers /\ check i = true.
Proof.
  induction peers as [|i peers IH]; cbn; [discriminate|].
  destruct (check i) eqn:Hi.
  - intros _. exists i. auto.
  - intros (j & Hj & Hc)%IH. exists j. auto.
Qed.

Ltac in_calls H :=
  cbn in H; repeat destruct H as [H|H]; try discriminate H; try contradiction.

Lemma finish_fst (m : M Response) : fst (finish m) = fst m.
Proof. now destruct m as [es [r|r]]. Qed.

(** A call made by [m] followed by [k] is made by [m], or by [k] on the
    value [m] ended with. *)
Lemma mbind_in {A B : Type} (m : M A) (k : A -> M B) (e : Effect) :
  In e (fst (mbind m k)) ->
  In e (fst m) \/ exists a, snd m = inr a /\ In e (fst (k a)).
Proof.
  destruct m as [es [r|a]]; cbn; [now left|].
  destruct (k a) as [es' x] eqn:Hk. cbn. intros [Hin|Hin]%in_app_or; [now left|].
  right. exists a. rewrite Hk. auto.
Qed.

Lemma orr_fst {A : Type} (w : herror -> Response) (r : result A) : fst (orr w r) = [].
Proof. now destruct r. Qed.

Lemma orr_snd {A : Type} (w : herror -> Response) (r : result A) (a : A) :
  snd (orr w r) = inr a -> r = Ok a.
Proof. destruct r; cbn; [now intros [= ->]|discriminate]. Qed.

Lemma chk_fst (w : herror -> Response) (e : option error) : fst (chk w e) = [].
Proof. now destruct e. Qed.

Lemma chk_snd (w : herror -> Response) (e : option error) (u : unit) :
  snd (chk w e) = inr u -> e = None.
Proof. destruct e; cbn; [discriminate|reflexivity]. Qed.

Lemma stop_if_fst (cond : bool) (r : Response) : fst (stop_if cond r) = [].
Proof. now destruct cond. Qed.

Lemma stop_if_snd (cond : bool) (r : Response) (u : unit) :
  snd (stop_if cond r) = inr u -> cond = false.
Proof. destruct cond; cbn; [discriminate|reflexivity]. Qed.

Lemma mbind_fst_nil {A B : Type} (m : M A) (k : A -> M B) :
  fst m = [] -> (forall a, fst (k a) = []) -> fst (mbind m k) = [].
Proof.
  destruct m as [es [r|a]]; cbn; [auto|]. intros -> Hk. specialize (Hk a).
  destruct (k a). cbn in *. assumption.
Qed.

Lemma mbind_snd {A B : Type} (m : M A) (k : A -> M B) (b : B) :
  snd (mbind m k) = inr b -> exists a, snd m = inr a /\ snd (k a) = inr b.
Proof.
  destruct m as [es [r|a]]; cbn; [discriminate|].
  destruct (k a) as [es' x] eqn:Hk. cbn. intros ->. exists a. now rewrite Hk.
Qed.

Lemma own_certificate_check_fst (pem_Decode : string -> option string)
    (ParseCertificate : string -> result x509_Certificate)
    (CheckTrustState : x509_Certificate -> string -> x509_Certificate -> bool)
    (TLS : option (list x509_Certificate)) (name pem : string) (refused : Response) :
  fst (own_certificate_check pem_Decode ParseCertificate CheckTrustState TLS name pem
         refused) = [].
Proof.
  unfold own_certificate_check.
  apply mbind_fst_nil; [now destruct (pem_Decode pem)|]. intros certBlock.
  apply mbind_fst_nil; [apply orr_fst|]. intros cert.
  apply mbind_fst_nil; [now destruct TLS|]. intros peers. apply stop_if_fst.
Qed.

(** The check passes only for a client that presents a certificate the
    stored one trusts. *)
Lemma own_certificate_check_snd (pem_Decode : string -> option string)
    (ParseCertificate : string -> result x509_Certificate)
    (CheckTrustState : x509_Certificate -> string -> x509_Certificate -> bool)
    (TLS : option (list x509_Certificate)) (name pem : string) (refused : Response)
    (u : unit) :
  snd (own_certificate_check pem_Decode ParseCertificate CheckTrustState TLS name pem
         refused) = inr u ->
  presents_trusted_by pem_Decode ParseCertificate CheckTrustState TLS name pem.
Proof.
  unfold own_certificate_check, presents_trusted_by.
  intros (certBlock & Hb & (cert & Hc%orr_snd & (peers & Hp & Ht%stop_if_snd)%mbind_snd)
            %mbind_snd)%mbind_snd.
  apply negb_false_iff, trusted_loop_true in Ht as (i & Hi & Ht).
  exists certBlock, cert, peers, i.
  destruct (pem_Decode pem); [|discriminate]. injection Hb as ->.
  destruct TLS; [|discriminate]. injection Hp as ->. auto.
Qed.

Lemma write_delete_in (c : DeleteCall) (certInfo : dbCertificate) (fingerprint : string) :
  In (DeleteCertificate fingerprint) (fst (write_delete c certInfo)) ->
  fingerprint = db_Fingerprint certInfo.
Proof.
  unfold write_delete, mbind, chk, call, stop, ret.
  destruct (dc_DeleteCertificate c), (dc_NewNotifier c), (dc_notify c); cbn;
    intros Hin; in_calls Hin; now injection Hin.
Qed.

(** X25: [certificateDelete] deletes a row only outside a cluster
    notification, only the row found for the fingerprint of the request,
    and only when the permission check succeeded, or failed with an error
    other than Forbidden while the client presented a certificate that the
    stored one trusts.  A client that the check answers with Forbidden gets
    that error back and no call is made, so that it deletes nothing, its
    own certificate included: the test on the error of the check is the
    inverse of the one in [certificatesPost] and [doCertificateUpdate]. *)
Theorem delete_needs_permission_or_own_certificate (c : DeleteCall) :
  (forall fingerprint,
     In (DeleteCertificate fingerprint) (fst (certificateDelete c)) ->
     dc_isClusterNotification c = false
     /\ exists prefix certInfo,
          dc_fingerprint c = Ok prefix
          /\ dc_GetCertificateByFingerprintPrefix c prefix = Ok certInfo
          /\ fingerprint = db_Fingerprint certInfo
          /\ (dc_CheckPermission c = Granted
              \/ ((exists e, dc_CheckPermission c = CheckFailed e)
                  /\ presents_trusted_by (dc_pem_Decode c) (dc_ParseCertificate c)
                       (dc_CheckTrustState c) (dc_TLS c)
                       (db_Name certInfo) (db_Certificate certInfo))))
  /\ (forall prefix certInfo e,
        dc_isClusterNotification c = false ->
        dc_fingerprint c = Ok prefix ->
        dc_GetCertificateByFingerprintPrefix c prefix = Ok certInfo ->
        dc_CheckPermission c = Denied e ->
        certificateDelete c = ([], SmartError (plain e))).
Proof.
  split.
  - intros fingerprint. unfold certificateDelete. rewrite finish_fst. intros Hin.
    apply mbind_in in Hin as [Hin|(prefix & Hp%orr_snd & Hin)];
      [rewrite orr_fst in Hin; destruct Hin|].
    apply mbind_in in Hin as [Hin|([] & _ & Hin)]; [|in_calls Hin].
    destruct (dc_isClusterNotification c); cbn [negb] in Hin; [destruct Hin|].
    unfold delete_row in Hin.
    apply mbind_in in Hin as [Hin|(certInfo & Hget%orr_snd & Hin)];
      [rewrite orr_fst in Hin; destruct Hin|].
    apply mbind_in in Hin as [Hin|(can & Hcan & Hin)];
      [destruct (dc_CheckPermission c); destruct Hin|].
    apply mbind_in in Hin as [Hin|([] & Hown & Hin)].
    { destruct can; cbn [negb] in Hin; [destruct Hin|].
      rewrite own_certificate_check_fst in Hin. destruct Hin. }
    apply write_delete_in in Hin.
    split; [reflexivity|]. exists prefix, certInfo.
    split; [assumption|]. split; [assumption|]. split; [assumption|].
    destruct (dc_CheckPermission c) as [|e|e]; cbn in Hcan; [now left|discriminate|].
    injection Hcan as <-. cbn [negb] in Hown. right. split; [eauto|].
    eapply own_certificate_check_snd, Hown.
  - intros prefix certInfo e Hnot Hp Hget Hperm.
    unfold certificateDelete, delete_row. rewrite Hp, Hnot. cbn.
    rewrite Hget. cbn. rewrite Hperm. reflexivity.
Qed.

Lemma delete_needs_permission_or_own_certificate_witness :
  dc_isClusterNotification (sample_delete (CheckFailed (external_error "timeout"))) = false
  /\ certificateDelete (sample_delete (Denied (external_error "forbidden")))
     = ([], SmartError (plain (external_error "forbidden"))).
Proof.
  split.
  - apply (proj1 (proj1 (delete_needs_permission_or_own_certificate
                           (sample_delete (CheckFailed (external_error "timeout"))))
                    "abcd" (or_introl eq_refl))).
  - apply (proj2 (delete_needs_permission_or_own_certificate
                    (sample_delete (Denied (external_error "forbidden"))))
             "ab" sample_row (external_error "forbidden")
             eq_refl eq_refl eq_refl eq_refl).
Defined.

Lemma projects_differ_false (dbProjects reqProjects : list string) :
  projects_differ dbProjects reqProjects = Some false ->
  List.length dbProjects = List.length reqProjects ->
  dbProjects = reqProjects.
Proof.
  revert reqProjects. induction dbProjects as [|p ps IH]; intros [|q qs]; cbn;
    try discriminate; [reflexivity|].
  destruct (String.eqb_spec p q) as [->|_]; cbn; [|discriminate].
  intros Hd [= Hl]. f_equal. now apply IH.
Qed.

Lemma own_certificate_update_fst (c : UpdateCall) (dbInfo : apiCertificate)
    (req : CertificatePut) (reqDBType : Z) :
  fst (own_certificate_update c dbInfo req reqDBType) = [].
Proof.
  unfold own_certificate_update.
  apply mbind_fst_nil; [apply stop_if_fst|]. intros _.
  apply mbind_fst_nil; [now destruct (projects_differ _ _) as [[|]|]|]. intros _.
  apply mbind_fst_nil; [|reflexivity].
  destruct (certificate_changed dbInfo req); [apply own_certificate_check_fst|reflexivity].
Qed.

(** What a client without the permission to edit must have sent, and the
    row it gets written. *)
Lemma own_certificate_update_snd (c : UpdateCall) (dbInfo : apiCertificate)
    (req : CertificatePut) (reqDBType : Z) (row : dbCertificate * list string) :
  snd (own_certificate_update c dbInfo req reqDBType) = inr row ->
  put_Restricted req = put_Restricted (api_writable dbInfo)
  /\ put_Name req = put_Name (api_writable dbInfo)
  /\ put_Projects req = put_Projects (api_writable dbInfo)
  /\ row = ({| db_Certificate := put_Certificate (api_writable dbInfo);
               db_Fingerprint := api_Fingerprint dbInfo;
               db_Restricted := put_Restricted (api_writable dbInfo);
               db_Name := put_Name (api_writable dbInfo);
               db_Type := reqDBType;
               db_Description := put_Description req |},
            put_Projects (api_writable dbInfo))
  /\ (certificate_changed dbInfo req = true ->
        presents_trusted_by (uc_pem_Decode c) (uc_ParseCertificate c)
          (uc_CheckTrustState c) (uc_TLS c)
          (put_Name (api_writable dbInfo)) (put_Certificate (api_writable dbInfo))).
Proof.
  unfold own_certificate_update.
  intros ([] & Hsame%stop_if_snd & ([] & Hdiff & ([] & Hown & [= <-])%mbind_snd)
            %mbind_snd)%mbind_snd.
  apply orb_false_iff in Hsame as [[Hr Hn]%orb_false_iff Hl].
  apply negb_false_iff, Bool.eqb_prop in Hr.
  apply negb_false_iff, String.eqb_eq in Hn.
  apply negb_false_iff, Nat.eqb_eq in Hl.
  assert (Hp : put_Projects (api_writable dbInfo) = put_Projects req).
  { apply projects_differ_false; [|assumption].
    destruct (projects_differ _ _) as [[|]|]; [discriminate|reflexivity|discriminate]. }
  split; [congruence|]. split; [congruence|]. split; [congruence|].
  split; [reflexivity|].
  intros Hc. rewrite Hc in Hown. eapply own_certificate_check_snd, Hown.
Qed.

Lemma supplied_certificate_fst (c : UpdateCall) (dbInfo : apiCertificate)
    (req : CertificatePut) (dbCert : dbCertificate) :
  fst (supplied_certificate c dbInfo req dbCert) = [].
Proof.
  unfold supplied_certificate. destruct (certificate_changed dbInfo req); [|reflexivity].
  apply mbind_fst_nil; [now destruct (uc_pem_Decode c _)|]. intros block.
  apply mbind_fst_nil; [apply orr_fst|]. intros cert.
  apply mbind_fst_nil; [apply chk_fst|]. reflexivity.
Qed.

Lemma supplied_certificate_snd (c : UpdateCall) (dbInfo : apiCertificate)
    (req : CertificatePut) (dbCert dbCert' : dbCertificate) :
  snd (supplied_certificate c dbInfo req dbCert) = inr dbCert' ->
  (certificate_changed dbInfo req = false /\ dbCert' = dbCert)
  \/ (certificate_changed dbInfo req = true
      /\ exists bytes cert,
           uc_pem_Decode c (put_Certificate req) = Some bytes
           /\ uc_ParseCertificate c bytes = Ok cert
           /\ certificateValidate (uc_now1 c) (uc_now2 c) (x_validity cert) = None
           /\ dbCert' = {| db_Certificate := uc_pem_EncodeToMemory c (x_Raw cert);
                           db_Fingerprint := uc_CertFingerprint c cert;
                           db_Restricted := db_Restricted dbCert;
                           db_Name := db_Name dbCert;
                           db_Type := db_Type dbCert;
                           db_Description := db_Description dbCert |}).
Proof.
  unfold supplied_certificate. destruct (certificate_changed dbInfo req).
  - intros (block & Hb & (cert & Hc%orr_snd & ([] & Hv%chk_snd & [= <-])%mbind_snd)
              %mbind_snd)%mbind_snd.
    right. split; [reflexivity|]. exists block, cert.
    destruct (uc_pem_Decode c (put_Certificate req)); [|discriminate].
    injection Hb as ->. auto.
  - intros [= <-]. now left.
Qed.

Lemma write_update_in (c : UpdateCall) (dbInfo : apiCertificate) (req : CertificatePut)
    (row : dbCertificate) (certProjects : list string)
    (fingerprint : string) (dbCert : dbCertificate) (projects : list string) :
  In (UpdateCertificate fingerprint dbCert projects)
     (fst (write_update c dbInfo req row certProjects)) ->
  fingerprint = api_Fingerprint dbInfo /\ dbCert = row /\ projects = certProjects.
Proof.
  unfold write_update, mbind, chk, call, stop, ret.
  destruct (uc_UpdateCertificate c), (uc_NewNotifier c), (uc_notify c); cbn;
    intros Hin; in_calls Hin; now injection Hin as <- <- <-.
Qed.

(** Where a row written by [doCertificateUpdate] comes from. *)
Lemma doCertificateUpdate_in (c : UpdateCall) (dbInfo : apiCertificate)
    (req : CertificatePut) (normal : bool)
    (fingerprint : string) (dbCert : dbCertificate) (projects : list string) :
  In (UpdateCertificate fingerprint dbCert projects)
     (fst (doCertificateUpdate c dbInfo req normal)) ->
  fingerprint = api_Fingerprint dbInfo
  /\ exists reqDBType row,
       uc_FromAPIType c (put_Type req) = Ok reqDBType
       /\ snd (supplied_certificate c dbInfo req (fst row)) = inr dbCert
       /\ projects = snd row
       /\ ((uc_CheckPermission c = Granted
            /\ row = ({| db_Certificate := put_Certificate (api_writable dbInfo);
                         db_Fingerprint := api_Fingerprint dbInfo;
                         db_Restricted := put_Restricted req;
                         db_Name := put_Name req;
                         db_Type := reqDBType;
                         db_Description := put_Description req |},
                      put_Projects req))
           \/ ((exists e, uc_CheckPermission c = Denied e)
               /\ snd (own_certificate_update c dbInfo req reqDBType) = inr row)).
Proof.
  unfold doCertificateUpdate. rewrite finish_fst. intros Hin.
  apply mbind_in in Hin as [Hin|([] & _ & Hin)]; [|in_calls Hin].
  destruct normal; [|destruct Hin]. unfold update_row in Hin.
  apply mbind_in in Hin as [Hin|(reqDBType & Ht%orr_snd & Hin)];
    [rewrite orr_fst in Hin; destruct Hin|].
  apply mbind_in in Hin as [Hin|(can & Hcan & Hin)];
    [destruct (uc_CheckPermission c); destruct Hin|].
  apply mbind_in in Hin as [Hin|(row & Hrow & Hin)].
  { destruct can; cbn [negb] in Hin; [destruct Hin|].
    rewrite own_certificate_update_fst in Hin. destruct Hin. }
  apply mbind_in in Hin as [Hin|(dbCert' & Hsup & Hin)];
    [rewrite supplied_certificate_fst in Hin; destruct Hin|].
  apply write_update_in in Hin as (-> & -> & ->).
  split; [reflexivity|]. exists reqDBType, row.
  split; [assumption|]. split; [assumption|]. split; [reflexivity|].
  destruct (uc_CheckPermission c) as [|e|e]; cbn in Hcan; [| |discriminate];
    injection Hcan as <-; cbn [negb] in Hrow.
  - left. split; [reflexivity|]. now injection Hrow.
  - right. eauto.
Qed.

(** X26: a client without the permission to edit a certificate gets a
    row written only when its request leaves the name, the restriction and
    the projects as they are; the row keeps them, and takes the type and
    the description from the request. *)
Theorem non_admin_update_keeps_fields (c : UpdateCall) (dbInfo : apiCertificate)
    (req : CertificatePut) (normal : bool) (e : error)
    (fingerprint : string) (dbCert : dbCertificate) (projects : list string) :
  uc_CheckPermission c = Denied e ->
  In (UpdateCertificate fingerprint dbCert projects)
     (fst (doCertificateUpdate c dbInfo req normal)) ->
  put_Name req = put_Name (api_writable dbInfo)
  /\ put_Restricted req = put_Restricted (api_writable dbInfo)
  /\ put_Projects req = put_Projects (api_writable dbInfo)
  /\ db_Name dbCert = put_Name (api_writable dbInfo)
  /\ db_Restricted dbCert = put_Restricted (api_writable dbInfo)
  /\ projects = put_Projects (api_writable dbInfo)
  /\ db_Description dbCert = put_Description req
  /\ uc_FromAPIType c (put_Type req) = Ok (db_Type dbCert).
Proof.
  intros Hperm (_ & t & row & Ht & Hsup & -> & [(Hg & _)|(_ & Hown)])
    %doCertificateUpdate_in; [congruence|].
  apply own_certificate_update_snd in Hown as (Hr & Hn & Hp & -> & _).
  cbn [fst snd] in *.
  apply supplied_certificate_snd in Hsup as [(_ & ->)|(_ & bytes & cert & _ & _ & _ & ->)];
    cbn; auto 10.
Qed.

Lemma non_admin_update_keeps_fields_witness :
  put_Name (sample_put "new pem" "desk") = put_Name (api_writable sample_entry)
  /\ uc_FromAPIType (sample_update (Denied (external_error "forbidden")))
       (put_Type (sample_put "new pem" "desk")) = Ok 1.
Proof.
  destruct (non_admin_update_keeps_fields
              (sample_update (Denied (external_error "forbidden")))
              sample_entry (sample_put "new pem" "desk") true
              (external_error "forbidden") "abcd"
              {| db_Fingerprint := "ef01"; db_Type := 1; db_Name := "bob";
                 db_Certificate := "raw"; db_Restricted := true;
                 db_Description := "desk" |}
              ["default"] eq_refl (or_introl eq_refl))
    as (Hn & _ & _ & _ & _ & _ & _ & Ht).
  split; [exact Hn | exact Ht].
Defined.

(** X27: [doCertificateUpdate] writes the row of the entry it was given.
    Either the request brings no other certificate and the row keeps the
    stored certificate and fingerprint, or the row holds the certificate
    parsed from the first PEM block of the request, which passed
    [certificateValidate], with its fingerprint; and then a client without
    the permission to edit presented a certificate that the stored one
    trusts. *)
Theorem updated_certificate_checked (c : UpdateCall) (dbInfo : apiCertificate)
    (req : CertificatePut) (normal : bool)
    (fingerprint : string) (dbCert : dbCertificate) (projects : list string) :
  In (UpdateCertificate fingerprint dbCert projects)
     (fst (doCertificateUpdate c dbInfo req normal)) ->
  fingerprint = api_Fingerprint dbInfo
  /\ ((certificate_changed dbInfo req = false
       /\ db_Certificate dbCert = put_Certificate (api_writable dbInfo)
       /\ db_Fingerprint dbCert = api_Fingerprint dbInfo)
      \/ (certificate_changed dbInfo req = true
          /\ (exists bytes cert,
                uc_pem_Decode c (put_Certificate req) = Some bytes
                /\ uc_ParseCertificate c bytes = Ok cert
                /\ certificateValidate (uc_now1 c) (uc_now2 c) (x_validity cert) = None
                /\ db_Certificate dbCert = uc_pem_EncodeToMemory c (x_Raw cert)
                /\ db_Fingerprint dbCert = uc_CertFingerprint c cert)
          /\ (uc_CheckPermission c = Granted
              \/ presents_trusted_by (uc_pem_Decode c) (uc_ParseCertificate c)
                   (uc_CheckTrustState c) (uc_TLS c)
                   (put_Name (api_writable dbInfo))
                   (put_Certificate (api_writable dbInfo))))).
Proof.
  intros (-> & t & row & Ht & Hsup & -> & Hrow)%doCertificateUpdate_in.
  split; [reflexivity|].
  apply supplied_certificate_snd in Hsup
    as [(Hc & ->)|(Hc & bytes & cert & Hb & Hp & Hv & ->)].
  - left. split; [assumption|].
    destruct Hrow as [(_ & ->)|(_ & (_ & _ & _ & -> & _)%own_certificate_update_snd)];
      cbn; auto.
  - right. split; [assumption|]. split; [exists bytes, cert; cbn; auto|].
    destruct Hrow as [(Hg & _)|(_ & (_ & _ & _ & _ & Hown)%own_certificate_update_snd)];
      auto.
Qed.

Lemma updated_certificate_checked_witness :
  "abcd" = api_Fingerprint sample_entry.
Proof.
  eapply (fun dbCert projects H =>
            proj1 (updated_certificate_checked
                     (sample_update (Denied (external_error "forbidden")))
                     sample_entry (sample_put "new pem" "desk") true
                     "abcd" dbCert projects H)).
  vm_compute. left. reflexivity.
Defined.

End Change.


End TrustStoreFacts.

(** ** The cache of trusted certificates *)

Module CertificateCacheFacts.
Import Go Backups Certificates Tokens TrustStore CertificateCache.

Section Cache.

Variable c : CacheCall.

Local Abbreviation step := (fun acc row => cache_row c acc (fst row) (snd row)).

Lemma with_type_lookup {A : Type} (certs : gmap Z (gmap string A)) (ty t : Z)
    (m : gmap string A) (fingerprint : string) (cert : A) :
  match certs !! ty with
  | Some _ => certs
  | None => <[ty := ∅]> certs
  end !! t = Some m ->
  m !! fingerprint = Some cert -> certs !! t = Some m.
Proof.
  destruct (certs !! ty) eqn:E; [auto|].
  intros [[-> <-]|[_ H]]%lookup_insert_Some; [|auto].
  rewrite lookup_empty. discriminate.
Qed.

Lemma with_type_keeps {A : Type} (certs : gmap Z (gmap string A)) (ty t : Z)
    (m : gmap string A) :
  certs !! t = Some m ->
  match certs !! ty with
  | Some _ => certs
  | None => <[ty := ∅]> certs
  end !! t = Some m.
Proof.
  destruct (certs !! ty) eqn:E; [auto|]. intros H.
  rewrite lookup_insert_ne; [assumption|]. intros ->. congruence.
Qed.

Lemma with_type_some {A : Type} (certs : gmap Z (gmap string A)) (ty : Z) :
  exists m, match certs !! ty with
            | Some _ => certs
            | None => <[ty := ∅]> certs
            end !! ty = Some m.
Proof.
  destruct (certs !! ty) as [m|] eqn:E; [eauto|].
  exists ∅. apply lookup_insert_eq.
Qed.

(** A round of the loop adds at most the certificate of its row. *)
Lemma cache_row_sound (acc : Cache) (dbCert : dbCertificate) (apiCert : apiCertificate)
    (t : Z) (fingerprint : string) (cert : x509_Certificate) :
  cached (cache_row c acc dbCert apiCert) t fingerprint cert ->
  cached acc t fingerprint cert
  \/ (t = db_Type dbCert /\ row_certificate c dbCert = Some cert
      /\ cc_CertFingerprint c cert = fingerprint).
Proof.
  unfold cached, cache_row, row_certificate. intros (m & Hm & Hfp).
  destruct (cc_pem_Decode c (db_Certificate dbCert)) as [bytes|];
    [destruct (cc_ParseCertificate c bytes) as [cert0|e]|]; cbn in Hm.
  - apply lookup_insert_Some in Hm as [[<- <-]|[Hne Hm]].
    + apply lookup_insert_Some in Hfp as [[<- <-]|[Hne Hfp]]; [right; auto|].
      left.
      destruct (with_type_some (newCerts acc) (db_Type dbCert)) as (m0 & Hm0).
      rewrite Hm0 in Hfp. cbn in Hfp. exists m0.
      split; [eapply with_type_lookup; eauto|assumption].
    + left. exists m. split; [eapply with_type_lookup; eauto|assumption].
  - left. exists m. split; [eapply with_type_lookup; eauto|assumption].
  - left. exists m. split; [eapply with_type_lookup; eauto|assumption].
Qed.

(** A round of the loop keeps every fingerprint cached, perhaps with
    another certificate. *)
Lemma cache_row_keeps (acc : Cache) (dbCert : dbCertificate) (apiCert : apiCertificate)
    (t : Z) (fingerprint : string) (cert : x509_Certificate) :
  cached acc t fingerprint cert ->
  exists cert', cached (cache_row c acc dbCert apiCert) t fingerprint cert'.
Proof.
  unfold cached, cache_row. intros (m & Hm & Hfp).
  apply (with_type_keeps _ (db_Type dbCert)) in Hm.
  destruct (cc_pem_Decode c (db_Certificate dbCert)) as [bytes|];
    [destruct (cc_ParseCertificate c bytes) as [cert0|e]|]; cbn; eauto.
  destruct (decide (db_Type dbCert = t)) as [<-|Hne].
  - rewrite Hm. cbn.
    destruct (decide (cc_CertFingerprint c cert0 = fingerprint)) as [<-|Hne].
    + exists cert0. eexists. split; [apply lookup_insert_eq|apply lookup_insert_eq].
    + exists cert. eexists. split; [apply lookup_insert_eq|].
      rewrite lookup_insert_ne; assumption.
  - exists cert, m. split; [|assumption]. rewrite lookup_insert_ne; assumption.
Qed.

(** A round of the loop caches the certificate of its row. *)
Lemma cache_row_adds (acc : Cache) (dbCert : dbCertificate) (apiCert : apiCertificate)
    (cert : x509_Certificate) :
  row_certificate c dbCert = Some cert ->
  cached (cache_row c acc dbCert apiCert) (db_Type dbCert) (cc_CertFingerprint c cert) cert.
Proof.
  unfold cached, cache_row, row_certificate.
  destruct (cc_pem_Decode c (db_Certificate dbCert)) as [bytes|]; [|discriminate].
  destruct (cc_ParseCertificate c bytes) as [cert0|e]; [|discriminate].
  intros [= ->]. cbn. eexists. split; apply lookup_insert_eq.
Qed.

Lemma fold_sound (rows : list (dbCertificate * apiCertificate)) (acc : Cache)
    (t : Z) (fingerprint : string) (cert : x509_Certificate) :
  cached (fold_left step rows acc) t fingerprint cert ->
  cached acc t fingerprint cert
  \/ exists row, In row rows /\ t = db_Type (fst row)
                 /\ row_certificate c (fst row) = Some cert
                 /\ cc_CertFingerprint c cert = fingerprint.
Proof.
  revert acc. induction rows as [|row rows IH]; intros acc; cbn; [auto|].
  intros [H|(r & Hin & H)]%IH.
  - apply cache_row_sound in H as [H|H]; [now left|]. right. exists row. auto.
  - right. exists r. auto.
Qed.

Lemma fold_keeps (rows : list (dbCertificate * apiCertificate)) (acc : Cache)
    (t : Z) (fingerprint : string) (cert : x509_Certificate) :
  cached acc t fingerprint cert ->
  exists cert', cached (fold_left step rows acc) t fingerprint cert'.
Proof.
  revert acc cert. induction rows as [|row rows IH]; intros acc cert; cbn; [eauto|].
  intros (cert' & H)%(cache_row_keeps _ (fst row) (snd row)). eapply IH, H.
Qed.

Lemma fold_complete (rows : list (dbCertificate * apiCertificate)) (acc : Cache)
    (row : dbCertificate * apiCertificate) (cert : x509_Certificate) :
  In row rows -> row_certificate c (fst row) = Some cert ->
  exists cert', cached (fold_left step rows acc) (db_Type (fst row))
                  (cc_CertFingerprint c cert) cert'.
Proof.
  revert acc. induction rows as [|r rows IH]; intros acc; cbn; [intros []|].
  intros [->|Hin] Hrow; [|now apply IH].
  eapply fold_keeps, cache_row_adds, Hrow.
Qed.

Lemma cache_row_local (acc : Cache) (dbCert : dbCertificate) (apiCert : apiCertificate) :
  localCerts (cache_row c acc dbCert apiCert)
  = localCerts acc ++ (if is_server_row c dbCert then [dbCert] else []).
Proof.
  unfold cache_row, is_server_row, row_certificate.
  destruct (cc_pem_Decode c (db_Certificate dbCert)) as [bytes|];
    [destruct (cc_ParseCertificate c bytes) as [cert0|e]|]; cbn;
    rewrite ?app_nil_r; try reflexivity.
  destruct (db_Type dbCert =? TypeServer); now rewrite ?app_nil_r.
Qed.

Lemma fold_local (rows : list (dbCertificate * apiCertificate)) (acc : Cache) :
  localCerts (fold_left step rows acc)
  = localCerts acc ++ List.filter (is_server_row c) (map fst rows).
Proof.
  revert acc. induction rows as [|row rows IH]; intros acc; cbn;
    [now rewrite app_nil_r|].
  rewrite IH, cache_row_local, <- app_assoc.
  now destruct (is_server_row c (fst row)).
Qed.

Lemma to_api_combine (dbCerts : list dbCertificate) (certs : list apiCertificate) :
  to_api (cc_ToAPI c) dbCerts = Ok certs ->
  map fst (combine dbCerts certs) = dbCerts
  /\ forall dbCert, In dbCert dbCerts ->
       exists apiCert, In (dbCert, apiCert) (combine dbCerts certs).
Proof.
  revert certs. induction dbCerts as [|d dbCerts IH]; intros certs; cbn.
  - intros _. split; [reflexivity|intros ? []].
  - destruct (cc_ToAPI c d) as [a|e]; [|discriminate].
    destruct (to_api (cc_ToAPI c) dbCerts) as [l|e]; [|discriminate].
    intros [= <-]. destruct (IH l eq_refl) as [Hmap Hin]. cbn. split; [now f_equal|].
    intros dbCert [->|H]; [eauto|]. destruct (Hin dbCert H) as (apiCert & Ha). eauto.
Qed.

(** X28: the cache of trusted certificates holds a certificate under a
    type and a fingerprint only if a row of the database has that type and
    its text decodes and parses to that certificate with that fingerprint;
    and every such row has its type and fingerprint in the cache. *)
Theorem cache_holds_the_parsed_rows (dbCerts : list dbCertificate) (cache : Cache)
    (t : Z) (fingerprint : string) :
  cc_GetCertificates c = Ok dbCerts ->
  updateCertificateCache c = Some cache ->
  (forall cert,
     cached cache t fingerprint cert ->
     exists dbCert, In dbCert dbCerts /\ db_Type dbCert = t
                    /\ row_certificate c dbCert = Some cert
                    /\ cc_CertFingerprint c cert = fingerprint)
  /\ (forall dbCert cert,
        In dbCert dbCerts -> db_Type dbCert = t ->
        row_certificate c dbCert = Some cert ->
        cc_CertFingerprint c cert = fingerprint ->
        exists cert', cached cache t fingerprint cert').
Proof.
  unfold updateCertificateCache. intros ->.
  destruct (to_api (cc_ToAPI c) dbCerts) as [certs|e] eqn:Hapi; [|discriminate].
  intros [= <-]. apply to_api_combine in Hapi as [Hmap Hin]. split.
  - intros cert [(m & Hm & _)|(row & Hrow & -> & Hc & Hfp)]%fold_sound.
    { cbn in Hm. rewrite lookup_empty in Hm. discriminate. }
    exists (fst row). split; [|auto].
    rewrite <- Hmap. now apply in_map.
  - intros dbCert cert Hd <- Hc <-. destruct (Hin dbCert Hd) as (apiCert & Ha).
    apply (fold_complete _ empty_cache _ cert Ha Hc).
Qed.

(** X29: the rows handed to the local database are the rows of the
    cluster database that have the server type and whose text decodes and
    parses, in the order of the cluster database. *)
Theorem local_rows_are_the_server_rows (dbCerts : list dbCertificate) (cache : Cache) :
  cc_GetCertificates c = Ok dbCerts ->
  updateCertificateCache c = Some cache ->
  localCerts cache = List.filter (is_server_row c) dbCerts.
Proof.
  unfold updateCertificateCache. intros ->.
  destruct (to_api (cc_ToAPI c) dbCerts) as [certs|e] eqn:Hapi; [|discriminate].
  intros [= <-]. apply to_api_combine in Hapi as [Hmap _].
  now rewrite fold_local, Hmap.
Qed.

End Cache.

Lemma cache_holds_the_parsed_rows_witness :
  exists cert',
    cached (default empty_cache (updateCertificateCache sample_cache_call)) 2 "abcd" cert'.
Proof.
  eapply (proj2 (cache_holds_the_parsed_rows sample_cache_call _ _ 2 "abcd"
                   eq_refl eq_refl)
            {| db_Fingerprint := "abcd"; db_Type := 2; db_Name := "m3";
               db_Certificate := "pem"; db_Restricted := false;
               db_Description := EmptyString |} sample_certificate).
  - right. right. left. reflexivity.
  - reflexivity.
  - reflexivity.
  - reflexivity.
Defined.

Lemma local_rows_are_the_server_rows_witness :
  localCerts (default empty_cache (updateCertificateCache sample_cache_call))
  = [ {| db_Fingerprint := "abcd"; db_Type := 2; db_Name := "m3";
         db_Certificate := "pem"; db_Restricted := false;
         db_Description := EmptyString |} ].
Proof.
  apply (local_rows_are_the_server_rows sample_cache_call _ _ eq_refl eq_refl).
Defined.

End CertificateCacheFacts.

(** ** Listing the certificates *)

Module CertificateListFacts.
Import Go Backups Certificates Tokens TrustStore CertificateList.

(** The loop over the rows adds the certificates shown to its
    accumulators, when no row the client may view fails to convert or to
    match. *)
Lemma load_rows_shown (userHasPermission : string -> bool)
    (ToAPI : dbCertificate -> result apiCertificate)
    (Match : apiCertificate -> result bool) (filtered : bool)
    (baseCerts : list dbCertificate)
    (fullResults : list apiCertificate) (linkResults : list string) :
  (forall baseCert, In baseCert baseCerts ->
     userHasPermission (db_Fingerprint baseCert) = true ->
     exists apiCert, ToAPI baseCert = Ok apiCert
                     /\ (filtered = true -> exists b, Match apiCert = Ok b)) ->
  load_rows userHasPermission ToAPI Match filtered baseCerts fullResults linkResults
  = Ok (fullResults ++ shown userHasPermission ToAPI Match filtered baseCerts,
        linkResults
        ++ map (fun apiCert => certificate_url (api_Fingerprint apiCert))
             (shown userHasPermission ToAPI Match filtered baseCerts)).
Proof.
  revert fullResults linkResults.
  induction baseCerts as [|baseCert rest IH]; intros fullResults linkResults Hok.
  { cbn. now rewrite !app_nil_r. }
  assert (Hrest : forall baseCert, In baseCert rest ->
            userHasPermission (db_Fingerprint baseCert) = true ->
            exists apiCert, ToAPI baseCert = Ok apiCert
                            /\ (filtered = true -> exists b, Match apiCert = Ok b))
    by (intros b Hb; apply Hok; now right).
  cbn [load_rows shown flat_map].
  destruct (userHasPermission (db_Fingerprint baseCert)) eqn:Hmay; cbn [negb].
  2: { rewrite (IH _ _ Hrest). reflexivity. }
  destruct (Hok baseCert (or_introl eq_refl) Hmay) as (apiCert & -> & Hmatch).
  destruct filtered.
  - destruct (Hmatch eq_refl) as ([|] & ->).
    + rewrite (IH _ _ Hrest). cbn [app map]. now rewrite <- !app_assoc.
    + rewrite (IH _ _ Hrest). reflexivity.
  - rewrite (IH _ _ Hrest). cbn [app map]. now rewrite <- !app_assoc.
Qed.

(** X30: a listing that loads the rows of the database, with recursion
    or a filter, shows the certificates the client may view and that match
    the filter, in the order of the database: in full with recursion, as
    links otherwise.  Rows the client may not view are not converted, so
    they cannot make the request fail. *)
Theorem listing_shows_permitted_matches (c : GetCall)
    (userHasPermission : string -> bool) (clauses : option nat)
    (baseCerts : list dbCertificate) :
  gc_GetPermissionChecker c = Ok userHasPermission ->
  gc_filter_Parse c = Ok clauses ->
  gc_recursion c || has_clauses clauses = true ->
  gc_GetCertificates c = Ok baseCerts ->
  (forall baseCert, In baseCert baseCerts ->
     userHasPermission (db_Fingerprint baseCert) = true ->
     exists apiCert, gc_ToAPI c baseCert = Ok apiCert
                     /\ (has_clauses clauses = true ->
                         exists b, gc_filter_Match c apiCert = Ok b)) ->
  certificatesGet c
  = if gc_recursion c then
      SyncResponse (shown userHasPermission (gc_ToAPI c) (gc_filter_Match c)
                      (has_clauses clauses) baseCerts)
    else
      SyncLinks (map (fun apiCert => certificate_url (api_Fingerprint apiCert))
                   (shown userHasPermission (gc_ToAPI c) (gc_filter_Match c)
                      (has_clauses clauses) baseCerts)).
Proof.
  intros Hp Hf Hload Hget Hok. unfold certificatesGet.
  rewrite Hp, Hf, Hload, Hget, (load_rows_shown _ _ _ _ _ [] [] Hok).
  reflexivity.
Qed.

Lemma listing_shows_permitted_matches_witness :
  certificatesGet (sample_get false) = SyncLinks ["/1.0/certificates/abcd"].
Proof.
  apply (listing_shows_permitted_matches (sample_get false)
           (fun fingerprint => String.eqb fingerprint "abcd") (Some 1%nat)
           [ sample_row;
             {| db_Fingerprint := "0000"; db_Type := 2; db_Name := "m2";
                db_Certificate := "garbage"; db_Restricted := false;
                db_Description := EmptyString |} ]
           eq_refl eq_refl eq_refl eq_refl).
  intros baseCert [<-|[<-|[]]] Hmay; [|discriminate Hmay].
  exists sample_entry. split; [reflexivity|]. intros _. exists true. reflexivity.
Defined.

End CertificateListFacts.
